(** * The Renault session client of renault5/src/renaultService.js

    A shallow embedding of the class [RenaultService]: its JavaScript values,
    the credential exchange, the context resolver, the request layer with its
    single-flight re-login, the snapshot cache, the fan-out aggregator and the
    two control actions.  Asynchronous methods are modelled as threads of
    awaited calls that are stepped by an explicit scheduler, so that every
    interleaving of pending requests is covered. *)

From Stdlib Require Import PrimFloat ZArith String Ascii DecimalString Lia.
From Stdlib Require SpecFloat FloatOps FloatAxioms.
From stdpp Require Import base list option strings.

#[local] Set Warnings "-register-all,-inexact-float,-clear-no-such-hyp".
Local Open Scope string_scope.
Local Open Scope list_scope.
Local Open Scope nat_scope.

(** ** JavaScript values *)

(** The values that flow through the service: what [JSON.parse] produces,
    plus [undefined].  Numbers are IEEE 754 binary64, as in the language. *)
Inductive Val : Type :=
| VUndef
| VNull
| VBool (b : bool)
| VNum (x : float)
| VStr (s : string)
| VArr (xs : list Val)
| VObj (fs : list (string * Val)).

(** Thrown values.  Everything the service throws or receives as a rejection
    is an [Error] object; only [HttpError] carries [status] and [bodyText]. *)
Record Err : Type := mkErr {
  e_name : string;
  e_message : string;
  e_status : option Z;
  e_bodyText : option string
}.

Definition Error (msg : string) : Err := mkErr "Error" msg None None.
Definition TypeError (msg : string) : Err := mkErr "TypeError" msg None None.
Definition SyntaxError (msg : string) : Err := mkErr "SyntaxError" msg None None.
(** class HttpError, lines 24-31 *)
Definition HttpError (message : string) (status : Z) (bodyText : string) : Err :=
  mkErr "HttpError" message (Some status) (Some bodyText).

(** The outcome of an awaited promise. *)
Inductive Outcome : Type :=
| Fulfilled (v : Val)
| Rejected (e : Err).

(** *** Strings *)

Definition lower_ascii (c : ascii) : ascii :=
  let n := nat_of_ascii c in
  if (65 <=? n)%nat && (n <=? 90)%nat then ascii_of_nat (n + 32) else c.

(** [s.toLowerCase()] on the ASCII letters; the literals the source compares
    with are ASCII, and no other character lower-cases into them. *)
Fixpoint toLowerCase (s : string) : string :=
  match s with
  | EmptyString => EmptyString
  | String c s' => String (lower_ascii c) (toLowerCase s')
  end.

(** [hay.includes(needle)] *)
Fixpoint includes (hay needle : string) : bool :=
  String.prefix needle hay ||
  match hay with
  | EmptyString => false
  | String _ hay' => includes hay' needle
  end.

(** [s.startsWith(p)] *)
Definition startsWith (s p : string) : bool := String.prefix p s.

Definition is_empty (s : string) : bool :=
  match s with EmptyString => true | _ => false end.

Fixpoint str_all (p : ascii → bool) (s : string) : bool :=
  match s with
  | EmptyString => true
  | String c s' => p c && str_all p s'
  end.

(** The characters of a number printed by [Number::toString]: digits, the
    point, the exponent marker and sign, and the letters of NaN and Infinity. *)
Definition numeric_char (c : ascii) : bool :=
  includes "0123456789.e+-NaInfity" (String c EmptyString).

(** Integers print in decimal (HTTP status codes in messages). *)
Definition show_Z (z : Z) : string := NilZero.string_of_int (Z.to_int z).

(** ** The host: language runtime and the vendor library

    The two numeric conversions of the runtime and the battery URL builder of
    the imported package '@remscodes/renault-api' (line 1) are not code of
    this repository; they are the interface the service is written against.
    (The package's constants LOGIN_URL and KEY only name the Gigya endpoint;
    see [Url] below.) *)
Class JsHost : Type := {
  (** Number::toString, used by [String(x)] and template literals *)
  number_to_string : float → string;
  number_to_string_chars : ∀ x, str_all numeric_char (number_to_string x) = true;
  (** StringToNumber, used by [Number(s)] *)
  string_to_number : string → float;
  KamereonApi_READ_BATTERY_STATUS_URL : Val → Val → string
}.

Section Values.
Context `{JsHost}.

Definition truthy (v : Val) : bool :=
  match v with
  | VUndef | VNull => false
  | VBool b => b
  | VNum x => negb (PrimFloat.is_zero x || PrimFloat.is_nan x)
  | VStr s => negb (is_empty s)
  | VArr _ | VObj _ => true
  end.

Definition nullish (v : Val) : bool :=
  match v with VUndef | VNull => true | _ => false end.

(** [a || b] *)
Definition js_or (a b : Val) : Val := if truthy a then a else b.
(** [a ?? b] *)
Definition js_nullish_or (a b : Val) : Val := if nullish a then b else a.

Fixpoint lookup_field (k : string) (fs : list (string * Val)) : option Val :=
  match fs with
  | [] => None
  | (k', v) :: fs' => if String.eqb k k' then Some v else lookup_field k fs'
  end.

(** [v.k] for a value that is not nullish and a data property name [k].  The
    names read by the source are not properties of arrays, strings, numbers
    or booleans, which therefore answer [undefined]. *)
Definition get (v : Val) (k : string) : Val :=
  match v with
  | VObj fs => default VUndef (lookup_field k fs)
  | _ => VUndef
  end.

(** [v?.k] *)
Definition opt (v : Val) (k : string) : Val :=
  if nullish v then VUndef else get v k.

(** [v.k] where [v] may be nullish: the read throws a TypeError then. *)
Definition get_strict (v : Val) (k : string) : Err + Val :=
  match v with
  | VUndef =>
      inl (TypeError ("Cannot read properties of undefined (reading '" +:+ k +:+ "')"))
  | VNull =>
      inl (TypeError ("Cannot read properties of null (reading '" +:+ k +:+ "')"))
  | _ => inr (get v k)
  end.

(** [!v.length], for a value that is not nullish *)
Definition length_falsy (v : Val) : bool :=
  match v with
  | VArr xs => match xs with [] => true | _ => false end
  | VStr s => is_empty s
  | _ => negb (truthy (get v "length"))
  end.

(** [String(v)], also the conversion inside template literals *)
Fixpoint to_string (v : Val) : string :=
  match v with
  | VUndef => "undefined"
  | VNull => "null"
  | VBool true => "true"
  | VBool false => "false"
  | VNum x => number_to_string x
  | VStr s => s
  | VArr xs =>
      (fix join (l : list Val) : string :=
         match l with
         | [] => ""
         | x :: l' =>
             (if nullish x then "" else to_string x) +:+
             match l' with [] => "" | _ => "," +:+ join l' end
         end) xs
  | VObj _ => "[object Object]"
  end.

Definition nan : float := PrimFloat.nan.

(** [Number(v)] *)
Definition to_number (v : Val) : float :=
  match v with
  | VUndef => nan
  | VNull => 0%float
  | VBool true => 1%float
  | VBool false => 0%float
  | VNum x => x
  | VStr s => string_to_number s
  | VArr _ | VObj _ => string_to_number (to_string v)
  end.

(** [Number.isFinite(x)] *)
Definition isFinite (x : float) : bool :=
  negb (PrimFloat.is_nan x || PrimFloat.is_infinity x).

(** [v === "lit"] *)
Definition is_str (v : Val) (lit : string) : bool :=
  match v with VStr s => String.eqb s lit | _ => false end.

(** [a === b] for values of which at least one is a primitive: objects and
    arrays are equal to no primitive, NaN to nothing. *)
Definition strict_eq_prim (a b : Val) : bool :=
  match a, b with
  | VUndef, VUndef | VNull, VNull => true
  | VBool x, VBool y => Bool.eqb x y
  | VNum x, VNum y => PrimFloat.eqb x y
  | VStr x, VStr y => String.eqb x y
  | _, _ => false
  end.

(** SameValueZero of [Array.prototype.includes] against a value that was not
    taken from the array: as [===], but NaN equals NaN. *)
Definition same_value_zero (a b : Val) : bool :=
  match a, b with
  | VNum x, VNum y => PrimFloat.eqb x y || (PrimFloat.is_nan x && PrimFloat.is_nan y)
  | _, _ => strict_eq_prim a b
  end.

(** [Error.prototype.toString] *)
Definition err_to_string (e : Err) : string :=
  if is_empty (e_name e) then e_message e
  else if is_empty (e_message e) then e_name e
  else e_name e +:+ ": " +:+ e_message e.

(** [String(err?.message || err)] for an error object *)
Definition err_text (e : Err) : string :=
  if is_empty (e_message e) then err_to_string e else e_message e.

(** ** Helpers of the module, lines 6-22 *)

(** [part in cur] for an object; the path parts of the source name no
    inherited property and no property of arrays. *)
Definition has_key (cur : Val) (part : string) : bool :=
  match cur with
  | VObj fs => bool_decide (is_Some (lookup_field part fs))
  | _ => false
  end.

(** The inner loop of [pick], lines 13-18: walk one path from [cur]. *)
Fixpoint walk (cur : Val) (parts : list string) : option Val :=
  match parts with
  | [] => Some cur
  | part :: parts' =>
      if truthy cur && has_key cur part then walk (get cur part) parts' else None
  end.

(** [pick(obj, paths)], lines 10-22; a path is given split at its dots. *)
Fixpoint pick (obj : Val) (paths : list (list string)) : Val :=
  match paths with
  | [] => VNull
  | p :: paths' =>
      match walk obj p with
      | Some cur =>
          if negb (nullish cur) && negb (is_str cur "") then cur else pick obj paths'
      | None => pick obj paths'
      end
  end.

(** ** Authorization-failure classification, lines 125-131 *)

(** [_is401(err)]; [None] is the [null] passed for a fulfilled read. *)
Definition _is401 (err : option Err) : bool :=
  let status := err ≫= e_status in
  if bool_decide (status = Some 401%Z) then true
  else
    let msg := from_option err_text "" err in
    includes msg "GET 401" || includes msg "POST 401" ||
    includes msg "HTTP 401" || includes msg " 401".

(** ** Parsers, lines 293-373 *)

(** [r?.data?.attributes || r?.data || {}] *)
Definition attributes_of (r : Val) : Val :=
  js_or (opt (opt r "data") "attributes") (js_or (opt r "data") (VObj [])).

(** [a.timestamp || a.lastUpdateTime || null] *)
Definition timestamp_of (a : Val) : Val :=
  js_or (get a "timestamp") (js_or (get a "lastUpdateTime") VNull).

Definition powerPositive (chargingPower : Val) : bool :=
  let powerNum := to_number chargingPower in
  isFinite powerNum && PrimFloat.ltb 0%float powerNum.

Definition statusSaysCharging (chargingStatus : Val) : bool :=
  let statusStr := toLowerCase (to_string (js_nullish_or chargingStatus (VStr ""))) in
  includes statusStr "charging" || includes statusStr "in_progress" ||
  includes statusStr "progress".

Definition statusNumSaysCharging (chargingStatus : Val) : bool :=
  let statusNum := to_number chargingStatus in
  if isFinite statusNum then PrimFloat.leb 0.9%float statusNum else false.

Definition isPlugged_of (plugStatus : Val) : bool :=
  let plugStr := toLowerCase (to_string (js_nullish_or plugStatus (VStr ""))) in
  let plugNum := to_number plugStatus in
  PrimFloat.eqb plugNum 1%float ||
  String.eqb plugStr "plugged" || String.eqb plugStr "connected" ||
  String.eqb plugStr "true" || String.eqb plugStr "1".

(** line 329: the remaining time takes no part *)
Definition isCharging_of (chargingStatus chargingPower : Val) : bool :=
  powerPositive chargingPower || statusSaysCharging chargingStatus ||
  statusNumSaysCharging chargingStatus.

Definition parseBattery (r : Val) : Val :=
  let a := attributes_of r in
  let plugStatus := js_nullish_or (get a "plugStatus") VNull in
  let chargingStatus := js_nullish_or (get a "chargingStatus") VNull in
  let remainMin := js_nullish_or (get a "chargingRemainingTime") VNull in
  let chargingPower := js_nullish_or (get a "chargingInstantaneousPower") VNull in
  VObj [
    ("batteryLevel", js_nullish_or (get a "batteryLevel") VNull);
    ("batteryAutonomyKm", js_nullish_or (get a "batteryAutonomy") VNull);
    ("plugStatus", plugStatus);
    ("chargingStatus", chargingStatus);
    ("chargingRemainingTimeMin", js_nullish_or remainMin VNull);
    ("chargingInstantaneousPower", js_nullish_or chargingPower VNull);
    ("isPlugged", VBool (isPlugged_of plugStatus));
    ("isCharging", VBool (isCharging_of chargingStatus chargingPower));
    ("timestamp", timestamp_of a)
  ].

Definition parseCockpit (r : Val) : Val :=
  let a := attributes_of r in
  VObj [
    ("totalMileageKm",
       js_nullish_or (get a "totalMileage") (js_nullish_or (get a "totalMileageKm") VNull));
    ("fuelAutonomyKm", js_nullish_or (get a "fuelAutonomy") VNull);
    ("timestamp", timestamp_of a)
  ].

Definition parseHvac (r : Val) : Val :=
  let a := attributes_of r in
  VObj [
    ("hvacStatus", js_nullish_or (get a "hvacStatus") (js_nullish_or (get a "status") VNull));
    ("externalTemperature", js_nullish_or (get a "externalTemperature") VNull);
    ("internalTemperature", js_nullish_or (get a "internalTemperature") VNull);
    ("lastUpdateTime", js_or (get a "lastUpdateTime") (js_or (get a "timestamp") VNull))
  ].

Definition parseLocation (r : Val) : Val :=
  let a := attributes_of r in
  VObj [
    ("latitude",
       js_nullish_or (get a "gpsLatitude")
         (js_nullish_or (get a "latitude") (js_nullish_or (get a "lat") VNull)));
    ("longitude",
       js_nullish_or (get a "gpsLongitude")
         (js_nullish_or (get a "longitude") (js_nullish_or (get a "lng") VNull)));
    ("heading", js_nullish_or (get a "heading") VNull);
    ("timestamp", timestamp_of a)
  ].

(** [a === b] for two values read from one parsed document.  A value is
    identical to itself only, and the source compares a VIN only with VINs of
    the links of the same response, where the first structurally equal entry
    is the identical one; NaN differs from itself. *)
Fixpoint val_eqb (a b : Val) : bool :=
  match a, b with
  | VArr xs, VArr ys =>
      (fix all2 (l1 l2 : list Val) : bool :=
         match l1, l2 with
         | [], [] => true
         | x :: l1', y :: l2' => val_eqb x y && all2 l1' l2'
         | _, _ => false
         end) xs ys
  | VObj fs, VObj gs =>
      (fix all2 (l1 l2 : list (string * Val)) : bool :=
         match l1, l2 with
         | [], [] => true
         | (k, x) :: l1', (k', y) :: l2' => String.eqb k k' && val_eqb x y && all2 l1' l2'
         | _, _ => false
         end) fs gs
  | _, _ => strict_eq_prim a b
  end.

End Values.

(** ** The network *)

Inductive Method : Type := GET | POST.

(** The address of a request.  The three Gigya calls address
    [GigyaApi.LOGIN_URL], with the path replaced for the account and token
    exchanges (lines 55, 77-80, 98-101); a Kamereon call addresses
    [new URL(pathOrUrl)] or [new URL(pathOrUrl, this.kamereonOrigin)]
    (lines 172-174). *)
Inductive Url : Type :=
| UrlGigya (pathname : option string)
| UrlAbsolute (href : string)
| UrlRelative (path : string) (origin : string).

Inductive ReqBody : Type :=
| NoBody
| FormBody (fields : list (string * string))
| JsonBody (payload : Val).

Record Request : Type := mkRequest {
  rq_method : Method;
  rq_url : Url;
  (** [withCountry], lines 165-169: the country added to the query unless
      the address carries one; [None] for a Gigya call *)
  rq_country : option string;
  (** the header 'x-gigya-id_token' of [kamereonHeaders], lines 156-163 *)
  rq_idToken : option Val;
  rq_body : ReqBody
}.

(** What [fetch] and the reading of the body deliver: the status, the body
    text, and what [JSON.parse] makes of the text (the message of its
    SyntaxError when the text is no JSON). *)
Record Response : Type := mkResponse {
  status : Z;
  text : string;
  json : string + Val
}.

Inductive NetResult : Type :=
| NetFail (e : Err)
| NetOk (res : Response).

(** [res.ok] *)
Definition ok (res : Response) : bool :=
  (200 <=? status res)%Z && (status res <=? 299)%Z.

(** ** The service object *)

(** Threads, and the promises they settle, are numbered. *)
Abbreviation tid := nat (only parsing).

Record Cache : Type := mkCache { at_ : Z; data : Val }.

(** The fields assigned by the constructor, lines 37-43 *)
Record Config : Type := mkConfig {
  email : Val;
  password : Val;
  country : Val;
  locale : Val;
  preferredVin : Val;
  kamereonOrigin : string
}.

(** The mutable fields, lines 45-49; [_reloginPromise] holds the thread of
    the re-login in flight. *)
Record Svc : Type := mkSvc {
  ctx : Val;
  vehicleMeta : Val;
  cache : Cache;
  _reloginPromise : option tid
}.

Definition TTL_MS : Z := 25000.
Definition DEFAULT_KAMEREON_ORIGIN : string := "https://api-wired-prod-1-euw1.wrd-aws.com".

Definition empty_cache : Cache := mkCache 0 VNull.

(** ** Threads of awaited calls

    A call of an asynchronous method runs until its first [await] and leaves
    a promise.  A chain of calls each awaited by its caller behaves as one
    thread with a stack: the innermost call is suspended at an [await]
    ([Susp]) on something outside the thread (a network exchange, the shared
    re-login promise, the four reads of a fan-out), and every caller waits
    in the frame of its own [await] ([Kont]).  A thread is identified with
    the promise of its outermost call. *)

(** The public methods a client of the object may call. *)
Inductive Api : Type :=
| ApiGetSummary (now : Z)               (* [now]: the value of Date.now(), line 378 *)
| ApiStartHvac (temperature : Val)
| ApiStopHvac
| ApiEnsureContext (force : bool)
| ApiKamereonGet (pathOrUrl : string) (idToken : Val)
| ApiKamereonPost (pathOrUrl : string) (idToken : Val) (payload : Val).

Inductive Susp : Type :=
| S_call (api : Api)                    (* called, body not yet entered *)
| S_gigyaLogin                          (* lines 58-64 *)
| S_gigyaGetAccountInfo                 (* lines 82-88 *)
| S_gigyaGetJwt                         (* lines 103-114 *)
| S_doFetch (m : Method)                (* lines 177-178, 200-205 *)
| S_reloginJoin (p : tid)               (* line 140 *)
| S_reloginOwn (p : tid)                (* lines 147-151 *)
| S_allSettled (now : Z) (vin : Val) (battery cockpit hvac location : tid). (* line 388 *)

Inductive Kont : Type :=
| K_ensure_login                                          (* line 261 *)
| K_ensure_account (gigyaCookie : Val)                    (* line 262 *)
| K_ensure_jwt (gigyaCookie personId : Val)               (* line 263 *)
| K_ensure_person (gigyaCookie personId idToken : Val)    (* line 265 *)
| K_ensure_vehicles (gigyaCookie personId idToken accountId : Val) (* line 273 *)
| K_kamereon_first (m : Method) (url : Url) (payload : Val)   (* lines 184, 211 *)
| K_kamereon_relogin (m : Method) (url : Url) (payload : Val) (* lines 188, 215 *)
| K_kamereon_ensure (m : Method) (url : Url) (payload : Val)  (* lines 189, 216 *)
| K_kamereon_retry                                        (* lines 190, 217 *)
| K_iife                                                  (* line 144 *)
| K_summary_ensure (now : Z)                              (* line 381 *)
| K_hvac_ensure (payload : Val)                           (* lines 431, 440 *)
| K_hvac_post.                                            (* lines 434, 443 *)

Inductive TState : Type :=
| Running (s : Susp) (ks : list Kont)
| Done (o : Outcome).

(** The object, the requests issued so far (each with the thread that issued
    it), and the threads. *)
Record Machine : Type := mkMachine {
  config : Config;
  svc : Svc;
  net : list (tid * Request);
  threads : list TState
}.

(** What a call or a resumed frame comes to: it returns or throws, or it is
    suspended again with the frames of the calls it has entered. *)
Inductive Next : Type :=
| Return (o : Outcome)
| Await (s : Susp) (ks : list Kont).

Definition Pending : Type := Susp * list Kont.

(** The caller's frame goes below those of the call it awaits. *)
Definition awaiting (p : Pending) (k : Kont) : Next := Await p.1 (p.2 ++ [k]).

Definition state_of (n : Next) : TState :=
  match n with
  | Return o => Done o
  | Await s ks => Running s ks
  end.

(** *** A state monad over the machine *)

Definition M (A : Type) : Type := Machine → A * Machine.

Definition ret {A} (a : A) : M A := λ m, (a, m).
Definition bind {A B} (c : M A) (k : A → M B) : M B :=
  λ m, let (a, m') := c m in k a m'.

Declare Scope machine_scope.
Delimit Scope machine_scope with M.
Notation "x <- c ;; k" := (bind c (λ x, k))
  (at level 100, c at next level, k at level 200, only parsing) : machine_scope.
Notation "c ;; k" := (bind c (λ _, k))
  (at level 100, k at level 200, only parsing) : machine_scope.
Local Open Scope machine_scope.

Definition this_svc : M Svc := λ m, (svc m, m).
Definition this_config : M Config := λ m, (config m, m).
Definition set_svc (s : Svc) : M unit :=
  λ m, (tt, mkMachine (config m) s (net m) (threads m)).

Definition set_ctx (v : Val) : M unit :=
  s <- this_svc ;; set_svc (mkSvc v (vehicleMeta s) (cache s) (_reloginPromise s)).
Definition set_vehicleMeta (v : Val) : M unit :=
  s <- this_svc ;; set_svc (mkSvc (ctx s) v (cache s) (_reloginPromise s)).
Definition set_cache (c : Cache) : M unit :=
  s <- this_svc ;; set_svc (mkSvc (ctx s) (vehicleMeta s) c (_reloginPromise s)).
Definition set_reloginPromise (p : option tid) : M unit :=
  s <- this_svc ;; set_svc (mkSvc (ctx s) (vehicleMeta s) (cache s) p).

(** [fetch(...)] by thread [me]: the request leaves. *)
Definition fetch (me : tid) (rq : Request) : M unit :=
  λ m, (tt, mkMachine (config m) (svc m) (net m ++ [(me, rq)]) (threads m)).

(** A call whose promise is kept instead of awaited at once: a new thread,
    run to its first [await]. *)
Definition spawn (body : tid → M Next) : M tid :=
  λ m, let p := length (threads m) in
       let (n, m') := body p m in
       (p, mkMachine (config m') (svc m') (net m') (threads m' ++ [state_of n])).

Section Service.
Context `{JsHost}.

(** ** Credential exchange, lines 54-121 *)

Definition json_or_empty (res : Response) : Val :=
  match json res with inr v => v | inl _ => VObj [] end.

Definition call_gigyaLogin (me : tid) : M Pending :=
  c <- this_config ;;
  fetch me (mkRequest POST (UrlGigya None) None None
              (FormBody [("loginID", to_string (email c));
                         ("password", to_string (password c))])) ;;
  ret (S_gigyaLogin, []).

Definition gigyaLogin_result (r : NetResult) : Outcome :=
  match r with
  | NetFail e => Rejected e
  | NetOk res =>
      let json := json_or_empty res in
      let cookieValue := pick json [["sessionInfo"; "cookieValue"]] in
      if negb (truthy cookieValue) then
        let msg :=
          js_or (pick json [["errorMessage"]; ["errorDetails"]; ["error_description"]])
                (VStr ("Gigya login failed (HTTP " +:+ show_Z (status res) +:+ ")")) in
        let code := js_or (pick json [["errorCode"]]) (VStr "") in
        Rejected (Error ("Gigya login failed " +:+
                         (if truthy code then "(code " +:+ to_string code +:+ ") " else "") +:+
                         ": " +:+ to_string msg))
      else Fulfilled cookieValue
  end.

Definition call_gigyaGetAccountInfo (me : tid) (gigyaCookie : Val) : M Pending :=
  fetch me (mkRequest POST (UrlGigya (Some "/accounts.getAccountInfo")) None None
              (FormBody [("oauth_token", to_string gigyaCookie);
                         ("login_token", to_string gigyaCookie)])) ;;
  ret (S_gigyaGetAccountInfo, []).

Definition gigyaGetAccountInfo_result (r : NetResult) : Outcome :=
  match r with
  | NetFail e => Rejected e
  | NetOk res =>
      let json := json_or_empty res in
      let personId := pick json [["data"; "personId"]; ["data"; "personID"]] in
      if negb (truthy personId) then
        let msg := js_or (pick json [["errorMessage"]; ["errorDetails"]])
                         (VStr "Gigya getAccountInfo failed") in
        Rejected (Error (to_string msg))
      else Fulfilled personId
  end.

Definition call_gigyaGetJwt (me : tid) (gigyaCookie : Val) : M Pending :=
  fetch me (mkRequest POST (UrlGigya (Some "/accounts.getJWT")) None None
              (FormBody [("oauth_token", to_string gigyaCookie);
                         ("login_token", to_string gigyaCookie);
                         ("fields", "data.personId,data.gigyaDataCenter");
                         ("expiration", "900")])) ;;
  ret (S_gigyaGetJwt, []).

Definition gigyaGetJwt_result (r : NetResult) : Outcome :=
  match r with
  | NetFail e => Rejected e
  | NetOk res =>
      let json := json_or_empty res in
      let idToken := pick json [["id_token"]; ["idToken"]] in
      if negb (truthy idToken) then
        let msg := js_or (pick json [["errorMessage"]; ["errorDetails"]])
                         (VStr "Gigya getJWT failed") in
        Rejected (Error (to_string msg))
      else Fulfilled idToken
  end.

(** ** Kamereon helpers, lines 156-219 *)

Definition method_name (m : Method) : string :=
  match m with GET => "GET" | POST => "POST" end.

(** The request of [doFetch(tok)], lines 177 and 200-204 *)
Definition kamereon_request (c : Config) (m : Method) (url : Url) (tok payload : Val)
    : Request :=
  mkRequest m url (Some (to_string (country c))) (Some tok)
    (match m with GET => NoBody | POST => JsonBody payload end).

(** [doFetch(tok)], the closure of lines 176-181 and 199-208 *)
Definition call_doFetch (me : tid) (m : Method) (url : Url) (tok payload : Val) : M Pending :=
  c <- this_config ;;
  fetch me (kamereon_request c m url tok payload) ;;
  ret (S_doFetch m, []).

Definition doFetch_result (m : Method) (r : NetResult) : Outcome :=
  match r with
  | NetFail e => Rejected e
  | NetOk res =>
      if negb (ok res) then
        Rejected (HttpError ("Kamereon " +:+ method_name m +:+ " " +:+ show_Z (status res))
                            (status res) (text res))
      else if is_empty (text res) then
        Fulfilled (match m with GET => VNull | POST => VObj [("ok", VBool true)] end)
      else
        match json res with
        | inl msg => Rejected (SyntaxError msg)
        | inr v => Fulfilled v
        end
  end.

Definition resolve_url (pathOrUrl origin : string) : Url :=
  if startsWith pathOrUrl "http" then UrlAbsolute pathOrUrl
  else UrlRelative pathOrUrl origin.

(** [kamereonGet] and [kamereonPost] up to their first [await],
    lines 171-184 and 194-211 *)
Definition call_kamereon (me : tid) (m : Method) (pathOrUrl : string)
    (idToken payload : Val) : M Pending :=
  c <- this_config ;;
  let url := resolve_url pathOrUrl (kamereonOrigin c) in
  p <- call_doFetch me m url idToken payload ;;
  ret (p.1, (p.2 ++ [K_kamereon_first m url payload])%list).

(** line 190 / 217: the retry's outcome is the call's outcome *)
Definition kamereon_after_retry (o : Outcome) : M Next := ret (Return o).

(** lines 189-190 / 216-217 *)
Definition kamereon_after_ensure (me : tid) (m : Method) (url : Url) (payload : Val)
    (o : Outcome) : M Next :=
  match o with
  | Rejected e => ret (Return (Rejected e))
  | Fulfilled fresh =>
      p <- call_doFetch me m url (get fresh "idToken") payload ;;
      ret (awaiting p K_kamereon_retry)
  end.

(** ** Context bootstrap, lines 223-289 *)

Definition _extractVehicleMetaFromLink (v : Val) : Val :=
  let vd :=
    js_or (opt v "vehicleDetails")
      (js_or (opt (opt v "attributes") "vehicleDetails")
        (js_or (opt (opt (opt v "data") "attributes") "vehicleDetails") (VObj []))) in
  let picture :=
    js_or (opt vd "pictureURL") (js_or (opt vd "pictureUrl")
      (js_or (opt vd "vehiclePictureUrl") (js_or (opt vd "vehiclePictureURL")
        (js_or (opt v "pictureURL") (js_or (opt v "pictureUrl") VNull))))) in
  let model :=
    js_or (opt vd "modelName") (js_or (opt vd "model")
      (js_or (opt vd "commercialName") (js_or (opt v "modelName") VNull))) in
  let brand := js_or (opt vd "brand") (js_or (opt vd "make") VNull) in
  VObj [
    ("vin", js_or (opt v "vin") (js_or (opt vd "vin") VNull));
    ("model", model);
    ("brand", brand);
    ("pictureUrl", picture);
    ("raw", VObj [("modelName", js_or (opt vd "modelName") VNull);
                  ("commercialName", js_or (opt vd "commercialName") VNull)])
  ].

(** [obj.k = v] on an object that has the field *)
Fixpoint assign_field (k : string) (v : Val) (fs : list (string * Val)) : list (string * Val) :=
  match fs with
  | [] => [(k, v)]
  | (k', x) :: fs' => if String.eqb k k' then (k, v) :: fs' else (k', x) :: assign_field k v fs'
  end.

Definition assign (obj : Val) (k : string) (v : Val) : Val :=
  match obj with
  | VObj fs => VObj (assign_field k v fs)
  | _ => obj
  end.

(** [accounts.find(a => (a.accountType || a?.attributes?.accountType) === 'MYRENAULT')] *)
Fixpoint find_MYRENAULT (accounts : list Val) : Err + Val :=
  match accounts with
  | [] => inr VUndef
  | a :: rest =>
      match get_strict a "accountType" with
      | inl e => inl e
      | inr t =>
          if is_str (js_or t (opt (opt a "attributes") "accountType")) "MYRENAULT"
          then inr a else find_MYRENAULT rest
      end
  end.

(** lines 266-271: the account id out of the person response *)
Definition select_account (person : Val) : Err + Val :=
  let accounts :=
    js_or (opt person "accounts")
      (js_or (opt (opt (opt person "data") "attributes") "accounts") (VArr [])) in
  if length_falsy accounts then inl (Error "No accounts found in Kamereon person response")
  else
    match accounts with
    | VArr xs =>
        match find_MYRENAULT xs with
        | inl e => inl e
        | inr found =>
            let my := js_or found (List.hd VUndef xs) in
            match get_strict my "accountId" with
            | inl e => inl e
            | inr a =>
                let accountId := js_or a (opt (opt my "attributes") "accountId") in
                if negb (truthy accountId) then inl (Error "Could not determine accountId")
                else inr accountId
            end
        end
    | _ => inl (TypeError "accounts.find is not a function")
    end.

(** [v?.vin || v?.vehicleDetails?.vin || v?.attributes?.vin], lines 275, 282 *)
Definition vin_of_link (v : Val) : Val :=
  js_or (opt v "vin") (js_or (opt (opt v "vehicleDetails") "vin") (opt (opt v "attributes") "vin")).

(** [vins.includes(v)] *)
Definition Array_includes (xs : list Val) (v : Val) : bool :=
  existsb (same_value_zero v) xs.

(** line 279 *)
Definition select_vin (preferredVin : Val) (vins : list Val) : Val :=
  if truthy preferredVin && Array_includes vins preferredVin
  then preferredVin else List.hd VUndef vins.

(** line 274 *)
Definition links_of (vehicles : Val) : Val :=
  js_or (opt vehicles "vehicleLinks")
    (js_or (opt (opt vehicles "data") "vehicleLinks")
      (js_or (opt vehicles "data") (VArr []))).

(** line 275 *)
Definition vins_of (links : list Val) : list Val :=
  List.filter truthy (List.map vin_of_link links).

(** lines 274-285: the VIN and the vehicle metadata out of the vehicles
    response *)
Definition select_vehicle (preferredVin vehicles : Val) : Err + (Val * Val) :=
  match links_of vehicles with
  | VArr links =>
      match vins_of links with
      | [] => inl (Error "No vehicles found for this account")
      | vins =>
          let vin := select_vin preferredVin vins in
          let selectedLink :=
            js_or (from_option id VUndef
                     (List.find (λ v, val_eqb (vin_of_link v) vin) links))
                  (List.hd VUndef links) in
          inr (vin, assign (_extractVehicleMetaFromLink selectedLink) "vin" vin)
      end
  | _ => inl (TypeError "links.map is not a function")
  end.

(** [this.ctx?.idToken && this.ctx?.accountId && this.ctx?.vin], line 259 *)
Definition ctx_complete (s : Svc) : bool :=
  truthy (opt (ctx s) "idToken") && truthy (opt (ctx s) "accountId") &&
  truthy (opt (ctx s) "vin").

(** [ensureContext(force)] up to its first [await], lines 258-261 *)
Definition call_ensureContext (me : tid) (force : bool) : M Next :=
  s <- this_svc ;;
  if negb force && ctx_complete s then ret (Return (Fulfilled (ctx s)))
  else p <- call_gigyaLogin me ;; ret (awaiting p K_ensure_login).

Definition ensure_after_login (me : tid) (o : Outcome) : M Next :=
  match o with
  | Rejected e => ret (Return (Rejected e))
  | Fulfilled gigyaCookie =>
      p <- call_gigyaGetAccountInfo me gigyaCookie ;;
      ret (awaiting p (K_ensure_account gigyaCookie))
  end.

Definition ensure_after_account (me : tid) (gigyaCookie : Val) (o : Outcome) : M Next :=
  match o with
  | Rejected e => ret (Return (Rejected e))
  | Fulfilled personId =>
      p <- call_gigyaGetJwt me gigyaCookie ;;
      ret (awaiting p (K_ensure_jwt gigyaCookie personId))
  end.

Definition ensure_after_jwt (me : tid) (gigyaCookie personId : Val) (o : Outcome) : M Next :=
  match o with
  | Rejected e => ret (Return (Rejected e))
  | Fulfilled idToken =>
      p <- call_kamereon me GET ("/commerce/v1/persons/" +:+ to_string personId) idToken VUndef ;;
      ret (awaiting p (K_ensure_person gigyaCookie personId idToken))
  end.

Definition ensure_after_person (me : tid) (gigyaCookie personId idToken : Val)
    (o : Outcome) : M Next :=
  match o with
  | Rejected e => ret (Return (Rejected e))
  | Fulfilled person =>
      match select_account person with
      | inl e => ret (Return (Rejected e))
      | inr accountId =>
          p <- call_kamereon me GET
                 ("/commerce/v1/accounts/" +:+ to_string accountId +:+ "/vehicles")
                 idToken VUndef ;;
          ret (awaiting p (K_ensure_vehicles gigyaCookie personId idToken accountId))
      end
  end.

Definition ensure_after_vehicles (gigyaCookie personId idToken accountId : Val)
    (o : Outcome) : M Next :=
  match o with
  | Rejected e => ret (Return (Rejected e))
  | Fulfilled vehicles =>
      c <- this_config ;;
      match select_vehicle (preferredVin c) vehicles with
      | inl e => ret (Return (Rejected e))
      | inr (vin, meta) =>
          set_vehicleMeta meta ;;
          set_ctx (VObj [("gigyaCookie", gigyaCookie); ("personId", personId);
                         ("idToken", idToken); ("accountId", accountId); ("vin", vin)]) ;;
          s <- this_svc ;;
          ret (Return (Fulfilled (ctx s)))
      end
  end.

(** ** Re-login, lines 133-152 *)

Definition _invalidateContext : M unit :=
  set_ctx VNull ;; set_vehicleMeta VNull ;; set_cache empty_cache.

(** line 144: after [await this.ensureContext(true)] the arrow function ends *)
Definition iife_after_ensure (o : Outcome) : M Next :=
  match o with
  | Rejected e => ret (Return (Rejected e))
  | Fulfilled _ => ret (Return (Fulfilled VUndef))
  end.

(** The arrow function of lines 142-145, run by thread [p] to its first [await] *)
Definition iife (p : tid) : M Next :=
  _invalidateContext ;;
  n <- call_ensureContext p true ;;
  match n with
  | Return o => iife_after_ensure o
  | Await s ks => ret (Await s (ks ++ [K_iife]))
  end.

(** [_reloginLocked()] up to its [await]: join the re-login in flight
    (line 140), or start one and record it (lines 142-148). *)
Definition call_reloginLocked : M Pending :=
  s <- this_svc ;;
  match _reloginPromise s with
  | Some p => ret (S_reloginJoin p, [])
  | None =>
      p <- spawn iife ;;
      set_reloginPromise (Some p) ;;
      ret (S_reloginOwn p, [])
  end.

(** The [try]/[catch] of lines 183-188 and 210-215 *)
Definition kamereon_after_first (m : Method) (url : Url) (payload : Val)
    (o : Outcome) : M Next :=
  match o with
  | Fulfilled v => ret (Return (Fulfilled v))
  | Rejected e =>
      if negb (_is401 (Some e)) then ret (Return (Rejected e))
      else
        p <- call_reloginLocked ;;
        ret (awaiting p (K_kamereon_relogin m url payload))
  end.

(** lines 188-189 / 215-216 *)
Definition kamereon_after_relogin (me : tid) (m : Method) (url : Url) (payload : Val)
    (o : Outcome) : M Next :=
  match o with
  | Rejected e => ret (Return (Rejected e))
  | Fulfilled _ =>
      n <- call_ensureContext me false ;;
      match n with
      | Return o' => kamereon_after_ensure me m url payload o'
      | Await s ks => ret (Await s (ks ++ [K_kamereon_ensure m url payload]))
      end
  end.

(** ** Summary, lines 377-426 *)

Definition car_path (accountId vin : Val) (leaf : string) : string :=
  "/commerce/v1/accounts/" +:+ to_string accountId +:+
  "/kamereon/kca/car-adapter/v1/cars/" +:+ to_string vin +:+ leaf.

(** [x.status === 'rejected' ? x.reason : null] *)
Definition reason (o : Outcome) : option Err :=
  match o with Rejected e => Some e | Fulfilled _ => None end.

(** [x.status === 'fulfilled' ? parse(x.value) : { error: String(err?.message || err) }] *)
Definition field_of (parse : Val → Val) (o : Outcome) : Val :=
  match o with
  | Fulfilled v => parse v
  | Rejected e => VObj [("error", VStr (err_text e))]
  end.

Definition has401 (battery cockpit hvac location : Outcome) : bool :=
  _is401 (reason battery) || _is401 (reason cockpit) ||
  _is401 (reason hvac) || _is401 (reason location).

(** lines 406-417 *)
Definition summary_data (meta vin : Val) (battery cockpit hvac location : Outcome) : Val :=
  VObj [
    ("vehicle", VObj [("vin", vin);
                      ("model", js_or (opt meta "model") VNull);
                      ("brand", js_or (opt meta "brand") VNull);
                      ("pictureUrl", js_or (opt meta "pictureUrl") VNull)]);
    ("battery", field_of parseBattery battery);
    ("cockpit", field_of parseCockpit cockpit);
    ("hvac", field_of parseHvac hvac);
    ("location", field_of parseLocation location)
  ].

(** lines 395-425: after the four reads have settled *)
Definition summary_after_all (now : Z) (vin : Val)
    (battery cockpit hvac location : Outcome) : M Outcome :=
  s <- this_svc ;;
  let data := summary_data (vehicleMeta s) vin battery cockpit hvac location in
  (if negb (has401 battery cockpit hvac location)
   then set_cache (mkCache now data)
   else set_cache empty_cache) ;;
  ret (Fulfilled data).

(** A read of the fan-out: [this.kamereonGet(path, idToken)], not awaited *)
Definition read (pathOrUrl : string) (idToken : Val) (p : tid) : M Next :=
  q <- call_kamereon p GET pathOrUrl idToken VUndef ;;
  ret (Await q.1 q.2).

(** lines 381-393 *)
Definition summary_after_ensure (now : Z) (o : Outcome) : M Next :=
  match o with
  | Rejected e => ret (Return (Rejected e))
  | Fulfilled c =>
      let idToken := get c "idToken" in
      let accountId := get c "accountId" in
      let vin := get c "vin" in
      battery <- spawn (read (KamereonApi_READ_BATTERY_STATUS_URL accountId vin) idToken) ;;
      cockpit <- spawn (read (car_path accountId vin "/cockpit") idToken) ;;
      hvac <- spawn (read (car_path accountId vin "/hvac-status") idToken) ;;
      location <- spawn (read (car_path accountId vin "/location") idToken) ;;
      ret (Await (S_allSettled now vin battery cockpit hvac location) [])
  end.

(** [getSummary()] up to its first [await], lines 377-381 *)
Definition call_getSummary (me : tid) (now : Z) : M Next :=
  s <- this_svc ;;
  if truthy (data (cache s)) && (now - at_ (cache s) <? TTL_MS)%Z
  then ret (Return (Fulfilled (data (cache s))))
  else
    n <- call_ensureContext me false ;;
    match n with
    | Return o => summary_after_ensure now o
    | Await s ks => ret (Await s (ks ++ [K_summary_ensure now]))
    end.

(** ** Actions, lines 430-446 *)

Definition start_payload (temperature : Val) : Val :=
  VObj [("data", VObj [("type", VStr "HvacStart");
                       ("attributes", VObj [("action", VStr "start");
                                            ("targetTemperature", temperature)])])].

Definition stop_payload : Val :=
  VObj [("data", VObj [("type", VStr "HvacStart");
                       ("attributes", VObj [("action", VStr "cancel")])])].

(** lines 434-436 / 443-445 *)
Definition hvac_after_post (o : Outcome) : M Next :=
  match o with
  | Rejected e => ret (Return (Rejected e))
  | Fulfilled out => set_cache empty_cache ;; ret (Return (Fulfilled out))
  end.

(** lines 431-434 / 440-443 *)
Definition hvac_after_ensure (me : tid) (payload : Val) (o : Outcome) : M Next :=
  match o with
  | Rejected e => ret (Return (Rejected e))
  | Fulfilled c =>
      p <- call_kamereon me POST
             (car_path (get c "accountId") (get c "vin") "/actions/hvac-start")
             (get c "idToken") payload ;;
      ret (awaiting p K_hvac_post)
  end.

(** [startHvac] and [stopHvac] up to their first [await] *)
Definition call_hvac (me : tid) (payload : Val) : M Next :=
  n <- call_ensureContext me false ;;
  match n with
  | Return o => hvac_after_ensure me payload o
  | Await s ks => ret (Await s (ks ++ [K_hvac_ensure payload]))
  end.

(** ** The scheduler

    A step of a thread runs from the settling of what it awaits to its next
    suspension on something outside the thread.  The continuations of the
    awaits in between (a callee that returned without suspending, a caller
    receiving the outcome of its callee) are microtasks queued within the
    same turn of the event loop: no network answer is processed between
    them, so they are run as part of the step. *)

(** The frame [k] of thread [me] receives the outcome of the call it awaited. *)
Definition resume_kont (me : tid) (k : Kont) (o : Outcome) : M Next :=
  match k with
  | K_ensure_login => ensure_after_login me o
  | K_ensure_account c => ensure_after_account me c o
  | K_ensure_jwt c p => ensure_after_jwt me c p o
  | K_ensure_person c p t => ensure_after_person me c p t o
  | K_ensure_vehicles c p t a => ensure_after_vehicles c p t a o
  | K_kamereon_first m url payload => kamereon_after_first m url payload o
  | K_kamereon_relogin m url payload => kamereon_after_relogin me m url payload o
  | K_kamereon_ensure m url payload => kamereon_after_ensure me m url payload o
  | K_kamereon_retry => kamereon_after_retry o
  | K_iife => iife_after_ensure o
  | K_summary_ensure now => summary_after_ensure now o
  | K_hvac_ensure payload => hvac_after_ensure me payload o
  | K_hvac_post => hvac_after_post o
  end.

(** An outcome travels down the stack until a frame suspends again. *)
Fixpoint unwind (me : tid) (o : Outcome) (ks : list Kont) : M Next :=
  match ks with
  | [] => ret (Return o)
  | k :: ks' =>
      n <- resume_kont me k o ;;
      match n with
      | Return o' => unwind me o' ks'
      | Await s pushed => ret (Await s (pushed ++ ks'))
      end
  end.

Definition call_api (me : tid) (api : Api) : M Next :=
  match api with
  | ApiGetSummary now => call_getSummary me now
  | ApiStartHvac temperature => call_hvac me (start_payload temperature)
  | ApiStopHvac => call_hvac me stop_payload
  | ApiEnsureContext force => call_ensureContext me force
  | ApiKamereonGet pathOrUrl idToken =>
      p <- call_kamereon me GET pathOrUrl idToken VUndef ;; ret (Await p.1 p.2)
  | ApiKamereonPost pathOrUrl idToken payload =>
      p <- call_kamereon me POST pathOrUrl idToken payload ;; ret (Await p.1 p.2)
  end.

(** What the innermost call makes of the network's answer. *)
Definition leaf_result (s : Susp) (r : NetResult) : option Outcome :=
  match s with
  | S_gigyaLogin => Some (gigyaLogin_result r)
  | S_gigyaGetAccountInfo => Some (gigyaGetAccountInfo_result r)
  | S_gigyaGetJwt => Some (gigyaGetJwt_result r)
  | S_doFetch m => Some (doFetch_result m r)
  | _ => None
  end.

(** The outcome of a settled promise. *)
Definition outcome_of (m : Machine) (p : tid) : option Outcome :=
  match threads m !! p with
  | Some (Done o) => Some o
  | _ => None
  end.

Definition set_thread (t : tid) (st : TState) (m : Machine) : Machine :=
  mkMachine (config m) (svc m) (net m) (<[t := st]> (threads m)).

(** Thread [t] runs [c] and is left in the state [c] comes to. *)
Definition advance (t : tid) (c : M Next) (m : Machine) : Machine :=
  let (n, m') := c m in set_thread t (state_of n) m'.

Inductive Event : Type :=
| Call (api : Api)                  (* a client calls a method *)
| Respond (t : tid) (r : NetResult) (* the network answers the request of [t] *)
| Wake (t : tid).                   (* [t] resumes: what it awaits has settled *)

(** One step of the event loop; [None] when the event cannot happen. *)
Definition step (ev : Event) (m : Machine) : option Machine :=
  match ev with
  | Call api =>
      Some (mkMachine (config m) (svc m) (net m) (threads m ++ [Running (S_call api) []]))
  | Respond t r =>
      match threads m !! t with
      | Some (Running s ks) =>
          match leaf_result s r with
          | Some o => Some (advance t (unwind t o ks) m)
          | None => None
          end
      | _ => None
      end
  | Wake t =>
      match threads m !! t with
      | Some (Running (S_call api) ks) =>
          Some (advance t (n <- call_api t api ;;
                           match n with
                           | Return o => unwind t o ks
                           | Await s pushed => ret (Await s (pushed ++ ks))
                           end) m)
      | Some (Running (S_reloginJoin p) ks) =>
          match outcome_of m p with
          | Some o => Some (advance t (unwind t o ks) m)
          | None => None
          end
      | Some (Running (S_reloginOwn p) ks) =>
          match outcome_of m p with
          | Some o => Some (advance t (set_reloginPromise None ;; unwind t o ks) m)
          | None => None
          end
      | Some (Running (S_allSettled now vin b c h l) ks) =>
          match outcome_of m b, outcome_of m c, outcome_of m h, outcome_of m l with
          | Some ob, Some oc, Some oh, Some ol =>
              Some (advance t (o <- summary_after_all now vin ob oc oh ol ;;
                               unwind t o ks) m)
          | _, _, _, _ => None
          end
      | _ => None
      end
  end.

Fixpoint run (evs : list Event) (m : Machine) : option Machine :=
  match evs with
  | [] => Some m
  | ev :: evs' =>
      match step ev m with
      | Some m' => run evs' m'
      | None => None
      end
  end.

(** ** Construction, lines 34-50 *)

Definition initial_svc : Svc := mkSvc VNull VNull empty_cache None.

(** [new RenaultService({...})]; [env_origin] is
    [process.env.RENAULT_KAMEREON_ORIGIN]. *)
Definition RenaultService (email password country locale vin kamereonOrigin env_origin : Val)
    : Err + Machine :=
  if negb (truthy email) || negb (truthy password)
  then inl (Error "Missing RENAULT_EMAIL or RENAULT_PASSWORD in .env")
  else inr (mkMachine
              (mkConfig email password
                 (js_or country (VStr "AT")) (js_or locale (VStr "de_AT")) vin
                 (to_string (js_or kamereonOrigin
                               (js_or env_origin (VStr DEFAULT_KAMEREON_ORIGIN)))))
              initial_svc [] []).

End Service.

(** ** Scenarios

    A host and a client for the concrete runs below.  The runs convert
    strings only; the host prints NaN as such and has no other number to
    print. *)

Definition scenario_host : JsHost := {|
  number_to_string := λ x, if PrimFloat.is_nan x then "NaN" else "0";
  number_to_string_chars := λ x,
    match PrimFloat.is_nan x as b
      return str_all numeric_char (if b then "NaN" else "0") = true
    with true => eq_refl | false => eq_refl end;
  string_to_number := λ _, PrimFloat.nan;
  KamereonApi_READ_BATTERY_STATUS_URL := λ accountId vin,
    "https://api-wired-prod-1-euw1.wrd-aws.com/commerce/v1/accounts/" +:+
    match accountId with VStr s => s | _ => "" end +:+
    "/kamereon/kca/car-adapter/v2/cars/" +:+
    match vin with VStr s => s | _ => "" end +:+ "/battery-status"
|}.

(** The attributes of a battery response, in the envelope the parser reads *)
Definition under_attributes (a : Val) : Val :=
  VObj [("data", VObj [("attributes", a)])].
Definition under_data (a : Val) : Val := VObj [("data", a)].

Definition isCharging `{JsHost} (r : Val) : Val := get (parseBattery r) "isCharging".

(** What the parser says of one kind of envelope *)
Definition charging_normalized `{JsHost} (envelope : Val → Val) : Prop :=
  isCharging (envelope (VObj [("chargingInstantaneousPower", VNum 2.1)])) = VBool true ∧
  isCharging (envelope (VObj [("chargingStatus", VNum 0.3)])) = VBool false ∧
  (∀ x, isCharging (envelope (VObj [("chargingStatus", VNum x)]))
        = VBool (isFinite x && PrimFloat.leb 0.9 x)) ∧
  isCharging (envelope (VObj [("chargingStatus", VStr "IN_PROGRESS")])) = VBool true ∧
  (∀ t, isCharging (envelope (VObj [("chargingRemainingTime", t)])) = VBool false).

(** A client as the server builds it, with the preferred VIN given *)
Definition client (vin : Val) : Machine :=
  mkMachine
    (mkConfig (VStr "driver@example.org") (VStr "secret") (VStr "AT") (VStr "de_AT") vin
       DEFAULT_KAMEREON_ORIGIN)
    initial_svc [] [].

(** The client of the runs: no VIN is preferred. *)
Definition driver : Machine := client VUndef.

Definition respond_json (v : Val) : NetResult := NetOk (mkResponse 200 "{}" (inr v)).
Definition respond_status (code : Z) : NetResult := NetOk (mkResponse code "" (inl "")).

(** The five answers that let thread [t] resolve a context with [token] *)
Definition answers_login (t : tid) (token : string) : list Event :=
  [Respond t (respond_json (VObj [("sessionInfo", VObj [("cookieValue", VStr "COOKIE")])]));
   Respond t (respond_json (VObj [("data", VObj [("personId", VStr "PERSON")])]));
   Respond t (respond_json (VObj [("id_token", VStr token)]));
   Respond t (respond_json
                (VObj [("accounts",
                        VArr [VObj [("accountType", VStr "MYRENAULT");
                                    ("accountId", VStr "ACCOUNT")]])]));
   Respond t (respond_json
                (VObj [("vehicleLinks",
                        VArr [VObj [("vin", VStr "VIN1");
                                    ("vehicleDetails", VObj [("modelName", VStr "R5")])]])]))].

Definition battery_answer : NetResult :=
  respond_json (under_attributes (VObj [("batteryLevel", VNum 80);
                                        ("chargingStatus", VNum 1)])).

(** A first [getSummary] at time 1000 on a fresh client, up to the moment
    the four reads have settled: the cockpit read fails with status 500. *)
Definition cold_summary : list Event :=
  [Call (ApiGetSummary 1000); Wake 0] ++ answers_login 0 "TOKEN1" ++
  [Respond 1 battery_answer; Respond 2 (respond_status 500);
   Respond 3 (respond_json (VObj [])); Respond 4 (respond_json (VObj []))].

(** The login answer for a credential that is not accepted *)
Definition login_refused : NetResult :=
  respond_json (VObj [("errorMessage", VStr "invalid loginID or password")]).

Definition login_error : Err :=
  Error "Gigya login failed : invalid loginID or password".

(** A read with a stale token; the re-login it triggers is refused. *)
Definition stale_read : list Event :=
  [Call (ApiKamereonGet "/commerce/v1/persons/PERSON" (VStr "STALE")); Wake 0;
   Respond 0 (respond_status 401)].

(** The same read, but the re-login obtains a token and its own lookup of
    the person is refused with 401. *)
Definition stale_read_relogin_refused_lookup : list Event :=
  stale_read ++
  [Respond 1 (respond_json (VObj [("sessionInfo", VObj [("cookieValue", VStr "COOKIE")])]));
   Respond 1 (respond_json (VObj [("data", VObj [("personId", VStr "PERSON")])]));
   Respond 1 (respond_json (VObj [("id_token", VStr "TOKEN2")]));
   Respond 1 (respond_status 401)].

(** The first [getSummary] completes and is cached; then [startHvac] is
    called (thread 5) and its POST is answered with status 500. *)
Definition summary_cached : list Event := cold_summary ++ [Wake 0].
Definition hvac_called : list Event :=
  summary_cached ++ [Call (ApiStartHvac (VNum 21)); Wake 5].
Definition hvac_refused : list Event := hvac_called ++ [Respond 5 (respond_status 500)].


(** The context is resolved with TOKEN1; then [stopHvac] is called (thread
    1), its first POST is refused with 401, the re-login (thread 2) obtains
    TOKEN2 and the retry is accepted. *)
Definition context_resolved : list Event :=
  [Call (ApiEnsureContext false); Wake 0] ++ answers_login 0 "TOKEN1".
Definition stop_called : list Event := context_resolved ++ [Call ApiStopHvac; Wake 1].
Definition stop_refused : list Event := stop_called ++ [Respond 1 (respond_status 401)].

Definition two_vehicles : Val :=
  VObj [("vehicleLinks",
         VArr [VObj [("vin", VStr "VIN1")];
               VObj [("vin", VStr "VIN2");
                     ("vehicleDetails", VObj [("modelName", VStr "R5")])]])].

(** *** What a fan-out leaves in the machine *)

Section Observations.
Context `{JsHost}.






(** The request of [gigyaLogin] *)
Definition login_request (cfg : Config) : Request :=
  mkRequest POST (UrlGigya None) None None
    (FormBody [("loginID", to_string (email cfg)); ("password", to_string (password cfg))]).

End Observations.

(** The machine after thread [t] has sent [rq] *)
Definition sent (t : tid) (rq : Request) (m : Machine) : Machine :=
  mkMachine (config m) (svc m) (net m ++ [(t, rq)]) (threads m).

(** The machine after a re-login has been started (lines 142-146): the
    context, the metadata and the cache are invalidated, a new thread runs
    the arrow function up to the login request, and the marker names it. *)
Definition started `{JsHost} (m : Machine) : Machine :=
  let p := length (threads m) in
  mkMachine (config m)
    (mkSvc VNull VNull empty_cache (Some p))
    (net m ++ [(p, login_request (config m))])
    (threads m ++ [Running S_gigyaLogin [K_ensure_login; K_iife]]).

(** Inside [_reloginLocked]: awaiting the re-login [p], as the thread that
    started it or as one that joined it *)
Definition awaits_relogin (s : Susp) (p : tid) : Prop :=
  s = S_reloginOwn p ∨ s = S_reloginJoin p.


(** The state a run of events leaves, the machine itself when the run is
    impossible *)
Definition after `{JsHost} (evs : list Event) (m : Machine) : Machine :=
  default m (run evs m).


(** *** Shapes of threads *)

Definition is_first (k : Kont) : bool :=
  match k with K_kamereon_first _ _ _ => true | _ => false end.

Definition is_iife (k : Kont) : bool :=
  match k with K_iife => true | _ => false end.

(** A suspension on the network or on the reads of a fan-out *)
Definition calm (s : Susp) : bool :=
  match s with
  | S_gigyaLogin | S_gigyaGetAccountInfo | S_gigyaGetJwt | S_doFetch _
  | S_allSettled _ _ _ _ _ _ => true
  | _ => false
  end.

Definition is_doFetch (s : Susp) : bool :=
  match s with S_doFetch _ => true | _ => false end.

Definition is_call (s : Susp) : bool :=
  match s with S_call _ => true | _ => false end.

(** The frame of the first attempt lies directly under its [doFetch] and
    nowhere else, and a call not yet entered has no frames. *)
Definition stack_ok (s : Susp) (ks : list Kont) : Prop :=
  match ks with
  | [] => True
  | k :: ks' =>
      is_call s = false ∧
      (is_first k = true → is_doFetch s = true) ∧
      Forall (λ k', is_first k' = false) ks'
  end.

(** The thread of a read that awaits its first answer *)
Definition is_read (st : TState) : Prop :=
  match st with
  | Running (S_doFetch _) [K_kamereon_first _ _ _] => True
  | _ => False
  end.

(** The thread runs the arrow function of a re-login that has not finished. *)
Definition live_relogin (st : TState) : Prop :=
  match st with
  | Running _ ks => last ks = Some K_iife
  | Done _ => False
  end.

(** The thread is inside [_reloginLocked], having started the re-login [p]. *)
Definition owns_relogin (st : TState) (p : tid) : Prop :=
  match st with
  | Running (S_reloginOwn q) _ => q = p
  | _ => False
  end.

(** [m'] differs from [m] by changes of context, metadata and cache, by
    requests sent, and by reads started: the re-login marker is as it was. *)
Definition quiet (m m' : Machine) : Prop :=
  config m' = config m ∧
  _reloginPromise (svc m') = _reloginPromise (svc m) ∧
  ∃ new, threads m' = threads m ++ new ∧ Forall is_read new.

(** What a frame other than that of a first attempt may come to *)
Definition next_ok (n : Next) : Prop :=
  match n with
  | Return _ => True
  | Await s pushed =>
      calm s = true ∧ stack_ok s pushed ∧ Forall (λ k, is_iife k = false) pushed
  end.

(** The three ways the [catch] of a first attempt may go *)
Inductive FirstEffect (m : Machine) (k : Kont) (n : Next) (m' : Machine) : Prop :=
| fe_return o : n = Return o → m' = m → FirstEffect m k n m'
| fe_join p mth url payload :
    k = K_kamereon_first mth url payload →
    _reloginPromise (svc m) = Some p →
    n = Await (S_reloginJoin p) [K_kamereon_relogin mth url payload] →
    m' = m →
    FirstEffect m k n m'
| fe_start mth url payload :
    k = K_kamereon_first mth url payload →
    _reloginPromise (svc m) = None →
    n = Await (S_reloginOwn (length (threads m))) [K_kamereon_relogin mth url payload] →
    config m' = config m →
    threads m' = threads m ++ [Running S_gigyaLogin [K_ensure_login; K_iife]] →
    _reloginPromise (svc m') = Some (length (threads m)) →
    FirstEffect m k n m'.

(** What is left of a stack [ks] after an outcome has travelled down it:
    frames pushed by the frame that suspended, above a proper rest of [ks] *)
Definition unwound_ok (ks : list Kont) (n : Next) : Prop :=
  match n with
  | Return _ => True
  | Await s ks' =>
      ∃ pushed popped rest,
        ks' = pushed ++ rest ∧ ks = popped ++ rest ∧ popped ≠ [] ∧
        next_ok (Await s pushed)
  end.

(** The single-flight invariant of the re-login *)
Record Inv (m : Machine) : Prop := mkInv {
  inv_stack : ∀ t s ks, threads m !! t = Some (Running s ks) → stack_ok s ks;
  inv_own : ∀ t st p,
    threads m !! t = Some st → owns_relogin st p → _reloginPromise (svc m) = Some p;
  inv_own_unique : ∀ t t' st st' p p',
    threads m !! t = Some st → threads m !! t' = Some st' →
    owns_relogin st p → owns_relogin st' p' → t = t';
  inv_live : ∀ t st,
    threads m !! t = Some st → live_relogin st → _reloginPromise (svc m) = Some t;
  inv_owner : ∀ p,
    _reloginPromise (svc m) = Some p →
    ∃ t st, threads m !! t = Some st ∧ owns_relogin st p
}.

(** The machine with the re-login marker cleared (line 150) *)
Definition cleared (m : Machine) : Machine :=
  mkMachine (config m)
    (mkSvc (ctx (svc m)) (vehicleMeta (svc m)) (cache (svc m)) None)
    (net m) (threads m).


(** What the new state of a thread that does not start a re-login must
    satisfy, its stack having been [ks] *)
Definition settles_in (ks : list Kont) (n : Next) : Prop :=
  match n with
  | Return _ => True
  | Await s' ks' =>
      (∀ p, s' ≠ S_reloginOwn p) ∧ stack_ok s' ks' ∧
      (last ks' = Some K_iife → last ks = Some K_iife)
  end.

(** The payload a control action sends *)
Definition hvac_payload (api : Api) : option Val :=
  match api with
  | ApiStartHvac temperature => Some (start_payload temperature)
  | ApiStopHvac => Some stop_payload
  | _ => None
  end.

(** The thread runs [startHvac] or [stopHvac]. *)
Definition is_hvac (st : TState) : Prop :=
  match st with
  | Running (S_call api) ks => ks = [] ∧ is_Some (hvac_payload api)
  | Running _ ks => last ks = Some K_hvac_post ∨ ∃ payload, last ks = Some (K_hvac_ensure payload)
  | Done _ => False
  end.

(** The address of the control actions for the context [c], lines 432, 441 *)
Definition hvac_url `{JsHost} (cfg : Config) (c : Val) : Url :=
  resolve_url (car_path (get c "accountId") (get c "vin") "/actions/hvac-start")
    (kamereonOrigin cfg).


(** The thread that stepped, if the event is a step of a thread *)
Definition stepper (ev : Event) : option tid :=
  match ev with
  | Call _ => None
  | Respond t _ | Wake t => Some t
  end.

(** A client on which no method has been called yet *)
Definition fresh (m : Machine) : Prop :=
  threads m = [] ∧ _reloginPromise (svc m) = None.

(** The re-logins in flight: the threads that run the arrow function *)
Definition relogins_in_flight (m : Machine) : list tid :=
  List.filter
    (λ t, match threads m !! t with
          | Some (Running _ ks) =>
              match last ks with Some K_iife => true | _ => false end
          | _ => false
          end)
    (seq 0 (length (threads m))).

Definition lower_numeric_char (c : ascii) : bool :=
  includes "0123456789.e+-nainfity" (String c EmptyString).

(** *** The frames at the bottom of a thread *)

(** The frame of a method a client calls, and that of the arrow function of
    the re-login: no caller waits below them. *)
Definition is_base (k : Kont) : bool :=
  match k with
  | K_iife | K_summary_ensure _ | K_hvac_ensure _ | K_hvac_post => true
  | _ => false
  end.

(** The await of [Promise.allSettled], line 388 *)
Definition is_allSettled (s : Susp) : bool :=
  match s with S_allSettled _ _ _ _ _ _ => true | _ => false end.

(** Such a frame lies at the bottom of the stack and nowhere else. *)
Definition based (ks : list Kont) : Prop :=
  Forall (λ k, is_base k = false) (removelast ks).

(** [getSummary] awaits its four reads, and a call not yet entered waits,
    with no frame at all. *)
Definition thread_based (st : TState) : Prop :=
  match st with
  | Running s ks => based ks ∧ (is_allSettled s || is_call s = true → ks = [])
  | Done _ => True
  end.

(** Every thread of the machine has its frames in that order. *)
Definition Based (m : Machine) : Prop := Forall thread_based (threads m).

(** The threads started between [m] and [m'] have them so as well. *)
Definition grows_based (m m' : Machine) : Prop :=
  ∃ new, threads m' = threads m ++ new ∧ Forall thread_based new.

(** What a call or a resumed frame may come to *)
Definition next_based (n : Next) : Prop :=
  match n with
  | Return _ => True
  | Await s ks => based ks ∧ (is_allSettled s || is_call s = true → ks = [])
  end.

(** *** Further runs *)

(** The re-login awaits itself (see [stale_read_relogin_refused_lookup]);
    then a second read (thread 2) is refused with 401 and joins it. *)
Definition second_read_joins : list Event :=
  stale_read_relogin_refused_lookup ++
  [Call (ApiKamereonGet "/commerce/v1/persons/PERSON" (VStr "STALE")); Wake 2;
   Respond 2 (respond_status 401)].

(** The frame in which a read of the person awaits the re-login *)
Definition read_awaits_relogin : list Kont :=
  [K_kamereon_relogin GET
     (UrlRelative "/commerce/v1/persons/PERSON" DEFAULT_KAMEREON_ORIGIN) VUndef].

(** [startHvac] (thread 5) is called with a snapshot cached; its POST is
    refused with 401, and the re-login it starts (thread 6) is refused. *)
Definition hvac_relogin_refused : list Event :=
  hvac_called ++ [Respond 5 (respond_status 401); Respond 6 login_refused].



(** ** Further observations *)

(** What [pick] returns when it finds it, line 19 *)
Definition usable (v : Val) : bool := negb (nullish v) && negb (is_str v "").

(** The [HttpError] of a request refused with [status], lines 179, 206 *)
Definition http_failure (mth : Method) (status : Z) (bodyText : string) : Err :=
  HttpError ("Kamereon " +:+ method_name mth +:+ " " +:+ show_Z status) status bodyText.

(** The status codes of three digits *)
Definition statuses : list Z := Z.of_nat <$> seq 100 900.

(** [person?.accounts || person?.data?.attributes?.accounts || []], line 266 *)
Definition accounts_of (person : Val) : Val :=
  js_or (opt person "accounts")
    (js_or (opt (opt (opt person "data") "attributes") "accounts") (VArr [])).

(** [(a.accountType || a?.attributes?.accountType) === 'MYRENAULT'], line 269 *)
Definition is_MYRENAULT (a : Val) : bool :=
  is_str (js_or (get a "accountType") (opt (opt a "attributes") "accountType")) "MYRENAULT".

(** [my.accountId || my?.attributes?.accountId], line 270 *)
Definition accountId_of (my : Val) : Val :=
  js_or (get my "accountId") (opt (opt my "attributes") "accountId").

(** The frames of [ensureContext] *)
Definition is_ensure (k : Kont) : bool :=
  match k with
  | K_ensure_login | K_ensure_account _ | K_ensure_jwt _ _
  | K_ensure_person _ _ _ | K_ensure_vehicles _ _ _ _ => true
  | _ => false
  end.

(** The battery reading of a response that carries nothing *)
Definition no_reading : Val :=
  VObj [("batteryLevel", VNull); ("batteryAutonomyKm", VNull); ("plugStatus", VNull);
        ("chargingStatus", VNull); ("chargingRemainingTimeMin", VNull);
        ("chargingInstantaneousPower", VNull); ("isPlugged", VBool false);
        ("isCharging", VBool false); ("timestamp", VNull)].

(** A value as [JSON.parse] produces it: no undefined, and no number that
    is not finite *)
Fixpoint json_value (v : Val) : bool :=
  match v with
  | VUndef => false
  | VNull | VBool _ | VStr _ => true
  | VNum x => isFinite x
  | VArr xs =>
      (fix all (l : list Val) : bool :=
         match l with
         | [] => true
         | x :: l' => json_value x && all l'
         end) xs
  | VObj fs =>
      (fix all (l : list (string * Val)) : bool :=
         match l with
         | [] => true
         | (_, x) :: l' => json_value x && all l'
         end) fs
  end.

(** Undefined, or a value that [JSON.parse] produces *)
Definition json_or_undefined (v : Val) : Prop := v = VUndef ∨ json_value v = true.

(** *** The context and the tokens in flight *)

(** The frames of [ensureContext] that hold a token or an account id hold
    usable ones. *)
Definition frame_ok (k : Kont) : Prop :=
  match k with
  | K_ensure_person _ _ idToken => truthy idToken = true
  | K_ensure_vehicles _ _ idToken accountId =>
      truthy idToken = true ∧ truthy accountId = true
  | _ => True
  end.

Definition is_jwt (k : Kont) : bool :=
  match k with K_ensure_jwt _ _ => true | _ => false end.

(** The frame that receives the token lies directly under the token
    exchange and nowhere else. *)
Definition tokens_ok (s : Susp) (ks : list Kont) : Prop :=
  Forall frame_ok ks ∧
  match ks with
  | [] => True
  | k :: ks' =>
      (is_jwt k = true → s = S_gigyaGetJwt) ∧ Forall (λ k', is_jwt k' = false) ks'
  end.

Definition thread_tokens_ok (st : TState) : Prop :=
  match st with
  | Running s ks => tokens_ok s ks
  | Done _ => True
  end.

(** The object holds no context and no metadata, or a complete context and
    the metadata of its vehicle. *)
Definition ctx_ok (s : Svc) : Prop :=
  (ctx s = VNull ∧ vehicleMeta s = VNull) ∨
  (ctx_complete s = true ∧ get (vehicleMeta s) "vin" = get (ctx s) "vin").

Record CtxInv (m : Machine) : Prop := mkCtxInv {
  ci_ctx : ctx_ok (svc m);
  ci_threads : Forall thread_tokens_ok (threads m)
}.

(** What an outcome must be for the frames [ks] to receive it *)
Definition token_outcome (o : Outcome) (ks : list Kont) : Prop :=
  match ks with
  | [] => True
  | k :: ks' =>
      (is_jwt k = true → ∀ v, o = Fulfilled v → truthy v = true) ∧
      Forall (λ k', is_jwt k' = false) ks'
  end.

Definition grows_ok (m m' : Machine) : Prop :=
  ∃ new, threads m' = threads m ++ new ∧ Forall thread_tokens_ok new.

Definition next_tokens_ok (n : Next) : Prop :=
  match n with
  | Return _ => True
  | Await s pushed => tokens_ok s pushed
  end.

(** * The web server of renault5/server.js *)

(** ** Text

    A string is a sequence of UTF-16 code units, of which the model has those
    below 256. *)

(** WhiteSpace and LineTerminator, as [String.prototype.trim] removes them:
    TAB, LF, VT, FF, CR, SP and NBSP. *)
Definition is_space (c : ascii) : bool :=
  let n := nat_of_ascii c in
  ((9 <=? n) && (n <=? 13)) || (n =? 32) || (n =? 160).

Fixpoint trimStart (s : string) : string :=
  match s with
  | EmptyString => EmptyString
  | String c s' => if is_space c then trimStart s' else s
  end.

Fixpoint trimEnd (s : string) : string :=
  match s with
  | EmptyString => EmptyString
  | String c s' =>
      let r := trimEnd s' in
      if is_space c && is_empty r then EmptyString else String c r
  end.

(** [s.trim()] *)
Definition trim (s : string) : string := trimEnd (trimStart s).

Definition LF : ascii := ascii_of_nat 10.
Definition CR : ascii := ascii_of_nat 13.

(** [txt.split(/\r?\n/)] *)
Fixpoint split_lines (txt : string) : list string :=
  match txt with
  | EmptyString => [EmptyString]
  | String c txt' =>
      let rest := split_lines txt' in
      if Ascii.eqb c LF then EmptyString :: rest
      else if Ascii.eqb c CR && String.prefix (String LF EmptyString) txt' then rest
      else match rest with
           | [] => [String c EmptyString]
           | l :: ls => String c l :: ls
           end
  end.

(** [s.indexOf(c)] for a one-character [c] *)
Fixpoint indexOf (s : string) (c : ascii) : option nat :=
  match s with
  | EmptyString => None
  | String d s' => if Ascii.eqb d c then Some 0 else S <$> indexOf s' c
  end.

(** [s.slice(0, n)] and [s.slice(n)] for [0 <= n] *)
Fixpoint slice_to (n : nat) (s : string) : string :=
  match n, s with
  | S n', String c s' => String c (slice_to n' s')
  | _, _ => EmptyString
  end.

Fixpoint slice_from (n : nat) (s : string) : string :=
  match n, s with
  | S n', String _ s' => slice_from n' s'
  | _, _ => s
  end.

Fixpoint last_char (s : string) : option ascii :=
  match s with
  | EmptyString => None
  | String c EmptyString => Some c
  | String _ s' => last_char s'
  end.

Definition first_char (s : string) : option ascii :=
  match s with
  | EmptyString => None
  | String c _ => Some c
  end.

(** [v.startsWith(q) && v.endsWith(q)] for a one-character [q] *)
Definition enclosed_in (q : ascii) (v : string) : bool :=
  bool_decide (first_char v = Some q) && bool_decide (last_char v = Some q).

(** [v.slice(1, -1)] *)
Definition slice_1_m1 (v : string) : string :=
  slice_to (String.length v - 2) (slice_from 1 v).

Definition double_quote : ascii := ascii_of_nat 34.
Definition single_quote : ascii := ascii_of_nat 39.

(** ** Configuration, lines 56-152 *)

(** The body of the loop of [parseDotEnv], lines 60-72.  The object [out] is
    an ordinary one: the assignment [out[k] = v] of a string to the key
    __proto__ reaches the setter of Object.prototype, which ignores it. *)
Definition env_line (out : list (string * Val)) (line : string) : list (string * Val) :=
  let s := trim line in
  if is_empty s || startsWith s "#" then out
  else
    match indexOf s "=" with
    | None => out
    | Some eq =>
        let k := trim (slice_to eq s) in
        let v := trim (slice_from (S eq) s) in
        let v := if enclosed_in double_quote v || enclosed_in single_quote v
                 then slice_1_m1 v else v in
        if String.eqb k "__proto__" then out else assign_field k (VStr v) out
    end.

(** [parseDotEnv(filePath)]; [None] is a file that cannot be read. *)
Definition parseDotEnv (file : option string) : Val :=
  match file with
  | None => VNull
  | Some txt => VObj (fold_left env_line (split_lines txt) [])
  end.

(** [readJsonIfExists(filePath)], lines 79-86: the content of the file as
    [JSON.parse] reads it, [None] for a file that cannot be read or parsed *)
Definition readJsonIfExists (file : option Val) : Val := from_option id VNull file.

Section Server.
Context `{JsHost}.



(** The own enumerable properties that [{...v}] copies *)
Definition spread (v : Val) : list (string * Val) :=
  match v with
  | VObj fs => fs
  | VArr xs => imap (λ i x, (show_Z (Z.of_nat i), x)) xs
  | VStr s => imap (λ i c, (show_Z (Z.of_nat i), VStr (String c EmptyString)))
                (list_ascii_of_string s)
  | _ => []
  end.

(** The properties of [over] are set on [base] one after the other. *)
Definition merge_fields (base over : list (string * Val)) : list (string * Val) :=
  fold_left (λ acc kv, assign_field kv.1 kv.2 acc) over base.

(** [{...a, ...b, ...c}] *)
Definition object_spread (parts : list Val) : Val :=
  VObj (fold_left (λ acc v, merge_fields acc (spread v)) parts []).

(** The loop of lines 107-111, [jsonCfg] being the value left by the
    candidates read so far *)
Fixpoint first_json (candidates : list (option Val)) (jsonCfg : Val) : Val :=
  match candidates with
  | [] => jsonCfg
  | c :: rest =>
      let j := readJsonIfExists c in
      if truthy j then j else first_json rest j
  end.

(** What the process finds around it: the environment, the three JSON
    candidates (config.json, renault.json, settings.json) and the file .env *)
Record Surroundings : Type := mkSurroundings {
  process_env : Val;
  json_files : list (option Val);
  dot_env : option string
}.



(** line 118: [{ ...dotEnv, ...(jsonCfg || {}), ...env }] *)
Definition merged (w : Surroundings) : Val :=
  let env := js_or (process_env w) (VObj []) in
  let jsonCfg := first_json (json_files w) VNull in
  let dotEnv := js_or (parseDotEnv (dot_env w)) (VObj []) in
  object_spread [dotEnv; js_or jsonCfg (VObj []); env].








(** ** The timer of the air conditioning, lines 14-53

    The file hvac_state.json is given by what [JSON.parse] reads in it,
    [None] when it cannot be read or parsed; writing it succeeds. *)

Record HvacState : Type := mkHvacState { hvacUntilMs : float; hvacTemp : float }.

(** [x || d] for a number [x] *)
Definition or_number (x d : float) : float := if truthy (VNum x) then x else d.

(** What [JSON.parse] reads where [JSON.stringify] has written a number:
    NaN and the infinities are written as null, and -0 as 0. *)
Definition json_number (x : float) : Val :=
  if isFinite x then VNum (if PrimFloat.is_zero x then 0%float else x) else VNull.

Definition state_value (st : HvacState) : Val :=
  VObj [("hvacUntilMs", VNum (hvacUntilMs st)); ("hvacTemp", VNum (hvacTemp st))].

(** [loadState()], lines 17-28 *)
Definition loadState (file : option Val) : HvacState :=
  match file with
  | None => mkHvacState 0 20
  | Some j =>
      mkHvacState (to_number (js_or (opt j "hvacUntilMs") (VNum 0)))
                  (to_number (js_or (opt j "hvacTemp") (VNum 20)))
  end.

(** [saveState(state)], lines 29-31: the file afterwards *)
Definition saveState (st : HvacState) : option Val :=
  Some (VObj [("hvacUntilMs", json_number (hvacUntilMs st));
              ("hvacTemp", json_number (hvacTemp st))]).

(** [getHvacState()], lines 32-41, at the time [now] *)
Definition getHvacState (now : float) (file : option Val) : HvacState * option Val :=
  let s := loadState file in
  if truthy (VNum (hvacUntilMs s)) && PrimFloat.leb (hvacUntilMs s) now then
    let cleared := mkHvacState 0 (or_number (hvacTemp s) 20) in
    (cleared, saveState cleared)
  else (s, file).

(** [setHvacRunning(minutes, temp)], lines 42-47 *)
Definition setHvacRunning (minutes : float) (temp : Val) (now : float)
    : HvacState * option Val :=
  let st := mkHvacState (now + minutes * 60 * 1000)%float (or_number (to_number temp) 20) in
  (st, saveState st).

(** [clearHvacRunning()], lines 48-53 *)
Definition clearHvacRunning (file : option Val) : HvacState * option Val :=
  let st := loadState file in
  let cleared := mkHvacState 0 (or_number (hvacTemp st) 20) in
  (cleared, saveState cleared).

(** ** The routes, lines 189-314 *)

(** [pickMethod(obj, candidates)], lines 190-195; [methods] are the names
    [n] with [typeof obj[n] === "function"]. *)
Definition pickMethod (methods candidates : list string) : option string :=
  List.find (λ name, bool_decide (name ∈ methods)) candidates.


Definition summary_candidates : list string :=
  ["getSummary"; "summary"; "fetchSummary"; "getAll"; "getData"; "getDashboard";
   "getVehicleData"; "getStatus"].


Record Reply : Type := mkReply { rp_status : Z; rp_body : Val; rp_file : option Val }.

(** A route handler: it awaits calls of the service one after the other and
    ends with its reply, which may depend on the clock and on the state file
    at that moment. *)
Inductive Route : Type :=
| Invoke (method : string) (arg : Val) (k : Outcome → Route)
| Finish (reply : float → option Val → Reply).

(** [res.status(500).json({ ok: false, error: e?.message || String(e) })] *)
Definition error_reply (e : Err) : Route :=
  Finish (λ _ file, mkReply 500 (VObj [("ok", VBool false); ("error", VStr (err_text e))]) file).

(** The reply when [pickMethod] finds nothing; [available] is what
    [listMethods] returns. *)
Definition no_method (message : string) (available : Val) : Route :=
  Finish (λ _ file,
    mkReply 500 (VObj [("ok", VBool false); ("error", VStr message);
                       ("availableMethods", available)]) file).

Definition ok_reply (data : Val) (file : option Val) : Reply :=
  mkReply 200 (VObj [("ok", VBool true); ("data", data)]) file.


(** GET /api/summary, lines 211-239; [service] is what [getService()]
    comes to, given by the methods of the instance. *)
Definition summary_route (service : Err + list string) (available : Val) : Route :=
  match service with
  | inl e => error_reply e
  | inr methods =>
      match pickMethod methods summary_candidates with
      | None => no_method "RenaultService: keine Summary-Methode gefunden." available
      | Some fn =>
          Invoke fn VUndef (λ o,
            match o with
            | Fulfilled data => Finish (λ _ file, ok_reply data file)
            | Rejected e => error_reply e
            end)
      end
  end.

(** GET /api/hvac/state, lines 241-243 *)
Definition hvac_state_route : Route :=
  Finish (λ now file, let (st, file') := getHvacState now file in
                      ok_reply (state_value st) file').





(** The sources of the configuration, as line 118 spreads them *)
Definition env_of (w : Surroundings) : Val := js_or (process_env w) (VObj []).
Definition json_of (w : Surroundings) : Val :=
  js_or (first_json (json_files w) VNull) (VObj []).
Definition dotEnv_of (w : Surroundings) : Val :=
  js_or (parseDotEnv (dot_env w)) (VObj []).

(** No white space at either end *)
Definition trimmed (s : string) : bool :=
  match first_char s with Some c => negb (is_space c) | None => true end &&
  match last_char s with Some c => negb (is_space c) | None => true end.

Definition one_line (s : string) : bool := negb (bool_decide (is_Some (indexOf s LF))).

(** A key that a line KEY=VALUE sets as it stands *)
Definition plain_key (k : string) : bool :=
  one_line k && negb (bool_decide (is_Some (indexOf k "="))) && trimmed k &&
  negb (startsWith k "#") && negb (String.eqb k "__proto__").

(** The properties [parseDotEnv] has set for a readable file *)
Definition dotEnv_fields (txt : string) : list (string * Val) :=
  fold_left env_line (split_lines txt) [].

(** A line without its carriage return at the end *)
Fixpoint strip_cr (l : string) : string :=
  match l with
  | EmptyString => EmptyString
  | String c EmptyString => if Ascii.eqb c CR then EmptyString else l
  | String c l' => String c (strip_cr l')
  end.

Fixpoint chop (ls : list string) : list string :=
  match ls with
  | [] => []
  | [l] => [strip_cr l]
  | l :: ls' => l :: chop ls'
  end.

Definition newline : string := String LF EmptyString.

End Server.

(** * The page of renault5/public/app.js

    The page reads the battery block of the summary it is sent. *)

Section Page.
Context `{JsHost}.

(** [isChargingFromBattery(batteryObj)], lines 320-335 *)
Definition isChargingFromBattery (batteryObj : Val) : bool :=
  if negb (truthy batteryObj) || truthy (get batteryObj "error") then false
  else
    match get batteryObj "isCharging" with
    | VBool b => b
    | _ =>
        let stRaw := get batteryObj "chargingStatus" in
        let stNum := to_number stRaw in
        let stStr := toLowerCase (to_string (js_nullish_or stRaw (VStr ""))) in
        let powerRaw := get batteryObj "chargingInstantaneousPower" in
        let pNum := to_number powerRaw in
        let powerPositive := isFinite pNum && PrimFloat.ltb 0%float pNum in
        if powerPositive then true
        else if isFinite stNum then PrimFloat.eqb stNum 1%float
        else includes stStr "charging" || includes stStr "progress" ||
             includes stStr "in_progress"
    end.

(** [isPluggedFromBattery(batteryObj)], lines 337-347 *)
Definition isPluggedFromBattery (batteryObj : Val) : bool :=
  if negb (truthy batteryObj) || truthy (get batteryObj "error") then false
  else
    match get batteryObj "isPlugged" with
    | VBool b => b
    | _ =>
        let psRaw := get batteryObj "plugStatus" in
        let psNum := to_number psRaw in
        let psStr := toLowerCase (to_string (js_nullish_or psRaw (VStr ""))) in
        if isFinite psNum then PrimFloat.eqb psNum 1%float
        else includes psStr "plug" || includes psStr "connect" || String.eqb psStr "true"
    end.

End Page.

(** ** Scenarios of the further properties *)

(** A stale read is refused and the lookup of the re-login is refused too
    (the re-login now awaits itself); then [getSummary] is called. *)
Definition summary_during_stuck_relogin : list Event := [Call (ApiGetSummary 5); Wake 2].

(** The frames of the re-login that awaits itself *)
Definition stuck_frames : list Kont :=
  [K_kamereon_relogin GET
     (UrlRelative "/commerce/v1/persons/PERSON" DEFAULT_KAMEREON_ORIGIN) VUndef;
   K_ensure_person (VStr "COOKIE") (VStr "PERSON") (VStr "TOKEN2");
   K_iife].

Definition person_with_two_accounts : Val :=
  VObj [("accounts",
         VArr [VObj [("accountType", VStr "PARTNER"); ("accountId", VStr "A1")];
               VObj [("accountType", VStr "MYRENAULT"); ("accountId", VStr "A2")]])].

(** The second link of [two_vehicles] *)
Definition second_link : Val :=
  VObj [("vin", VStr "VIN2"); ("vehicleDetails", VObj [("modelName", VStr "R5")])].

(** The same key in the environment, in a JSON file and in the file .env *)
Definition three_sources : Surroundings :=
  mkSurroundings
    (VObj [("RENAULT_EMAIL", VStr "env@example.org")])
    [None; Some (VObj [("RENAULT_EMAIL", VStr "json@example.org"); ("vin", VStr "VIN1")])]
    (Some "RENAULT_EMAIL=dot@example.org").

(** A state file whose timer ended at 1000 *)
Definition timer_until_1000 : option Val :=
  Some (VObj [("hvacUntilMs", VNum 1000); ("hvacTemp", VNum 21)]).

(** * Properties *)

Section Properties.
Context `{JsHost}.

(** ** Strings *)

Lemma prefix_str_all p needle : ∀ hay,
  String.prefix needle hay = true → str_all p hay = true → str_all p needle = true.
Proof.
  induction needle as [|c needle IH]; intros [|d hay]; simpl; try done.
  destruct (ascii_dec c d) as [->|]; [|done].
  intros Hp [Hd Hall]%andb_prop. rewrite Hd. simpl. by eapply IH.
Qed.

Lemma includes_str_all p needle : ∀ hay,
  includes hay needle = true → str_all p hay = true → str_all p needle = true.
Proof.
  induction hay as [|d hay IH]; simpl.
  - rewrite orb_false_r. intros Hp _. by eapply (prefix_str_all p needle EmptyString).
  - intros [Hp|Hi]%orb_prop Hall.
    + by eapply (prefix_str_all p needle (String d hay)).
    + apply andb_prop in Hall as [_ Hall]. by apply IH.
Qed.

Lemma lower_numeric c : numeric_char c = true → lower_numeric_char (lower_ascii c) = true.
Proof.
  destruct c as [[] [] [] [] [] [] [] []]; vm_compute; congruence.
Qed.

Lemma toLowerCase_numeric s :
  str_all numeric_char s = true → str_all lower_numeric_char (toLowerCase s) = true.
Proof.
  induction s as [|c s IH]; simpl; [done|].
  intros [Hc Hs]%andb_prop. by rewrite lower_numeric, IH.
Qed.

(** A printed number contains none of the words that mean charging. *)
Lemma number_never_says_charging x : statusSaysCharging (VNum x) = false.
Proof.
  unfold statusSaysCharging. simpl.
  pose proof (toLowerCase_numeric _ (number_to_string_chars x)) as Hall.
  set (s := toLowerCase (number_to_string x)) in *.
  assert (Hno : ∀ w, str_all lower_numeric_char w = false → includes s w = false).
  { intros w Hw. destruct (includes s w) eqn:Hi; [|done].
    by rewrite (includes_str_all _ _ _ Hi Hall) in Hw. }
  by rewrite !Hno.
Qed.

(** ** Charging state (C7) *)

(** C7: the battery parser's charging-state normalization.  Instantaneous
    power 2.1 means charging; the numeric status 0.3 does not, a numeric
    status counting as charging exactly when it is finite and at least 0.9;
    the status "IN_PROGRESS" means charging; and the remaining time takes no
    part: alone it never means charging, and beside other attributes it
    changes nothing. *)
Theorem parseBattery_charging_normalization :
  charging_normalized under_attributes ∧
  charging_normalized under_data ∧
  (∀ fs t, isCharging (under_attributes (VObj (("chargingRemainingTime", t) :: fs)))
           = isCharging (under_attributes (VObj fs))).
Proof.
  assert (Hnum : ∀ x, isCharging_of (VNum x) VNull = isFinite x && PrimFloat.leb 0.9 x).
  { intros x. unfold isCharging_of. rewrite number_never_says_charging.
    unfold statusNumSaysCharging. simpl. by destruct (isFinite x). }
  split; [|split].
  - repeat split; try reflexivity.
    + unfold isCharging. simpl. f_equal. apply (Hnum 0.3%float).
    + intros x. unfold isCharging. simpl. f_equal. apply Hnum.
  - repeat split; try reflexivity.
    + unfold isCharging. simpl. f_equal. apply (Hnum 0.3%float).
    + intros x. unfold isCharging. simpl. f_equal. apply Hnum.
  - reflexivity.
Qed.

(** ** Vehicle selection (C8) *)

Lemma Array_includes_str vins p : Array_includes vins (VStr p) = true ↔ VStr p ∈ vins.
Proof.
  unfold Array_includes. rewrite existsb_exists, list_elem_of_In. split.
  - intros (v & Hin & Heq). destruct v; simpl in Heq; try done.
    apply String.eqb_eq in Heq. by subst.
  - intros Hin. exists (VStr p). split; [done|]. simpl. apply String.eqb_refl.
Qed.

Lemma select_vehicle_vin pref vehicles links :
  links_of vehicles = VArr links → vins_of links ≠ [] →
  ∃ meta, select_vehicle pref vehicles = inr (select_vin pref (vins_of links), meta).
Proof.
  intros Hlinks Hvins. unfold select_vehicle. rewrite Hlinks.
  destruct (vins_of links) eqn:Ev; [done|]. by eexists.
Qed.

(** C8: when the vehicles response resolves to a list of VINs that is not
    empty, [ensureContext] returns the new context, whose vin is the
    preferred VIN when that is set and the list includes it, and the first
    VIN of the list otherwise. *)
Theorem ensureContext_selects_vehicle :
  ∀ (m : Machine) (gigyaCookie personId idToken accountId vehicles : Val) (links : list Val),
    links_of vehicles = VArr links →
    vins_of links ≠ [] →
    let vins := vins_of links in
    let pref := preferredVin (config m) in
    let r := ensure_after_vehicles gigyaCookie personId idToken accountId
               (Fulfilled vehicles) m in
    r.1 = Return (Fulfilled (ctx (svc r.2))) ∧
    (truthy pref = true → Array_includes vins pref = true →
       get (ctx (svc r.2)) "vin" = pref) ∧
    (truthy pref && Array_includes vins pref = false →
       head vins = Some (get (ctx (svc r.2)) "vin")).
Proof.
  intros m gigyaCookie personId idToken accountId vehicles links Hlinks Hvins vins pref r.
  destruct (select_vehicle_vin pref vehicles links Hlinks Hvins) as [meta Hsel].
  subst r. unfold ensure_after_vehicles, bind, this_config. fold pref. rewrite Hsel.
  cbn [set_vehicleMeta set_ctx bind this_svc set_svc svc ctx ret fst snd get
       lookup_field String.eqb Ascii.eqb Bool.eqb default id from_option].
  fold vins. split; [done|]. unfold select_vin. split.
  - intros Ht Hi. by rewrite Ht, Hi.
  - intros Hno. rewrite Hno. subst vins. by destruct (vins_of links).
Qed.

(** ** The fast path of the context resolver (C9) *)

(** C9: while the object holds a context with a token, an account id and a
    vin, [ensureContext(false)] returns that context at once; the machine is
    left as it was (no request, no change of the object), whether the call
    is made by a client or inside another method. *)
Theorem ensureContext_fast_path :
  ∀ (m : Machine), ctx_complete (svc m) = true →
    (∀ me, call_ensureContext me false m = (Return (Fulfilled (ctx (svc m))), m)) ∧
    (∀ t, threads m !! t = Some (Running (S_call (ApiEnsureContext false)) []) →
       ∃ m', step (Wake t) m = Some m' ∧
             threads m' = <[t := Done (Fulfilled (ctx (svc m)))]> (threads m) ∧
             svc m' = svc m ∧ net m' = net m ∧ config m' = config m).
Proof.
  intros m Hc. split.
  - intros me. unfold call_ensureContext, bind, this_svc. by rewrite Hc.
  - intros t Ht. eexists. split.
    + unfold step. rewrite Ht. reflexivity.
    + unfold advance, bind, call_api, call_ensureContext, bind, this_svc.
      rewrite Hc. simpl. done.
Qed.

(** ** The machine *)

Lemma unwind_app me : ∀ ks1 ks2 o m,
  unwind me o (ks1 ++ ks2) m =
  let (n, m') := unwind me o ks1 m in
  match n with
  | Return o' => unwind me o' ks2 m'
  | Await s pushed => (Await s (pushed ++ ks2), m')
  end.
Proof.
  induction ks1 as [|k ks1 IH]; intros ks2 o m; [done|].
  simpl. unfold bind. destruct (resume_kont me k o m) as [[o'|s pushed] m1].
  - apply IH.
  - unfold ret. by rewrite app_assoc.
Qed.


(** *** Effects of frames *)

Lemma quiet_refl m : quiet m m.
Proof. repeat split. exists []. by rewrite app_nil_r. Qed.

Lemma quiet_trans m1 m2 m3 : quiet m1 m2 → quiet m2 m3 → quiet m1 m3.
Proof.
  intros (Hc1 & Hp1 & new1 & Ht1 & Hn1) (Hc2 & Hp2 & new2 & Ht2 & Hn2).
  split; [congruence|]. split; [congruence|].
  exists (new1 ++ new2). rewrite Ht2, Ht1, app_assoc. split; [done|].
  by apply Forall_app.
Qed.

Ltac unfold_calls :=
  unfold resume_kont, call_api, call_hvac, call_getSummary,
    ensure_after_login, ensure_after_account, ensure_after_jwt, ensure_after_person,
    ensure_after_vehicles, kamereon_after_first, kamereon_after_relogin,
    kamereon_after_ensure, kamereon_after_retry, iife_after_ensure,
    summary_after_ensure, summary_after_all, hvac_after_ensure, hvac_after_post,
    call_reloginLocked, iife, _invalidateContext, call_ensureContext, call_kamereon,
    call_doFetch, call_gigyaLogin, call_gigyaGetAccountInfo, call_gigyaGetJwt, read,
    awaiting, spawn, set_ctx, set_vehicleMeta, set_cache, set_reloginPromise,
    set_svc, this_svc, this_config, fetch, bind, ret in *.

Ltac solve_quiet :=
  split; [reflexivity|]; split; [reflexivity|];
  first
    [ exists []; split; [ cbn [threads]; symmetry; apply app_nil_r | constructor ]
    | eexists [_; _; _; _]; split;
        [ cbn [threads app]; by rewrite <- !app_assoc | by repeat constructor ] ].

Lemma resume_quiet t k o m n m' :
  is_first k = false →
  resume_kont t k o m = (n, m') →
  quiet m m' ∧ next_ok n.
Proof.
  intros Hk Hr. destruct k; try discriminate Hk; destruct o; do 2 unfold_calls;
    cbn [fst snd config svc net threads ctx vehicleMeta cache _reloginPromise state_of] in Hr;
    repeat case_match; simplify_eq;
    (split; [solve_quiet | cbn; repeat split; try done; repeat constructor]).
Qed.

Lemma first_effect t mth url payload o m n m' :
  resume_kont t (K_kamereon_first mth url payload) o m = (n, m') →
  FirstEffect m (K_kamereon_first mth url payload) n m'.
Proof.
  intros Hr. destruct o; do 2 unfold_calls;
    cbn [fst snd config svc net threads ctx vehicleMeta cache _reloginPromise state_of] in Hr;
    repeat case_match; simplify_eq.
  all: first [ by eapply fe_return | by eapply fe_join | by eapply fe_start ].
Qed.

Lemma unwind_quiet t : ∀ ks o m n m',
  Forall (λ k, is_first k = false) ks →
  unwind t o ks m = (n, m') →
  quiet m m' ∧ unwound_ok ks n.
Proof.
  induction ks as [|k ks IH]; intros o m n m' Hks Hu.
  - simpl in Hu. unfold ret in Hu. simplify_eq. split; [apply quiet_refl|done].
  - apply Forall_cons in Hks as [Hk Hks]. simpl in Hu. unfold bind in Hu.
    destruct (resume_kont t k o m) as [[o'|s pushed] m1] eqn:Hr.
    + apply resume_quiet in Hr as [Hq _]; [|done].
      apply IH in Hu as [Hq' Hn]; [|done].
      split; [by eapply quiet_trans|].
      destruct n as [|s ks']; [done|].
      destruct Hn as (pushed & popped & rest & -> & -> & Hne & Hok).
      exists pushed, (k :: popped), rest. by split_and!.
    + apply resume_quiet in Hr as [Hq Hok]; [|done].
      unfold ret in Hu. simplify_eq. split; [done|].
      exists pushed, [k], ks. by split_and!.
Qed.

Lemma lookup_advanced {A} (ths new : list A) (t0 : nat) (st0 : A) (t : nat) (st : A) :
  (<[t0 := st0]> (ths ++ new)) !! t = Some st →
  (t = t0 ∧ st = st0) ∨
  (t ≠ t0 ∧ ths !! t = Some st) ∨
  (t ≠ t0 ∧ (length ths ≤ t)%nat ∧ new !! (t - length ths)%nat = Some st).
Proof.
  intros Hl. destruct (decide (t = t0)) as [->|Hne].
  - left. split; [done|].
    apply list_lookup_insert_Some in Hl. naive_solver.
  - right. rewrite list_lookup_insert_ne in Hl by done.
    apply lookup_app_Some in Hl. naive_solver.
Qed.

Lemma wake_entered m t api :
  threads m !! t = Some (Running (S_call api) []) →
  step (Wake t) m = Some (advance t (call_api t api) m).
Proof.
  intros Ht. unfold step. rewrite Ht. f_equal. unfold advance, bind.
  destruct (call_api t api m) as [[o|s ks] m']; simpl; by rewrite ?app_nil_r.
Qed.

(** *** The invariant is kept by every step *)

Lemma stack_ok_no_first s ks :
  stack_ok s ks → is_doFetch s = false → Forall (λ k, is_first k = false) ks.
Proof.
  destruct ks as [|k ks]; [done|]. intros (_ & Hk & Hks) Hs.
  constructor; [|done]. destruct (is_first k); [|done]. rewrite Hk in Hs; done.
Qed.

Lemma unwound_settles ks n :
  Forall (λ k, is_first k = false) ks → unwound_ok ks n → settles_in ks n.
Proof.
  destruct n as [o|s' ks']; [done|].
  intros Hks (pushed & popped & rest & -> & -> & Hne & Hcalm & Hok & Hiife).
  apply Forall_app in Hks as [_ Hrest]. split_and!.
  - intros p ->. done.
  - destruct pushed as [|k pushed]; simpl.
    + destruct rest as [|k rest]; [done|].
      apply Forall_cons in Hrest as [Hk Hrest]. split_and!; [by destruct s'| |done].
      by rewrite Hk.
    + destruct Hok as (Hc & Hk & Hp). split_and!; [done..|]. by apply Forall_app.
  - destruct rest as [|k rest _] using rev_ind.
    + rewrite app_nil_r. intros Hl. apply last_Some in Hl as [l' ->].
      apply Forall_app in Hiife as [_ Hi]. by apply Forall_cons in Hi as [Hi _].
    + by rewrite !app_assoc, !last_snoc.
Qed.

Lemma is_read_shape st :
  is_read st →
  (∀ s ks, st = Running s ks → stack_ok s ks) ∧
  (∀ p, ¬ owns_relogin st p) ∧ ¬ live_relogin st.
Proof.
  destruct st as [[] [|[] []]|]; try done. intros _. split_and!.
  - intros s ks [= <- <-]. simpl. split_and!; [done..|constructor].
  - by intros p ?.
  - by intros ?.
Qed.

(** A thread that is not the owner of the re-login moves on quietly. *)
Lemma inv_advance_quiet m m1 t s ks n :
  Inv m → threads m !! t = Some (Running s ks) →
  (∀ p, s ≠ S_reloginOwn p) →
  quiet m m1 → settles_in ks n →
  Inv (set_thread t (state_of n) m1).
Proof.
  intros [Hstack Hown Huniq Hlive Howner] Ht Hs (Hcfg & Hmark & new & Hths & Hnew) Hn.
  assert (Hcases : ∀ t' st', threads (set_thread t (state_of n) m1) !! t' = Some st' →
            (t' = t ∧ st' = state_of n) ∨ (t' ≠ t ∧ threads m !! t' = Some st') ∨
            (t' ≠ t ∧ is_read st')).
  { intros t' st' Hl. simpl in Hl. rewrite Hths in Hl.
    apply lookup_advanced in Hl as [?|[?|(? & _ & Hl)]]; [by left|by right; left|].
    right; right. split; [done|]. by eapply Forall_lookup_1 in Hl. }
  assert (Hnot_own : ∀ p, ¬ owns_relogin (state_of n) p).
  { intros p. destruct n as [o|s' ks']; [by intros ?|]. destruct Hn as (Hs' & _).
    destruct s'; try by intros ?. simpl. intros ->. by eapply Hs'. }
  assert (Hnot_live : live_relogin (state_of n) → live_relogin (Running s ks)).
  { destruct n as [o|s' ks']; [by intros ?|]. by destruct Hn as (_ & _ & Hl). }
  split.
  - intros t' s' ks' Hl. apply Hcases in Hl as [[-> Hst]|[[_ Hl]|[_ Hr]]].
    + destruct n as [o|s'' ks'']; simplify_eq/=. by destruct Hn as (_ & ? & _).
    + by eapply Hstack.
    + by eapply is_read_shape.
  - intros t' st' p Hl Ho. cbn [set_thread svc]. rewrite Hmark.
    apply Hcases in Hl as [[-> ->]|[[_ Hl]|[_ Hr]]].
    + by apply Hnot_own in Ho.
    + by eapply Hown.
    + by apply is_read_shape in Ho.
  - intros t1 t2 st1 st2 p1 p2 Hl1 Hl2 Ho1 Ho2.
    apply Hcases in Hl1 as [[-> ->]|[[Hne1 Hl1]|[_ Hr]]];
      [by apply Hnot_own in Ho1| |by apply is_read_shape in Ho1].
    apply Hcases in Hl2 as [[-> ->]|[[Hne2 Hl2]|[_ Hr]]];
      [by apply Hnot_own in Ho2| |by apply is_read_shape in Ho2].
    by eapply Huniq.
  - intros t' st' Hl Hlv. cbn [set_thread svc]. rewrite Hmark.
    apply Hcases in Hl as [[-> ->]|[[_ Hl]|[_ Hr]]].
    + eapply Hlive; [done|]. by apply Hnot_live.
    + by eapply Hlive.
    + by apply is_read_shape in Hlv.
  - intros p Hp. cbn [set_thread svc] in Hp. rewrite Hmark in Hp.
    apply Howner in Hp as (t' & st' & Hl & Ho).
    assert (t' ≠ t) as Hne.
    { intros Heq. subst t'. assert (st' = Running s ks) as -> by congruence.
      destruct s; try done. simpl in Ho. by eapply Hs. }
    exists t', st'. split; [|done]. simpl. rewrite Hths.
    rewrite list_lookup_insert_ne by done. by apply lookup_app_l_Some.
Qed.

(** The owner of the re-login resumes: the marker is cleared (line 150). *)
Lemma inv_advance_own m m1 t p ks n o :
  Inv m → threads m !! t = Some (Running (S_reloginOwn p) ks) →
  outcome_of m p = Some o →
  quiet (cleared m) m1 → settles_in ks n →
  Inv (set_thread t (state_of n) m1).
Proof.
  intros [Hstack Hown Huniq Hlive Howner] Ht Hp (Hcfg & Hmark & new & Hths & Hnew) Hn.
  cbn [cleared svc _reloginPromise threads] in Hmark, Hths.
  assert (Hdone : threads m !! p = Some (Done o)).
  { unfold outcome_of in Hp. by repeat case_match; simplify_eq. }
  assert (Hcases : ∀ t' st', threads (set_thread t (state_of n) m1) !! t' = Some st' →
            (t' = t ∧ st' = state_of n) ∨ (t' ≠ t ∧ threads m !! t' = Some st') ∨
            (t' ≠ t ∧ is_read st')).
  { intros t' st' Hl. simpl in Hl. rewrite Hths in Hl.
    apply lookup_advanced in Hl as [?|[?|(? & _ & Hl)]]; [by left|by right; left|].
    right; right. split; [done|]. by eapply Forall_lookup_1 in Hl. }
  assert (Hnot_own : ∀ q, ¬ owns_relogin (state_of n) q).
  { intros q. destruct n as [o'|s' ks']; [by intros ?|]. destruct Hn as (Hs' & _).
    destruct s'; try by intros ?. simpl. intros ->. by eapply Hs'. }
  assert (Hno_owner : ∀ t' st' q,
            threads (set_thread t (state_of n) m1) !! t' = Some st' → ¬ owns_relogin st' q).
  { intros t' st' q Hl Ho. apply Hcases in Hl as [[-> ->]|[[Hne Hl]|[_ Hr]]].
    - by apply Hnot_own in Ho.
    - apply Hne. by eapply (Huniq t' t st' (Running (S_reloginOwn p) ks) q p).
    - by apply is_read_shape in Ho. }
  assert (Hmarker : _reloginPromise (svc m) = Some p) by by eapply (Hown t).
  assert (Hno_live : ∀ t' st', threads m !! t' = Some st' → ¬ live_relogin st').
  { intros t' st' Hl Hlv. pose proof (Hlive _ _ Hl Hlv) as Hm. rewrite Hmarker in Hm.
    injection Hm as <-. rewrite Hdone in Hl. by injection Hl as <-. }
  split.
  - intros t' s' ks' Hl. apply Hcases in Hl as [[-> Hst]|[[_ Hl]|[_ Hr]]].
    + destruct n as [o'|s'' ks'']; simplify_eq/=. by destruct Hn as (_ & ? & _).
    + by eapply Hstack.
    + by eapply is_read_shape.
  - intros t' st' q Hl Ho. by eapply Hno_owner in Ho.
  - intros t1 t2 st1 st2 p1 p2 Hl1 _ Ho1 _. by eapply Hno_owner in Ho1.
  - intros t' st' Hl Hlv. exfalso.
    apply Hcases in Hl as [[-> ->]|[[_ Hl]|[_ Hr]]].
    + destruct n as [o'|s' ks']; [done|]. destruct Hn as (_ & _ & Hlast).
      apply (Hno_live t _ Ht). by apply Hlast.
    + by eapply Hno_live.
    + by apply is_read_shape in Hlv.
  - intros q Hq. cbn [set_thread svc] in Hq. by rewrite Hmark in Hq.
Qed.

(** A first attempt is refused and no re-login is in flight: one starts. *)
Lemma inv_advance_start m m' t s mth url payload ks :
  Inv m →
  threads m !! t = Some (Running s (K_kamereon_first mth url payload :: ks)) →
  _reloginPromise (svc m) = None →
  threads m' = threads m ++ [Running S_gigyaLogin [K_ensure_login; K_iife]] →
  _reloginPromise (svc m') = Some (length (threads m)) →
  Inv (set_thread t
         (Running (S_reloginOwn (length (threads m)))
            (K_kamereon_relogin mth url payload :: ks)) m').
Proof.
  intros [Hstack Hown Huniq Hlive Howner] Ht Hnone Hths Hmark.
  set (p := length (threads m)) in *.
  set (st_t := Running (S_reloginOwn p) (K_kamereon_relogin mth url payload :: ks)).
  set (st_p := Running S_gigyaLogin [K_ensure_login; K_iife]) in *.
  assert (Hcases : ∀ t' st', threads (set_thread t st_t m') !! t' = Some st' →
            (t' = t ∧ st' = st_t) ∨ (t' ≠ t ∧ threads m !! t' = Some st') ∨
            (t' = p ∧ st' = st_p)).
  { intros t' st' Hl. simpl in Hl. rewrite Hths in Hl.
    apply lookup_advanced in Hl as [?|[?|(? & Hge & Hl)]]; [by left|by right; left|].
    right; right. apply list_lookup_singleton_Some in Hl as [Hi ->].
    split; [|done]. unfold p. lia. }
  assert (Hold_not_own : ∀ t' st' q, threads m !! t' = Some st' → ¬ owns_relogin st' q).
  { intros t' st' q Hl Ho. pose proof (Hown _ _ _ Hl Ho). congruence. }
  assert (Hold_not_live : ∀ t' st', threads m !! t' = Some st' → ¬ live_relogin st').
  { intros t' st' Hl Hlv. pose proof (Hlive _ _ Hl Hlv). congruence. }
  pose proof (Hstack _ _ _ Ht) as (Hcall & _ & Hks).
  split.
  - intros t' s' ks' Hl. apply Hcases in Hl as [[-> Hst]|[[_ Hl]|[-> Hst]]].
    + unfold st_t in Hst. simplify_eq. by split_and!.
    + by eapply Hstack.
    + unfold st_p in Hst. simplify_eq. split_and!; [done..|]. by repeat constructor.
  - intros t' st' q Hl Ho. cbn [set_thread svc]. rewrite Hmark.
    apply Hcases in Hl as [[-> ->]|[[_ Hl]|[-> ->]]].
    + simpl in Ho. by subst.
    + by eapply Hold_not_own in Ho.
    + done.
  - intros t1 t2 st1 st2 p1 p2 Hl1 Hl2 Ho1 Ho2.
    apply Hcases in Hl1 as [[-> ->]|[[_ Hl1]|[-> ->]]];
      [|by eapply Hold_not_own in Ho1|done].
    apply Hcases in Hl2 as [[-> ->]|[[_ Hl2]|[-> ->]]];
      [done|by eapply Hold_not_own in Ho2|done].
  - intros t' st' Hl Hlv. cbn [set_thread svc]. rewrite Hmark.
    apply Hcases in Hl as [[-> ->]|[[_ Hl]|[-> ->]]].
    + exfalso. apply (Hold_not_live t _ Ht). simpl in *.
      destruct ks; [done|]. done.
    + by eapply Hold_not_live in Hlv.
    + done.
  - intros q Hq. cbn [set_thread svc] in Hq. rewrite Hmark in Hq. simplify_eq.
    exists t, st_t. split; [|done]. simpl. rewrite Hths.
    apply list_lookup_insert_eq. rewrite length_app. apply lookup_lt_Some in Ht. lia.
Qed.

Lemma call_api_quiet t api m n m' :
  call_api t api m = (n, m') → quiet m m' ∧ next_ok n.
Proof.
  intros Hr. destruct api; do 2 unfold_calls;
    cbn [fst snd config svc net threads ctx vehicleMeta cache _reloginPromise state_of] in Hr;
    repeat case_match; simplify_eq;
    (split; [solve_quiet | cbn; repeat split; try done; repeat constructor]).
Qed.

Lemma next_ok_settles n : next_ok n → settles_in [] n.
Proof.
  destruct n as [o|s ks]; [done|]. intros (Hcalm & Hok & Hiife). split_and!; [|done|].
  - by intros p ->.
  - intros Hl. apply last_Some in Hl as [l' ->].
    apply Forall_app in Hiife as [_ Hi]. by apply Forall_cons in Hi as [Hi _].
Qed.

Lemma settles_in_cons k ks n : settles_in ks n → settles_in (k :: ks) n.
Proof.
  destruct n as [o|s ks']; [done|]. intros (? & ? & Hl). split_and!; [done..|].
  intros Hl'. rewrite last_cons, (Hl Hl'). done.
Qed.

Lemma inv_call m api :
  Inv m →
  Inv (mkMachine (config m) (svc m) (net m) (threads m ++ [Running (S_call api) []])).
Proof.
  intros [Hstack Hown Huniq Hlive Howner].
  assert (Hcases : ∀ t st, (threads m ++ [Running (S_call api) []]) !! t = Some st →
            threads m !! t = Some st ∨ st = Running (S_call api) []).
  { intros t st Hl. apply lookup_app_Some in Hl as [?|[_ Hl]]; [by left|].
    right. by apply list_lookup_singleton_Some in Hl as [_ <-]. }
  split; cbn [threads svc].
  - intros t s ks Hl. apply Hcases in Hl as [Hl|Hl]; [by eapply Hstack|]. by simplify_eq.
  - intros t st p Hl Ho. apply Hcases in Hl as [Hl| ->]; [by eapply Hown|done].
  - intros t1 t2 st1 st2 p1 p2 Hl1 Hl2 Ho1 Ho2.
    apply Hcases in Hl1 as [Hl1| ->]; [|done].
    apply Hcases in Hl2 as [Hl2| ->]; [|done]. by eapply Huniq.
  - intros t st Hl Hlv. apply Hcases in Hl as [Hl| ->]; [by eapply Hlive|done].
  - intros p Hp. apply Howner in Hp as (t & st & Hl & Ho).
    exists t, st. split; [|done]. by apply lookup_app_l_Some.
Qed.

Lemma leaf_not_own s r o : leaf_result s r = Some o → ∀ p, s ≠ S_reloginOwn p.
Proof. intros Hl p ->. done. Qed.

(** Every step keeps the invariant. *)
Lemma step_inv ev m m' : Inv m → step ev m = Some m' → Inv m'.
Proof.
  intros HI Hstep. destruct ev as [api|t r|t]; simpl in Hstep.
  - simplify_eq. by apply inv_call.
  - destruct (threads m !! t) as [[s ks|]|] eqn:Ht; [|done..].
    destruct (leaf_result s r) as [o|] eqn:Hleaf; [|done]. simplify_eq.
    pose proof (leaf_not_own _ _ _ Hleaf) as Hs.
    pose proof (inv_stack _ HI _ _ _ Ht) as Hok.
    unfold advance. destruct (unwind t o ks m) as [n m1] eqn:Hu.
    destruct ks as [|k ks].
    { simpl in Hu. unfold ret in Hu. simplify_eq.
      eapply inv_advance_quiet; [done..|apply quiet_refl|done]. }
    destruct (is_first k) eqn:Hk.
    + destruct k; try done. destruct Hok as (_ & _ & Hks).
      simpl in Hu. unfold bind in Hu.
      destruct (kamereon_after_first m0 url payload o m) as [n1 m2] eqn:Hr.
      apply (first_effect t) in Hr.
      destruct Hr as [o' -> ->|p mth url' pl [= <- <- <-] Hp -> ->
                     |mth url' pl [= <- <- <-] Hp -> Hcfg Hths Hmark].
      * apply unwind_quiet in Hu as [Hq Hn]; [|done].
        eapply inv_advance_quiet; [done..|].
        by apply settles_in_cons, unwound_settles.
      * unfold ret in Hu. simplify_eq.
        eapply inv_advance_quiet; [done..|apply quiet_refl|].
        split_and!; [done|by split_and!|]. simpl. by destruct ks.
      * unfold ret in Hu. simplify_eq. by eapply inv_advance_start.
    + assert (Hall : Forall (λ k', is_first k' = false) (k :: ks)).
      { destruct Hok as (_ & _ & Hks). by constructor. }
      apply unwind_quiet in Hu as [Hq Hn]; [|done].
      eapply inv_advance_quiet; [done..|]. by apply unwound_settles.
  - destruct (threads m !! t) as [[s ks|]|] eqn:Ht; [|done..].
    pose proof (inv_stack _ HI _ _ _ Ht) as Hok.
    destruct s; try done.
    + assert (ks = []) as -> by (by destruct ks as [|k ks]; [|destruct Hok]).
      unfold advance, bind in Hstep.
      destruct (call_api t api m) as [n m1] eqn:Hc.
      apply call_api_quiet in Hc as [Hq Hn].
      assert (m' = set_thread t (state_of n) m1) as ->.
      { destruct n; simpl in Hstep; rewrite ?app_nil_r in Hstep; by simplify_eq. }
      eapply inv_advance_quiet; [done..|]. by apply next_ok_settles.
    + destruct (outcome_of m p) as [o|] eqn:Hp; [|done]. simplify_eq.
      unfold advance. destruct (unwind t o ks m) as [n m1] eqn:Hu.
      apply unwind_quiet in Hu as [Hq Hn]; [|by eapply stack_ok_no_first].
      eapply inv_advance_quiet; [done..|].
      apply unwound_settles; [by eapply stack_ok_no_first|done].
    + destruct (outcome_of m p) as [o|] eqn:Hp; [|done]. simplify_eq.
      unfold advance.
      change ((set_reloginPromise None;; unwind t o ks) m)%M
        with (unwind t o ks (cleared m)).
      destruct (unwind t o ks (cleared m)) as [n m1] eqn:Hu.
      apply unwind_quiet in Hu as [Hq Hn]; [|by eapply stack_ok_no_first].
      eapply inv_advance_own; [done..|].
      apply unwound_settles; [by eapply stack_ok_no_first|done].
    + destruct (outcome_of m battery) as [ob|]; [|done].
      destruct (outcome_of m cockpit) as [oc|]; [|done].
      destruct (outcome_of m hvac) as [oh|]; [|done].
      destruct (outcome_of m location) as [ol|]; [|done]. simplify_eq.
      unfold advance, bind.
      destruct (summary_after_all now vin ob oc oh ol m) as [o m1] eqn:Ha.
      assert (quiet m m1) as Hq1.
      { unfold_calls. by repeat case_match; simplify_eq; solve_quiet. }
      destruct (unwind t o ks m1) as [n m2] eqn:Hu.
      apply unwind_quiet in Hu as [Hq Hn]; [|by eapply stack_ok_no_first].
      eapply inv_advance_quiet; [done..|by eapply quiet_trans|].
      apply unwound_settles; [by eapply stack_ok_no_first|done].
Qed.

Lemma run_inv evs : ∀ m m', Inv m → run evs m = Some m' → Inv m'.
Proof.
  induction evs as [|ev evs IH]; intros m m' HI Hrun; simpl in Hrun; [by simplify_eq|].
  destruct (step ev m) as [m1|] eqn:Hstep; [|done].
  eapply IH; [|done]. by eapply step_inv.
Qed.

Lemma fresh_inv m : fresh m → Inv m.
Proof.
  intros [Hths Hmark]. split; try (intros *; rewrite Hths, lookup_nil; done).
  intros p Hp. congruence.
Qed.

Lemma relogins_in_flight_spec m p :
  p ∈ relogins_in_flight m ↔ ∃ st, threads m !! p = Some st ∧ live_relogin st.
Proof.
  unfold relogins_in_flight. rewrite list_elem_of_In, filter_In, in_seq. split.
  - intros [_ Hp]. destruct (threads m !! p) as [[s ks|]|] eqn:Hl; [|done..].
    exists (Running s ks). split; [done|]. simpl.
    by destruct (last ks) as [[]|].
  - intros (st & Hl & Hlv). split.
    + apply lookup_lt_Some in Hl. lia.
    + rewrite Hl. destruct st as [s ks|]; [|done]. simpl in Hlv. by rewrite Hlv.
Qed.

Lemma relogins_in_flight_NoDup m : List.NoDup (relogins_in_flight m).
Proof. apply List.NoDup_filter, List.seq_NoDup. Qed.

Lemma relogins_in_flight_marker m p :
  Inv m → p ∈ relogins_in_flight m → _reloginPromise (svc m) = Some p.
Proof.
  intros HI (st & Hl & Hlv)%relogins_in_flight_spec. by eapply inv_live.
Qed.

Lemma relogins_in_flight_le m : Inv m → length (relogins_in_flight m) ≤ 1.
Proof.
  intros HI. pose proof (relogins_in_flight_NoDup m) as Hnd.
  pose proof (relogins_in_flight_marker m) as Hm.
  destruct (relogins_in_flight m) as [|a [|b l]]; simpl; [lia..|].
  exfalso. assert (a = b) as ->.
  { assert (Some a = Some b); [|congruence].
    rewrite <- (Hm a), <- (Hm b); [done|done| |done|];
      rewrite !elem_of_cons; eauto. }
  apply List.NoDup_cons_iff in Hnd as [Hnd _]. apply Hnd. by left.
Qed.

Lemma relogins_in_flight_none m :
  Inv m → _reloginPromise (svc m) = None → relogins_in_flight m = [].
Proof.
  intros HI Hnone. destruct (relogins_in_flight m) as [|a l] eqn:Hr; [done|].
  assert (_reloginPromise (svc m) = Some a); [|congruence].
  apply relogins_in_flight_marker; [done|]. rewrite Hr. by left.
Qed.

(** *** The steps of the request layer *)

Lemma respond_first_401 m t mth url payload ks r e :
  threads m !! t = Some (Running (S_doFetch mth) (K_kamereon_first mth url payload :: ks)) →
  doFetch_result mth r = Rejected e → _is401 (Some e) = true →
  step (Respond t r) m =
  Some (match _reloginPromise (svc m) with
        | Some p =>
            set_thread t
              (Running (S_reloginJoin p) (K_kamereon_relogin mth url payload :: ks)) m
        | None =>
            set_thread t
              (Running (S_reloginOwn (length (threads m)))
                 (K_kamereon_relogin mth url payload :: ks))
              (started m)
        end).
Proof.
  intros Ht Hres H401. unfold step. rewrite Ht. cbn [leaf_result]. rewrite Hres.
  f_equal. unfold advance. cbn [unwind]. unfold bind at 1. cbn [resume_kont].
  unfold kamereon_after_first. rewrite H401. cbn [negb].
  unfold call_reloginLocked, bind, this_svc.
  destruct (_reloginPromise (svc m)) as [p|] eqn:Hp; [done|].
  by destruct m as [cfg [c v ca rp] nt ths].
Qed.

Lemma respond_first_other m t mth url payload ks r :
  threads m !! t = Some (Running (S_doFetch mth) (K_kamereon_first mth url payload :: ks)) →
  _is401 (reason (doFetch_result mth r)) = false →
  step (Respond t r) m = Some (advance t (unwind t (doFetch_result mth r) ks) m).
Proof.
  intros Ht H401. unfold step. rewrite Ht. cbn [leaf_result].
  f_equal. unfold advance. cbn [unwind]. unfold bind at 1. cbn [resume_kont].
  unfold kamereon_after_first.
  destruct (doFetch_result mth r) as [v|e]; [done|]. simpl in H401. by rewrite H401.
Qed.



(** *** Steps and the other threads *)

Lemma unwind_grows t : ∀ ks o m n m',
  unwind t o ks m = (n, m') → ∃ new, threads m' = threads m ++ new.
Proof.
  induction ks as [|k ks IH]; intros o m n m' Hu; simpl in Hu.
  - unfold ret in Hu. simplify_eq. exists []. by rewrite app_nil_r.
  - unfold bind in Hu. destruct (resume_kont t k o m) as [n1 m1] eqn:Hr.
    assert (∃ new, threads m1 = threads m ++ new) as [new1 Hnew1].
    { destruct (is_first k) eqn:Hk.
      - destruct k; try done. apply first_effect in Hr.
        destruct Hr as [? _ ->|? ? ? ? _ _ _ ->|? ? ? _ _ _ _ Hths _];
          [exists []; by rewrite app_nil_r..|by eexists].
      - apply resume_quiet in Hr as [(_ & _ & new & Hths & _) _]; [by eexists|done]. }
    destruct n1 as [o'|s pushed].
    + apply IH in Hu as [new2 Hnew2]. exists (new1 ++ new2).
      by rewrite Hnew2, Hnew1, app_assoc.
    + unfold ret in Hu. simplify_eq. by eexists.
Qed.

Lemma step_threads ev m m' :
  step ev m = Some m' →
  ∃ new, match stepper ev with
         | None => threads m' = threads m ++ new
         | Some t =>
             t < length (threads m) ∧
             ∃ st, threads m' = <[t := st]> (threads m ++ new) ∧
                   threads m' !! t = Some st
         end.
Proof.
  assert (Hadv : ∀ t c s ks (m1 : Machine),
            threads m1 !! t = Some (Running s ks) →
            (∀ n m2, c m1 = (n, m2) → ∃ new, threads m2 = threads m1 ++ new) →
            ∃ new, t < length (threads m1) ∧
              ∃ st, threads (advance t c m1) = <[t := st]> (threads m1 ++ new) ∧
                    threads (advance t c m1) !! t = Some st).
  { intros t c s ks m1 Ht Hc. unfold advance. destruct (c m1) as [n m2] eqn:Hcm.
    destruct (Hc _ _ eq_refl) as [new Hnew]. exists new.
    pose proof (lookup_lt_Some _ _ _ Ht) as Hlt. split; [done|].
    exists (state_of n). simpl. rewrite Hnew. split; [done|].
    apply list_lookup_insert_eq. rewrite length_app. lia. }
  intros Hstep. destruct ev as [api|t r|t]; simpl in *.
  - simplify_eq. by eexists.
  - destruct (threads m !! t) as [[s ks|]|] eqn:Ht; [|done..].
    destruct (leaf_result s r) as [o|]; [|done]. simplify_eq.
    eapply Hadv; [done|]. intros n m2. apply unwind_grows.
  - destruct (threads m !! t) as [[s ks|]|] eqn:Ht; [|done..].
    destruct s; try done.
    + simplify_eq. eapply Hadv; [done|]. intros n m2. unfold bind.
      destruct (call_api t api m) as [n1 m1] eqn:Hc.
      apply call_api_quiet in Hc as [(_ & _ & new1 & Hnew1 & _) _].
      destruct n1; [|intros [= <- <-]; by eexists].
      intros [new2 Hnew2]%unwind_grows. exists (new1 ++ new2).
      by rewrite Hnew2, Hnew1, app_assoc.
    + destruct (outcome_of m p); [|done]. simplify_eq.
      eapply Hadv; [done|]. intros n m2. apply unwind_grows.
    + destruct (outcome_of m p); [|done]. simplify_eq.
      eapply Hadv; [done|]. intros n m2.
      change ((set_reloginPromise None;; unwind t o ks) m)%M
        with (unwind t o ks (cleared m)).
      intros [new Hnew]%unwind_grows. by exists new.
    + destruct (outcome_of m battery) as [ob|]; [|done].
      destruct (outcome_of m cockpit) as [oc|]; [|done].
      destruct (outcome_of m hvac) as [oh|]; [|done].
      destruct (outcome_of m location) as [ol|]; [|done]. simplify_eq.
      eapply Hadv; [done|]. intros n m2. unfold bind.
      destruct (summary_after_all now vin ob oc oh ol m) as [o m1] eqn:Ha.
      assert (threads m1 = threads m) as <-.
      { unfold_calls. by repeat case_match; simplify_eq. }
      apply unwind_grows.
Qed.

(** A step leaves the threads that do not take it as they are. *)
Lemma step_other ev m m' t st :
  step ev m = Some m' → threads m !! t = Some st → stepper ev ≠ Some t →
  threads m' !! t = Some st.
Proof.
  intros Hstep Ht Hne. destruct (step_threads _ _ _ Hstep) as [new Hths].
  destruct (stepper ev) as [t0|].
  - destruct Hths as (_ & st0 & -> & _).
    rewrite list_lookup_insert_ne by congruence. by apply lookup_app_l_Some.
  - rewrite Hths. by apply lookup_app_l_Some.
Qed.

(** *** The frames at the bottom of a thread *)

Lemma based_cons k ks : based (k :: ks) → based ks.
Proof.
  unfold based. destruct ks as [|k' ks]; [by constructor|].
  change (removelast (k :: k' :: ks)) with (k :: removelast (k' :: ks)).
  by intros [_ ?]%Forall_cons.
Qed.

Lemma based_cons_base k ks : based (k :: ks) → is_base k = true → ks = [].
Proof.
  unfold based. destruct ks as [|k' ks]; [done|].
  change (removelast (k :: k' :: ks)) with (k :: removelast (k' :: ks)).
  intros [Hk _]%Forall_cons. congruence.
Qed.

Lemma based_plain ks : Forall (λ k, is_base k = false) ks → based ks.
Proof.
  unfold based. induction 1 as [|k ks Hk Hks IH]; [constructor|].
  destruct ks as [|k' ks]; [constructor|].
  change (removelast (k :: k' :: ks)) with (k :: removelast (k' :: ks)).
  by constructor.
Qed.

Lemma based_app pushed rest :
  Forall (λ k, is_base k = false) pushed → based rest → based (pushed ++ rest).
Proof.
  intros Hp Hr. destruct rest as [|k rest].
  - rewrite app_nil_r. by apply based_plain.
  - unfold based. rewrite removelast_app by done. by apply Forall_app.
Qed.

Ltac solve_grows_based :=
  unfold grows_based; cbn [threads];
  first
    [ exists []; split; [ symmetry; apply app_nil_r | constructor ]
    | eexists [_]; split;
        [ reflexivity
        | constructor; [|constructor]; cbn; split; [by repeat constructor|done] ]
    | eexists [_; _; _; _]; split;
        [ cbn [app]; by rewrite <- !app_assoc
        | repeat (apply Forall_cons; split;
                    [cbn; split; [by repeat constructor|done]|]);
          apply Forall_nil ] ].

Lemma resume_based t k o m n m' :
  resume_kont t k o m = (n, m') →
  grows_based m m' ∧
  match n with
  | Return _ => True
  | Await s pushed =>
      is_call s = false ∧
      if is_base k then based pushed ∧ (is_allSettled s = true → pushed = [])
      else Forall (λ k', is_base k' = false) pushed ∧ is_allSettled s = false
  end.
Proof.
  intros Hr.
  destruct k; destruct o; do 2 unfold_calls;
    cbn [fst snd config svc net threads ctx vehicleMeta cache _reloginPromise state_of] in Hr;
    repeat case_match; simplify_eq;
    cbn [svc threads ctx vehicleMeta cache _reloginPromise is_base].
  all: split; [solve_grows_based|].
  all: try done.
  all: cbn; split; [done|]; split; try done; by repeat constructor.
Qed.

Lemma unwind_based t : ∀ ks o m n m',
  based ks → unwind t o ks m = (n, m') →
  grows_based m m' ∧ next_based n.
Proof.
  induction ks as [|k ks IH]; intros o m n m' Hks Hu.
  - simpl in Hu. unfold ret in Hu. simplify_eq. split; [|done].
    exists []. by rewrite app_nil_r.
  - simpl in Hu. unfold bind in Hu.
    destruct (resume_kont t k o m) as [[o'|s pushed] m1] eqn:Hr;
      apply resume_based in Hr as [(new1 & Hnew1 & Hok1) Hn1].
    + apply IH in Hu as [(new2 & Hnew2 & Hok2) Hn2]; [|by eapply based_cons].
      split; [|done]. exists (new1 ++ new2).
      rewrite Hnew2, Hnew1, app_assoc. split; [done|]. by apply Forall_app.
    + unfold ret in Hu. simplify_eq. split; [by exists new1|].
      destruct Hn1 as [Hcall Hn1]. simpl.
      destruct (is_base k) eqn:Hk.
      * apply based_cons_base in Hks as ->; [|done]. rewrite app_nil_r.
        destruct Hn1 as [Hb Hall]. split; [done|].
        rewrite Hcall, orb_false_r. done.
      * destruct Hn1 as [Hp Hall]. split; [apply based_app; [done|by eapply based_cons]|].
        by rewrite Hcall, Hall.
Qed.

Lemma call_api_based t api m n m' :
  call_api t api m = (n, m') → grows_based m m' ∧ next_based n.
Proof.
  intros Hr.
  destruct api; do 2 unfold_calls;
    cbn [fst snd config svc net threads ctx vehicleMeta cache _reloginPromise state_of] in Hr;
    repeat case_match; simplify_eq;
    cbn [svc threads ctx vehicleMeta cache _reloginPromise].
  all: split; [solve_grows_based|].
  all: try done.
  all: cbn; split; [by repeat constructor|done].
Qed.

Lemma based_advance m m1 t st0 n :
  Based m → threads m !! t = Some st0 →
  grows_based m m1 → next_based n →
  Based (set_thread t (state_of n) m1).
Proof.
  intros Hths Ht (new & Hnew & Hok) Hn.
  unfold Based. cbn [set_thread threads]. rewrite Hnew.
  apply Forall_insert; [by apply Forall_app|]. by destruct n.
Qed.

Lemma step_based ev m m' : Based m → step ev m = Some m' → Based m'.
Proof.
  intros Hths Hstep.
  destruct ev as [api|t r|t]; simpl in Hstep.
  - simplify_eq. unfold Based. cbn [threads]. apply Forall_app. split; [done|].
    repeat constructor.
  - destruct (threads m !! t) as [[s ks|]|] eqn:Ht; [|done..].
    destruct (leaf_result s r) as [o|] eqn:Hleaf; [|done]. simplify_eq.
    pose proof (Forall_lookup_1 _ _ _ _ Hths Ht) as [Hok _].
    unfold advance. destruct (unwind t o ks m) as [n m1] eqn:Hu.
    apply unwind_based in Hu as [Hg Hn]; [|done].
    by eapply based_advance.
  - destruct (threads m !! t) as [[s ks|]|] eqn:Ht; [|done..].
    pose proof (Forall_lookup_1 _ _ _ _ Hths Ht) as [Hok Hnil].
    destruct s; try done.
    + simplify_eq. rewrite (Hnil eq_refl). unfold advance, bind.
      destruct (call_api t api m) as [n1 m1] eqn:Hc.
      apply call_api_based in Hc as [Hg Hn1].
      destruct n1 as [o|s pushed].
      * simpl. unfold ret. by eapply (based_advance _ _ _ _ (Return o)).
      * unfold ret. rewrite app_nil_r. by eapply (based_advance _ _ _ _ (Await s pushed)).
    + destruct (outcome_of m p) as [o|] eqn:Hp; [|done]. simplify_eq.
      unfold advance. destruct (unwind t o ks m) as [n m1] eqn:Hu.
      apply unwind_based in Hu as [Hg Hn]; [|done].
      by eapply based_advance.
    + destruct (outcome_of m p) as [o|] eqn:Hp; [|done]. simplify_eq.
      unfold advance.
      change ((set_reloginPromise None;; unwind t o ks) m)%M
        with (unwind t o ks (cleared m)).
      destruct (unwind t o ks (cleared m)) as [n m1] eqn:Hu.
      apply unwind_based in Hu as [Hg Hn]; [|done].
      by eapply based_advance.
    + destruct (outcome_of m battery) as [ob|]; [|done].
      destruct (outcome_of m cockpit) as [oc|]; [|done].
      destruct (outcome_of m hvac) as [oh|]; [|done].
      destruct (outcome_of m location) as [ol|]; [|done]. simplify_eq.
      unfold advance, bind.
      destruct (summary_after_all now vin ob oc oh ol m) as [o m1] eqn:Ha.
      assert (threads m1 = threads m) as Hsame.
      { unfold_calls. by repeat case_match; simplify_eq. }
      destruct (unwind t o ks m1) as [n m2] eqn:Hu.
      apply unwind_based in Hu as [(new2 & Hnew2 & Hok2) Hn]; [|done].
      eapply based_advance; [done..| |done].
      exists new2. by rewrite Hnew2, Hsame.
Qed.

Lemma run_based evs : ∀ m m', Based m → run evs m = Some m' → Based m'.
Proof.
  induction evs as [|ev evs IH]; intros m m' HI Hrun; simpl in Hrun; [by simplify_eq|].
  destruct (step ev m) as [m1|] eqn:Hstep; [|done].
  eapply IH; [|done]. by eapply step_based.
Qed.

Lemma fresh_based m : fresh m → Based m.
Proof. intros [Hths _]. unfold Based. rewrite Hths. constructor. Qed.

(** ** Control actions and the cache (C4, C10) *)

Lemma unwind_hvac_done t out : ∀ ks o m m',
  (last ks = Some K_hvac_post ∨ ∃ payload, last ks = Some (K_hvac_ensure payload)) →
  unwind t o ks m = (Return (Fulfilled out), m') →
  cache (svc m') = empty_cache.
Proof.
  induction ks as [|k ks IH]; intros o m m' Hlast Hu.
  - by destruct Hlast as [?|[? ?]].
  - simpl in Hu. unfold bind in Hu.
    destruct (resume_kont t k o m) as [[o'|s pushed] m1] eqn:Hr; [|done].
    destruct ks as [|k' ks].
    + simpl in Hu. unfold ret in Hu. simplify_eq.
      destruct Hlast as [[= ->]|[payload [= ->]]]; destruct o; unfold_calls;
        repeat case_match; by simplify_eq.
    + eapply IH; [|done]. by rewrite !last_cons_cons in Hlast.
Qed.

(** A frame that has a caller below it and returns at once leaves the cache
    as it is. *)
Lemma resume_keeps_cache t k o m o' m' :
  is_base k = false → resume_kont t k o m = (Return o', m') →
  cache (svc m') = cache (svc m).
Proof.
  intros Hk Hr.
  destruct k; try discriminate Hk; destruct o; do 2 unfold_calls;
    cbn [fst snd config svc net threads ctx vehicleMeta cache _reloginPromise state_of] in Hr;
    repeat case_match; by simplify_eq.
Qed.

(** The frames of a control action hand a failure on and change nothing. *)
Lemma resume_hvac_failed t k o m e m' :
  (k = K_hvac_post ∨ ∃ payload, k = K_hvac_ensure payload) →
  resume_kont t k o m = (Return (Rejected e), m') → m' = m.
Proof.
  intros [->|[payload ->]] Hr; destruct o; do 2 unfold_calls;
    cbn [fst snd config svc net threads ctx vehicleMeta cache _reloginPromise state_of] in Hr;
    repeat case_match; by simplify_eq.
Qed.

Lemma unwind_hvac_failed t e : ∀ ks o m m',
  based ks →
  (last ks = Some K_hvac_post ∨ ∃ payload, last ks = Some (K_hvac_ensure payload)) →
  unwind t o ks m = (Return (Rejected e), m') →
  cache (svc m') = cache (svc m).
Proof.
  induction ks as [|k ks IH]; intros o m m' Hks Hlast Hu.
  - by destruct Hlast as [?|[? ?]].
  - simpl in Hu. unfold bind in Hu.
    destruct (resume_kont t k o m) as [[o'|s pushed] m1] eqn:Hr; [|done].
    destruct ks as [|k' ks].
    + simpl in Hu. unfold ret in Hu. simplify_eq.
      apply resume_hvac_failed in Hr as ->; [done|].
      destruct Hlast as [[= ->]|[payload [= ->]]]; eauto.
    + rewrite (IH _ _ _ (based_cons _ _ Hks)) by (by rewrite ?last_cons_cons in Hlast).
      eapply resume_keeps_cache; [|done].
      unfold based in Hks.
      change (removelast (k :: k' :: ks)) with (k :: removelast (k' :: ks)) in Hks.
      by apply Forall_cons in Hks as [? _].
Qed.

(** The step in which a control action fails leaves the cache as it was. *)
Lemma hvac_fails_quietly ev m m' t st e :
  Based m → threads m !! t = Some st → is_hvac st →
  step ev m = Some m' → threads m' !! t = Some (Done (Rejected e)) →
  cache (svc m') = cache (svc m).
Proof.
  intros HB Ht Hhvac Hstep Hdone.
  pose proof (Forall_lookup_1 _ _ _ _ HB Ht) as Hshape.
  destruct (decide (stepper ev = Some t)) as [Hev|Hev]; cycle 1.
  { rewrite (step_other _ _ _ _ _ Hstep Ht Hev) in Hdone. by simplify_eq. }
  destruct (step_threads _ _ _ Hstep) as [new Hths]. rewrite Hev in Hths.
  destruct Hths as (Hlt & st' & _ & Hst'). rewrite Hst' in Hdone. simplify_eq.
  assert (Hadv : ∀ c m1, advance t c m1 = m' →
            ∃ n m2, c m1 = (n, m2) ∧ svc m' = svc m2 ∧
                    (t < length (threads m2) → state_of n = Done (Rejected e))).
  { intros c m1 <-. unfold advance in *. destruct (c m1) as [n m2].
    exists n, m2. split_and!; [done..|]. intros Hlt2. simpl in Hst'.
    rewrite list_lookup_insert_eq in Hst' by done. by simplify_eq. }
  destruct ev as [api|t' r|t']; simpl in Hev; simplify_eq; simpl in Hstep;
    rewrite Ht in Hstep; destruct st as [s ks|]; try done.
  all: destruct Hshape as [Hks Hnil].
  - destruct (leaf_result s r) as [o|] eqn:Hleaf; [|done]. simplify_eq.
    destruct (Hadv _ _ eq_refl) as (n & m2 & Hu & -> & Hn).
    destruct (unwind_grows _ _ _ _ _ _ Hu) as [new2 Hnew2].
    assert (Hl : t < length (threads m2)) by (rewrite Hnew2, length_app; lia).
    specialize (Hn Hl). destruct n as [o'|s' ks']; [|done]. simpl in Hn. simplify_eq.
    eapply unwind_hvac_failed; [done| |done]. by destruct s.
  - destruct s; try done.
    + simplify_eq. destruct (Hadv _ _ eq_refl) as (n & m2 & Hu & -> & Hn).
      exfalso. unfold bind in Hu.
      destruct (call_api t api m) as [n1 m1] eqn:Hc.
      pose proof Hc as Hq. apply call_api_quiet in Hq as [(_ & _ & new1 & Hnew1 & _) _].
      assert (n1 = n ∧ m1 = m2) as [-> ->].
      { destruct Hhvac as [-> _].
        destruct n1; simpl in Hu; unfold ret in Hu; rewrite ?app_nil_r in Hu;
          by simplify_eq. }
      assert (Hl : t < length (threads m2)) by (rewrite Hnew1, length_app; lia).
      specialize (Hn Hl). destruct n as [o'|s' ks']; [|done]. simpl in Hn. simplify_eq.
      destruct Hhvac as [_ [pl Hpl]].
      destruct api; try done; do 2 unfold_calls; repeat case_match; by simplify_eq.
    + destruct (outcome_of m p) as [o|]; [|done]. simplify_eq.
      destruct (Hadv _ _ eq_refl) as (n & m2 & Hu & -> & Hn).
      destruct (unwind_grows _ _ _ _ _ _ Hu) as [new2 Hnew2].
      assert (Hl : t < length (threads m2)) by (rewrite Hnew2, length_app; lia).
      specialize (Hn Hl). destruct n as [o'|s' ks']; [|done]. simpl in Hn. simplify_eq.
      by eapply unwind_hvac_failed.
    + destruct (outcome_of m p) as [o|]; [|done]. simplify_eq.
      destruct (Hadv _ _ eq_refl) as (n & m2 & Hu & -> & Hn).
      change ((set_reloginPromise None;; unwind t o ks) m)%M
        with (unwind t o ks (cleared m)) in Hu.
      destruct (unwind_grows _ _ _ _ _ _ Hu) as [new2 Hnew2].
      assert (Hl : t < length (threads m2)).
      { rewrite Hnew2, length_app. simpl. lia. }
      specialize (Hn Hl). destruct n as [o'|s' ks']; [|done]. simpl in Hn. simplify_eq.
      by rewrite (unwind_hvac_failed _ _ _ _ _ _ Hks Hhvac Hu).
    + rewrite (Hnil eq_refl) in Hhvac. by destruct Hhvac as [?|[? ?]].
Qed.

(** C4, as amended: a control action that completes successfully leaves the
    cache empty, whichever step completes it and whatever happened during
    the call.  A control action whose first POST is refused for a reason
    other than authorization fails with that error and leaves the object,
    the cache included, as it was.  In every state a fresh client can reach,
    the step in which a control action fails, whatever the reason, leaves
    the cache as it was.  When the first POST is refused with an
    authorization failure while no re-login is in flight, the call starts
    the re-login, and the cache is emptied at once. *)
Theorem hvac_clears_cache_when_sent :
  ∀ (m : Machine) (t : tid) (st : TState),
    threads m !! t = Some st → is_hvac st →
    (∀ ev m' out,
       step ev m = Some m' → threads m' !! t = Some (Done (Fulfilled out)) →
       cache (svc m') = empty_cache) ∧
    (∀ url payload r e,
       st = Running (S_doFetch POST) [K_kamereon_first POST url payload; K_hvac_post] →
       doFetch_result POST r = Rejected e → _is401 (Some e) = false →
       step (Respond t r) m = Some (set_thread t (Done (Rejected e)) m)) ∧
    (∀ m0 evs ev m' e,
       fresh m0 → run evs m0 = Some m →
       step ev m = Some m' → threads m' !! t = Some (Done (Rejected e)) →
       cache (svc m') = cache (svc m)) ∧
    (∀ url payload r e,
       st = Running (S_doFetch POST) [K_kamereon_first POST url payload; K_hvac_post] →
       doFetch_result POST r = Rejected e → _is401 (Some e) = true →
       _reloginPromise (svc m) = None →
       ∃ m', step (Respond t r) m = Some m' ∧
             cache (svc m') = empty_cache ∧
             threads m' !! t =
               Some (Running (S_reloginOwn (length (threads m)))
                       [K_kamereon_relogin POST url payload; K_hvac_post])).
Proof.
  intros m t st Ht Hhvac. split; [|split; [|split]].
  - intros ev m' out Hstep Hdone.
    destruct (decide (stepper ev = Some t)) as [Hev|Hev]; cycle 1.
    { rewrite (step_other _ _ _ _ _ Hstep Ht Hev) in Hdone. by simplify_eq. }
    destruct (step_threads _ _ _ Hstep) as [new Hths]. rewrite Hev in Hths.
    destruct Hths as (Hlt & st' & _ & Hst'). rewrite Hst' in Hdone. simplify_eq.
    assert (Hadv : ∀ c m1, advance t c m1 = m' →
              ∃ n m2, c m1 = (n, m2) ∧ svc m' = svc m2 ∧
                      (t < length (threads m2) → state_of n = Done (Fulfilled out))).
    { intros c m1 <-. unfold advance in *. destruct (c m1) as [n m2].
      exists n, m2. split_and!; [done..|]. intros Hlt2. simpl in Hst'.
      rewrite list_lookup_insert_eq in Hst' by done. by simplify_eq. }
    destruct ev as [api|t' r|t']; simpl in Hev; simplify_eq; simpl in Hstep;
      rewrite Ht in Hstep; destruct st as [s ks|]; try done.
    + destruct (leaf_result s r) as [o|] eqn:Hleaf; [|done]. simplify_eq.
      destruct (Hadv _ _ eq_refl) as (n & m2 & Hu & -> & Hn).
      destruct (unwind_grows _ _ _ _ _ _ Hu) as [new2 Hnew2].
      assert (Hl : t < length (threads m2)) by (rewrite Hnew2, length_app; lia).
      specialize (Hn Hl). destruct n as [o'|s' ks']; [|done]. simpl in Hn. simplify_eq.
      eapply unwind_hvac_done; [|done]. by destruct s.
    + destruct s; try done.
      * simplify_eq. destruct (Hadv _ _ eq_refl) as (n & m2 & Hu & -> & Hn).
        exfalso. unfold bind in Hu.
        destruct (call_api t api m) as [n1 m1] eqn:Hc.
        pose proof Hc as Hq. apply call_api_quiet in Hq as [(_ & _ & new1 & Hnew1 & _) _].
        assert (n1 = n ∧ m1 = m2) as [-> ->].
        { destruct Hhvac as [-> _].
          destruct n1; simpl in Hu; unfold ret in Hu; rewrite ?app_nil_r in Hu;
            by simplify_eq. }
        assert (Hl : t < length (threads m2)) by (rewrite Hnew1, length_app; lia).
        specialize (Hn Hl). destruct n as [o'|s' ks']; [|done]. simpl in Hn. simplify_eq.
        destruct Hhvac as [_ [pl Hpl]].
        destruct api; try done; do 2 unfold_calls; repeat case_match; by simplify_eq.
      * destruct (outcome_of m p) as [o|]; [|done]. simplify_eq.
        destruct (Hadv _ _ eq_refl) as (n & m2 & Hu & -> & Hn).
        destruct (unwind_grows _ _ _ _ _ _ Hu) as [new2 Hnew2].
        assert (Hl : t < length (threads m2)) by (rewrite Hnew2, length_app; lia).
        specialize (Hn Hl). destruct n as [o'|s' ks']; [|done]. simpl in Hn. simplify_eq.
        by eapply unwind_hvac_done.
      * destruct (outcome_of m p) as [o|]; [|done]. simplify_eq.
        destruct (Hadv _ _ eq_refl) as (n & m2 & Hu & -> & Hn).
        change ((set_reloginPromise None;; unwind t o ks) m)%M
          with (unwind t o ks (cleared m)) in Hu.
        destruct (unwind_grows _ _ _ _ _ _ Hu) as [new2 Hnew2].
        assert (Hl : t < length (threads m2)).
        { rewrite Hnew2, length_app. simpl. lia. }
        specialize (Hn Hl). destruct n as [o'|s' ks']; [|done]. simpl in Hn. simplify_eq.
        by eapply unwind_hvac_done.
      * destruct (outcome_of m battery) as [ob|]; [|done].
        destruct (outcome_of m cockpit) as [oc|]; [|done].
        destruct (outcome_of m hvac) as [oh|]; [|done].
        destruct (outcome_of m location) as [ol|]; [|done]. simplify_eq.
        destruct (Hadv _ _ eq_refl) as (n & m2 & Hu & -> & Hn).
        unfold bind in Hu.
        destruct (summary_after_all now vin ob oc oh ol m) as [o m1] eqn:Ha.
        assert (threads m1 = threads m) as Hsame.
        { unfold_calls. by repeat case_match; simplify_eq. }
        destruct (unwind_grows _ _ _ _ _ _ Hu) as [new2 Hnew2].
        assert (Hl : t < length (threads m2)).
        { rewrite Hnew2, Hsame, length_app. lia. }
        specialize (Hn Hl). destruct n as [o'|s' ks']; [|done]. simpl in Hn. simplify_eq.
        by eapply unwind_hvac_done.
  - intros url payload r e -> Hres H401.
    rewrite (respond_first_other _ _ _ _ _ _ _ Ht) by by rewrite Hres.
    by rewrite Hres.
  - intros m0 evs ev m' e Hfresh Hrun Hstep Hdone.
    eapply hvac_fails_quietly; [|done..].
    eapply run_based; [by apply fresh_based|done].
  - intros url payload r e -> Hres H401 Hnone.
    rewrite (respond_first_401 _ _ _ _ _ _ _ _ Ht Hres H401), Hnone.
    eexists. split; [done|]. split; [done|]. simpl.
    apply list_lookup_insert_eq. rewrite length_app. apply lookup_lt_Some in Ht. lia.
Qed.


(** ** Authorization failure: re-login and one retry (C1) *)


(** ** Single-flight re-login: what holds in every state *)

(** X24: in every state a fresh client can reach, whatever the calls and
    the order of the network's answers, at most one re-login is in flight,
    and it is the one the marker names.  A call that meets an authorization
    failure while the marker is set joins that re-login: no thread is
    started and no request is sent, the call cannot resume before the
    re-login has settled, and if the re-login settles it resumes with that
    re-login's outcome.  The thread that started the re-login is waiting for
    it; if the re-login settles, successfully or not, this thread resumes
    and clears the marker, after which no re-login is in flight, and the
    next authorization failure starts a new one.  Whether the re-login
    settles is not part of this statement. *)
Theorem relogin_single_flight :
  ∀ (m0 : Machine) (evs : list Event) (m : Machine),
    fresh m0 → run evs m0 = Some m →
    length (relogins_in_flight m) ≤ 1 ∧
    (∀ p, p ∈ relogins_in_flight m → _reloginPromise (svc m) = Some p) ∧
    (∀ t mth url payload ks r e p,
       threads m !! t =
         Some (Running (S_doFetch mth) (K_kamereon_first mth url payload :: ks)) →
       doFetch_result mth r = Rejected e → _is401 (Some e) = true →
       _reloginPromise (svc m) = Some p →
       step (Respond t r) m =
       Some (set_thread t
               (Running (S_reloginJoin p) (K_kamereon_relogin mth url payload :: ks)) m)) ∧
    (∀ t p ks,
       threads m !! t = Some (Running (S_reloginJoin p) ks) →
       (∀ r, step (Respond t r) m = None) ∧
       (outcome_of m p = None → step (Wake t) m = None) ∧
       (∀ o, outcome_of m p = Some o →
             step (Wake t) m = Some (advance t (unwind t o ks) m))) ∧
    (∀ p, _reloginPromise (svc m) = Some p →
       ∃ t ks,
         threads m !! t = Some (Running (S_reloginOwn p) ks) ∧
         ∀ o, outcome_of m p = Some o →
           ∃ m', step (Wake t) m = Some m' ∧
                 _reloginPromise (svc m') = None ∧ relogins_in_flight m' = []) ∧
    (∀ t mth url payload ks r e,
       threads m !! t =
         Some (Running (S_doFetch mth) (K_kamereon_first mth url payload :: ks)) →
       doFetch_result mth r = Rejected e → _is401 (Some e) = true →
       _reloginPromise (svc m) = None →
       ∃ m', step (Respond t r) m = Some m' ∧
             _reloginPromise (svc m') = Some (length (threads m)) ∧
             relogins_in_flight m' = [length (threads m)]).
Proof.
  intros m0 evs m Hfresh Hrun.
  assert (HI : Inv m) by (eapply run_inv; [by apply fresh_inv|done]).
  split_and!.
  - by apply relogins_in_flight_le.
  - intros p. by apply relogins_in_flight_marker.
  - intros t mth url payload ks r e p Ht Hres H401 Hp.
    by rewrite (respond_first_401 _ _ _ _ _ _ _ _ Ht Hres H401), Hp.
  - intros t p ks Ht. split_and!.
    + intros r. unfold step. by rewrite Ht.
    + intros Hp. unfold step. by rewrite Ht, Hp.
    + intros o Hp. unfold step. by rewrite Ht, Hp.
  - intros p Hp. destruct (inv_owner _ HI _ Hp) as (t & st & Ht & Ho).
    destruct st as [[] ks|]; try done. simpl in Ho. subst p0.
    exists t, ks. split; [done|]. intros o Ho.
    assert (Hstep : step (Wake t) m = Some (advance t (unwind t o ks) (cleared m))).
    { unfold step. by rewrite Ht, Ho. }
    eexists. split; [done|].
    assert (Hnone : _reloginPromise (svc (advance t (unwind t o ks) (cleared m))) = None).
    { unfold advance. destruct (unwind t o ks (cleared m)) as [n m1] eqn:Hu.
      apply unwind_quiet in Hu as [(_ & Hm & _) _].
      - done.
      - eapply stack_ok_no_first; [by eapply inv_stack|done]. }
    split; [done|]. apply relogins_in_flight_none; [|done]. by eapply step_inv.
  - intros t mth url payload ks r e Ht Hres H401 Hnone.
    pose proof (respond_first_401 _ _ _ _ _ _ _ _ Ht Hres H401) as Hstep.
    rewrite Hnone in Hstep. eexists. split; [done|]. split; [done|].
    set (m' := set_thread _ _ _) in *.
    assert (HI' : Inv m') by by eapply step_inv.
    assert (Hin : length (threads m) ∈ relogins_in_flight m').
    { apply relogins_in_flight_spec.
      exists (Running S_gigyaLogin [K_ensure_login; K_iife]). split; [|done].
      subst m'. simpl.
      rewrite list_lookup_insert_ne by (apply lookup_lt_Some in Ht; lia).
      by rewrite lookup_app_r, Nat.sub_diag. }
    pose proof (relogins_in_flight_le _ HI') as Hle.
    destruct (relogins_in_flight m') as [|a [|b l]]; simpl in Hle; [|..|lia].
    + by apply elem_of_nil in Hin.
    + apply list_elem_of_singleton in Hin. by subst.
Qed.




(** ** The snapshot cache and its time to live (C5) *)


(** ** Caching the composite (C3) *)






(** ** One context for the four reads (C6) *)


(** ** A re-login that awaits itself

    The lookups [ensureContext] makes inside the arrow function of
    [_reloginLocked] go through [kamereonGet].  When one of them is refused
    with 401, its handler enters [_reloginLocked], finds the marker set and
    awaits the re-login it is itself a part of (lines 140-141, 178-179). *)

Lemma step_self_join ev m m' p ks :
  threads m !! p = Some (Running (S_reloginJoin p) ks) →
  step ev m = Some m' →
  threads m' !! p = Some (Running (S_reloginJoin p) ks).
Proof.
  intros Hp Hstep. eapply step_other; [done..|].
  intros Hev. destruct ev as [api|t r|t]; simplify_eq/=.
  - by rewrite Hp in Hstep.
  - unfold outcome_of in Hstep. by rewrite !Hp in Hstep.
Qed.

(** Such a re-login never settles: whatever happens next, its thread stays
    where it is, the marker stays set to it, and no caller awaiting it is
    ever resumed. *)
Theorem relogin_self_join_never_settles evs : ∀ m m' p ks,
  Inv m →
  threads m !! p = Some (Running (S_reloginJoin p) ks) → last ks = Some K_iife →
  run evs m = Some m' →
  threads m' !! p = Some (Running (S_reloginJoin p) ks) ∧
  _reloginPromise (svc m') = Some p ∧
  ∀ t s ks', threads m' !! t = Some (Running s ks') → awaits_relogin s p →
    step (Wake t) m' = None.
Proof.
  induction evs as [|ev evs IH]; intros m m' p ks HI Hp Hlast Hrun; simpl in Hrun.
  - simplify_eq. split_and!; [done| |].
    + by eapply (inv_live _ HI p).
    + intros t s ks' Ht [-> | ->]; simpl; rewrite Ht; unfold outcome_of; by rewrite Hp.
  - destruct (step ev m) as [m1|] eqn:Hstep; [|done].
    eapply IH; [by eapply step_inv | by eapply step_self_join | done..].
Qed.

(** A thread that awaits a re-login which awaits itself stays where it is. *)
Lemma awaiting_stuck_relogin evs : ∀ m m' p ks t s kt,
  Inv m →
  threads m !! p = Some (Running (S_reloginJoin p) ks) → last ks = Some K_iife →
  threads m !! t = Some (Running s kt) → awaits_relogin s p →
  run evs m = Some m' →
  threads m' !! t = Some (Running s kt).
Proof.
  induction evs as [|ev evs IH]; intros m m' p ks t s kt HI Hp Hlast Ht Hs Hrun;
    simpl in Hrun; [by simplify_eq|].
  destruct (step ev m) as [m1|] eqn:Hstep; [|done].
  eapply (IH m1 m' p ks); [by eapply step_inv|by eapply step_self_join|done| |done..].
  eapply step_other; [done..|].
  intros Hev. destruct ev as [api|t' r|t']; simplify_eq/=; rewrite Ht in Hstep.
  - by destruct Hs as [-> | ->].
  - destruct Hs as [-> | ->]; unfold outcome_of in Hstep; by rewrite Hp in Hstep.
Qed.

(** * Further properties of the service *)

(** ** [pick] *)

(** X10: [pick] returns null when no path leads to a value that is neither
    undefined, null nor the empty string; otherwise it returns the value at
    the first path that leads to such a value. *)
Theorem pick_first_usable obj paths :
  (pick obj paths = VNull ∧
   ∀ p w, p ∈ paths → walk obj p = Some w → usable w = false) ∨
  (∃ i p, paths !! i = Some p ∧ walk obj p = Some (pick obj paths) ∧
          usable (pick obj paths) = true ∧
          ∀ j q w, j < i → paths !! j = Some q → walk obj q = Some w → usable w = false).
Proof.
  induction paths as [|p paths IH]; simpl.
  - left. split; [done|]. intros p w Hin. by apply elem_of_nil in Hin.
  - destruct (walk obj p) as [cur|] eqn:Hw.
    + destruct (negb (nullish cur) && negb (is_str cur "")) eqn:Hu.
      * right. exists 0, p. split_and!; [done..|]. intros j q w Hj. lia.
      * destruct IH as [[Hn Hall]|(i & q & Hq & Hwq & Huq & Hear)].
        -- left. split; [done|]. intros p' w [->|Hin]%elem_of_cons Hw'.
           ++ by simplify_eq.
           ++ by eapply Hall.
        -- right. exists (S i), q. split_and!; [done..|].
           intros [|j] q' w Hj Hl Hw'; simpl in Hl; simplify_eq; [done|].
           eapply Hear; [|done..]. lia.
    + destruct IH as [[Hn Hall]|(i & q & Hq & Hwq & Huq & Hear)].
      * left. split; [done|]. intros p' w [->|Hin]%elem_of_cons Hw'.
        -- by simplify_eq.
        -- by eapply Hall.
      * right. exists (S i), q. split_and!; [done..|].
        intros [|j] q' w Hj Hl Hw'; simpl in Hl; simplify_eq.
        eapply Hear; [|done..]. lia.
Qed.




(** ** The credential exchange *)



(** ** Classification of failures *)

Lemma in_statuses s : (100 ≤ s ≤ 999)%Z → s ∈ statuses.
Proof.
  intros Hs. unfold statuses. apply list_elem_of_fmap. exists (Z.to_nat s).
  split; [lia|]. apply elem_of_seq. lia.
Qed.

Lemma statuses_classified mth :
  forallb (λ s, Bool.eqb (_is401 (Some (http_failure mth s ""))) (s =? 401)%Z) statuses = true.
Proof. destruct mth; vm_compute; reflexivity. Qed.

(** X4: a request answered with a status outside 200-299 fails with an
    HttpError that carries the status and the body text, and for a status
    of three digits [_is401] classifies that error as an authorization
    failure exactly when the status is 401. *)
Theorem http_failure_is_401_iff :
  ∀ (mth : Method) (res : Response),
    ok res = false → (100 ≤ status res ≤ 999)%Z →
    doFetch_result mth (NetOk res) =
      Rejected (http_failure mth (status res) (text res)) ∧
    (_is401 (reason (doFetch_result mth (NetOk res))) = true ↔ status res = 401%Z).
Proof.
  intros mth res Hok Hs. unfold doFetch_result. rewrite Hok. cbn [negb reason].
  split; [done|].
  change (_is401 (Some (HttpError ("Kamereon " +:+ method_name mth +:+ " " +:+
            show_Z (status res)) (status res) (text res))))
    with (_is401 (Some (http_failure mth (status res) ""))).
  pose proof (statuses_classified mth) as Hall.
  rewrite forallb_forall in Hall.
  specialize (Hall (status res)). rewrite <- list_elem_of_In in Hall.
  specialize (Hall (in_statuses _ Hs)). apply Bool.eqb_prop in Hall. rewrite Hall.
  apply Z.eqb_eq.
Qed.

Lemma includes_nonempty hay needle :
  includes hay needle = true → is_empty needle = false → is_empty hay = false.
Proof. by destruct hay, needle. Qed.

(** X5: [_is401] also goes by the text of the message: every error whose
    message contains a blank followed by 401 is classified as an
    authorization failure, whatever its kind.  So an answer with a status in
    200-299 whose body is no JSON, and whose parse error mentions 401 in
    that way, is treated as a refused token.  A fulfilled read (null) is
    never classified. *)
Theorem classified_by_message :
  (∀ e, includes (e_message e) " 401" = true → _is401 (Some e) = true) ∧
  (∀ mth res msg,
     ok res = true → is_empty (text res) = false → json res = inl msg →
     includes msg " 401" = true →
     doFetch_result mth (NetOk res) = Rejected (SyntaxError msg) ∧
     _is401 (Some (SyntaxError msg)) = true) ∧
  _is401 None = false.
Proof.
  assert (Hmsg : ∀ e, includes (e_message e) " 401" = true → _is401 (Some e) = true).
  { intros e Hinc. unfold _is401. case_bool_decide; [done|].
    cbn [from_option]. unfold err_text.
    rewrite (includes_nonempty _ _ Hinc) by done. rewrite Hinc.
    by rewrite !orb_true_r. }
  split_and!; [done| |done].
  intros mth res msg Hok Htxt Hjson Hinc. split.
  - unfold doFetch_result. by rewrite Hok, Htxt, Hjson.
  - by apply Hmsg.
Qed.

(** X6: when the first answer to [kamereonGet] or [kamereonPost] called
    by a client is not an authorization failure, the call settles with it at
    once, success or failure: nothing is sent again, no re-login starts, and
    the object is left as it was. *)
Theorem kamereon_other_outcome_is_final :
  ∀ (m : Machine) (t : nat) (mth : Method) (url : Url) (payload : Val) (r : NetResult),
    threads m !! t = Some (Running (S_doFetch mth) [K_kamereon_first mth url payload]) →
    _is401 (reason (doFetch_result mth r)) = false →
    step (Respond t r) m = Some (set_thread t (Done (doFetch_result mth r)) m).
Proof.
  intros m t mth url payload r Ht H401.
  by rewrite (respond_first_other _ _ _ _ _ _ _ Ht H401).
Qed.

(** ** The stored context *)

Lemma select_account_truthy person a : select_account person = inr a → truthy a = true.
Proof.
  unfold select_account. repeat case_match; try done. intros [= <-].
  by match goal with Hn : negb (truthy _) = false |- _ => apply negb_false_iff in Hn end.
Qed.

Lemma select_vin_truthy pref vins :
  vins ≠ [] → Forall (λ v, truthy v = true) vins → truthy (select_vin pref vins) = true.
Proof.
  intros Hne Hall. unfold select_vin.
  destruct (truthy pref) eqn:Hp; simpl.
  - destruct (Array_includes vins pref); [done|].
    destruct vins as [|v vins]; [done|]. by apply Forall_cons in Hall as [? _].
  - destruct vins as [|v vins]; [done|]. by apply Forall_cons in Hall as [? _].
Qed.

Lemma vins_of_truthy links : Forall (λ v, truthy v = true) (vins_of links).
Proof.
  unfold vins_of. apply Forall_forall. intros v Hin.
  apply list_elem_of_In, filter_In in Hin. by destruct Hin.
Qed.

Lemma select_vehicle_ok pref vehicles vin meta :
  select_vehicle pref vehicles = inr (vin, meta) →
  truthy vin = true ∧ get meta "vin" = vin.
Proof.
  unfold select_vehicle. destruct (links_of vehicles) as [| | | | |links|]; try done.
  destruct (vins_of links) as [|v vins] eqn:Hv; [done|]. intros [= <- <-]. split.
  - apply select_vin_truthy; [done|]. rewrite <- Hv. apply vins_of_truthy.
  - reflexivity.
Qed.

Lemma tokens_ok_read st : is_read st → thread_tokens_ok st.
Proof.
  destruct st as [[] [|[] []]|]; try done. intros _. split; [by repeat constructor|].
  split; [done|constructor].
Qed.

Ltac solve_grows :=
  unfold grows_ok; cbn [threads];
  first
    [ exists []; split; [ symmetry; apply app_nil_r | constructor ]
    | eexists [_]; split;
        [ reflexivity
        | constructor; [|constructor]; cbn; split_and!; by repeat constructor ]
    | eexists [_; _; _; _]; split;
        [ cbn [app]; by rewrite <- !app_assoc
        | repeat (apply Forall_cons; split; [apply tokens_ok_read; exact I|]);
          apply Forall_nil ] ].

Ltac solve_tokens :=
  cbn; first [ done | split; [ repeat constructor; try done | split; [ done | by repeat constructor ] ] ].

Lemma resume_ctx t k o m n m' :
  frame_ok k →
  (is_jwt k = true → ∀ v, o = Fulfilled v → truthy v = true) →
  ctx_ok (svc m) →
  resume_kont t k o m = (n, m') →
  ctx_ok (svc m') ∧ grows_ok m m' ∧ next_tokens_ok n.
Proof.
  intros Hk Ho Hctx Hr.
  destruct k; destruct o; do 2 unfold_calls;
    cbn [fst snd config svc net threads ctx vehicleMeta cache _reloginPromise state_of] in Hr;
    repeat case_match; simplify_eq;
    cbn [svc threads ctx vehicleMeta cache _reloginPromise].
  all: split; [|split; [solve_grows|]].
  all: try exact Hctx.
  all: try (by left).
  all: try solve_tokens.
  - by apply Ho.
  - by eapply select_account_truthy.
  - destruct Hk as [Ht Ha].
    match goal with Hs : select_vehicle _ _ = inr _ |- _ =>
      apply select_vehicle_ok in Hs as [Hv Hm] end.
    right. split; [|done]. unfold ctx_complete. cbn. by rewrite Ht, Ha, Hv.
Qed.

Lemma unwind_ctx t : ∀ ks o m n m',
  Forall frame_ok ks → token_outcome o ks → ctx_ok (svc m) →
  unwind t o ks m = (n, m') →
  ctx_ok (svc m') ∧ grows_ok m m' ∧
  match n with
  | Return _ => True
  | Await s ks' => tokens_ok s ks'
  end.
Proof.
  induction ks as [|k ks IH]; intros o m n m' Hks Ho Hctx Hu.
  - simpl in Hu. unfold ret in Hu. simplify_eq. split_and!; [done| |done].
    exists []. by rewrite app_nil_r.
  - apply Forall_cons in Hks as [Hk Hks]. destruct Ho as [Ho Hjwt].
    simpl in Hu. unfold bind in Hu.
    destruct (resume_kont t k o m) as [[o'|s pushed] m1] eqn:Hr;
      apply resume_ctx in Hr as (Hctx1 & (new1 & Hnew1 & Hok1) & Hn1); try done.
    + apply IH in Hu as (Hctx2 & (new2 & Hnew2 & Hok2) & Hn2); [|done| |done].
      * split_and!; [done| |done]. exists (new1 ++ new2).
        rewrite Hnew2, Hnew1, app_assoc. split; [done|]. by apply Forall_app.
      * destruct ks as [|k' ks]; [done|]. apply Forall_cons in Hjwt as [Hk' Hjwt].
        split; [|done]. intros Hj. congruence.
    + unfold ret in Hu. simplify_eq. split_and!; [done|by exists new1|].
      destruct Hn1 as [Hf Hhead]. split; [by apply Forall_app|].
      destruct pushed as [|p pushed]; simpl.
      * destruct ks as [|k' ks]; [done|]. apply Forall_cons in Hjwt as [Hk' Hjwt].
        split; [|done]. intros Hj. congruence.
      * destruct Hhead as [Hp Hrest]. split; [done|]. by apply Forall_app.
Qed.

Lemma call_api_ctx t api m n m' :
  ctx_ok (svc m) → call_api t api m = (n, m') →
  ctx_ok (svc m') ∧ grows_ok m m' ∧ next_tokens_ok n.
Proof.
  intros Hctx Hr.
  destruct api; do 2 unfold_calls;
    cbn [fst snd config svc net threads ctx vehicleMeta cache _reloginPromise state_of] in Hr;
    repeat case_match; simplify_eq;
    cbn [svc threads ctx vehicleMeta cache _reloginPromise].
  all: split; [|split; [solve_grows|]].
  all: try exact Hctx.
  all: try (by left).
  all: try solve_tokens.
Qed.

Lemma ctx_advance m m1 t st0 n :
  CtxInv m → threads m !! t = Some st0 →
  ctx_ok (svc m1) → grows_ok m m1 → thread_tokens_ok (state_of n) →
  CtxInv (set_thread t (state_of n) m1).
Proof.
  intros [Hctx Hths] Ht Hctx1 (new & Hnew & Hok) Hn. split; [done|].
  cbn [set_thread threads]. rewrite Hnew.
  apply Forall_insert; [|done]. by apply Forall_app.
Qed.

Lemma tokens_ok_outcome s ks o :
  tokens_ok s ks → (s = S_gigyaGetJwt → ∀ v, o = Fulfilled v → truthy v = true) →
  token_outcome o ks.
Proof.
  intros [_ Hhead] Ho. destruct ks as [|k ks]; [done|]. destruct Hhead as [Hk Hrest].
  split; [|done]. intros Hj. by apply Ho, Hk.
Qed.

Lemma jwt_truthy r v : gigyaGetJwt_result r = Fulfilled v → truthy v = true.
Proof.
  destruct r as [e|res]; [done|]. unfold gigyaGetJwt_result.
  destruct (truthy (pick (json_or_empty res) _)) eqn:Ht; cbn [negb]; [|done].
  by intros [= <-].
Qed.

Lemma step_ctx ev m m' : CtxInv m → step ev m = Some m' → CtxInv m'.
Proof.
  intros HI Hstep. pose proof HI as [Hctx Hths].
  destruct ev as [api|t r|t]; simpl in Hstep.
  - simplify_eq. split; [done|]. cbn [threads]. apply Forall_app. split; [done|].
    by repeat constructor.
  - destruct (threads m !! t) as [[s ks|]|] eqn:Ht; [|done..].
    destruct (leaf_result s r) as [o|] eqn:Hleaf; [|done]. simplify_eq.
    pose proof (Forall_lookup_1 _ _ _ _ Hths Ht) as Hok. simpl in Hok.
    unfold advance. destruct (unwind t o ks m) as [n m1] eqn:Hu.
    apply unwind_ctx in Hu as (Hctx1 & Hg & Hn); [|by destruct Hok| |done].
    + eapply ctx_advance; [done..|]. by destruct n.
    + eapply tokens_ok_outcome; [done|]. intros -> v ->. simpl in Hleaf.
      injection Hleaf as Hleaf. by eapply jwt_truthy.
  - destruct (threads m !! t) as [[s ks|]|] eqn:Ht; [|done..].
    pose proof (Forall_lookup_1 _ _ _ _ Hths Ht) as Hok. simpl in Hok.
    destruct s; try done.
    + simplify_eq. unfold advance, bind.
      destruct (call_api t api m) as [n1 m1] eqn:Hc.
      apply call_api_ctx in Hc as (Hctx1 & (new1 & Hnew1 & Hok1) & Hn1); [|done].
      destruct n1 as [o|s pushed].
      * destruct (unwind t o ks m1) as [n m2] eqn:Hu.
        apply unwind_ctx in Hu as (Hctx2 & (new2 & Hnew2 & Hok2) & Hn); [|by destruct Hok| |done].
        -- eapply ctx_advance; [done..| |by destruct n].
           exists (new1 ++ new2). rewrite Hnew2, Hnew1, app_assoc. split; [done|].
           by apply Forall_app.
        -- by eapply tokens_ok_outcome.
      * cbn [ret]. unfold ret. eapply (ctx_advance _ _ _ _ (Await s (pushed ++ ks)));
          [done..|by exists new1|].
        simpl. destruct Hn1 as [Hf Hhead], Hok as [Hf' Hhead'].
        split; [by apply Forall_app|].
        destruct pushed as [|p pushed]; simpl.
        -- destruct ks as [|k' ks]; [done|]. destruct Hhead' as [Hk' Hrest]. split; [|done].
           intros Hj. by apply Hk' in Hj.
        -- destruct Hhead as [Hp Hrest]. split; [done|]. apply Forall_app. split; [done|].
           destruct ks as [|k' ks]; [done|]. destruct Hhead' as [Hk' Hrest'].
           constructor; [|done]. destruct (is_jwt k'); [|done]. by specialize (Hk' eq_refl).
    + destruct (outcome_of m p) as [o|] eqn:Hp; [|done]. simplify_eq.
      unfold advance. destruct (unwind t o ks m) as [n m1] eqn:Hu.
      apply unwind_ctx in Hu as (Hctx1 & Hg & Hn); [|by destruct Hok| |done].
      * eapply ctx_advance; [done..|]. by destruct n.
      * by eapply tokens_ok_outcome.
    + destruct (outcome_of m p) as [o|] eqn:Hp; [|done]. simplify_eq.
      unfold advance.
      change ((set_reloginPromise None;; unwind t o ks) m)%M
        with (unwind t o ks (cleared m)).
      destruct (unwind t o ks (cleared m)) as [n m1] eqn:Hu.
      apply unwind_ctx in Hu as (Hctx1 & Hg & Hn); [|by destruct Hok| |done].
      * eapply ctx_advance; [done..|]. by destruct n.
      * by eapply tokens_ok_outcome.
    + destruct (outcome_of m battery) as [ob|]; [|done].
      destruct (outcome_of m cockpit) as [oc|]; [|done].
      destruct (outcome_of m hvac) as [oh|]; [|done].
      destruct (outcome_of m location) as [ol|]; [|done]. simplify_eq.
      unfold advance, bind.
      destruct (summary_after_all now vin ob oc oh ol m) as [o m1] eqn:Ha.
      assert (ctx_ok (svc m1) ∧ threads m1 = threads m) as [Hctx1 Hsame].
      { unfold_calls. by repeat case_match; simplify_eq. }
      destruct (unwind t o ks m1) as [n m2] eqn:Hu.
      apply unwind_ctx in Hu as (Hctx2 & (new2 & Hnew2 & Hok2) & Hn); [|by destruct Hok| |done].
      * eapply ctx_advance; [done..| |by destruct n].
        exists new2. by rewrite Hnew2, Hsame.
      * by eapply tokens_ok_outcome.
Qed.

Lemma run_ctx evs : ∀ m m', CtxInv m → run evs m = Some m' → CtxInv m'.
Proof.
  induction evs as [|ev evs IH]; intros m m' HI Hrun; simpl in Hrun; [by simplify_eq|].
  destruct (step ev m) as [m1|] eqn:Hstep; [|done].
  eapply IH; [|done]. by eapply step_ctx.
Qed.

Lemma RenaultService_initial e p c l v o env m :
  RenaultService e p c l v o env = inr m →
  svc m = initial_svc ∧ threads m = [] ∧ net m = [].
Proof. unfold RenaultService. case_match; [done|]. by intros [= <-]. Qed.

(** X1: from its construction on, whatever is called and however the
    network answers, the object holds either no context and no vehicle
    metadata, or a context that is complete in the sense of line 259 (its
    idToken, accountId and vin are truthy) together with metadata whose vin
    is the vin of the context. *)
Theorem context_is_null_or_complete :
  ∀ (email password country locale vin kamereonOrigin env_origin : Val)
    (m0 : Machine) (evs : list Event) (m : Machine),
    RenaultService email password country locale vin kamereonOrigin env_origin = inr m0 →
    run evs m0 = Some m →
    (ctx (svc m) = VNull ∧ vehicleMeta (svc m) = VNull) ∨
    (ctx_complete (svc m) = true ∧
     get (vehicleMeta (svc m)) "vin" = get (ctx (svc m)) "vin").
Proof.
  intros e p c l v o env m0 evs m Hnew Hrun.
  apply RenaultService_initial in Hnew as (Hsvc & Hths & _).
  assert (CtxInv m0) as HI.
  { split; [rewrite Hsvc; by left|]. rewrite Hths. constructor. }
  by destruct (run_ctx _ _ _ HI Hrun).
Qed.

(** ** Steps of [ensureContext] *)

Lemma find_MYRENAULT_spec xs found :
  find_MYRENAULT xs = inr found →
  (found = VUndef ∧ Forall (λ a, is_MYRENAULT a = false) xs) ∨
  (∃ i, xs !! i = Some found ∧ is_MYRENAULT found = true ∧
        ∀ j a, j < i → xs !! j = Some a → is_MYRENAULT a = false).
Proof.
  revert found. induction xs as [|a xs IH]; intros found; simpl.
  - intros [= <-]. left. by split.
  - destruct (get_strict a "accountType") as [e|t] eqn:Hg; [done|].
    assert (t = get a "accountType") as -> by (by destruct a; simplify_eq/=).
    fold (is_MYRENAULT a). destruct (is_MYRENAULT a) eqn:Ha.
    + intros [= <-]. right. exists 0. split_and!; [done..|]. intros j b Hj. lia.
    + intros [[-> Hall]|(i & Hi & Hf & Hear)]%IH.
      * left. split; [done|]. by constructor.
      * right. exists (S i). split_and!; [done..|].
        intros [|j] b Hj Hl; simpl in Hl; simplify_eq; [done|].
        eapply Hear; [|done]. lia.
Qed.

(** X11: the account id [ensureContext] goes on with is truthy, and it is
    that of the first account of type MYRENAULT when there is one, and that
    of the first account otherwise (read from accountId, or else from
    attributes.accountId). *)
Theorem select_account_prefers_MYRENAULT :
  ∀ (person id : Val), select_account person = inr id →
    truthy id = true ∧
    ∃ xs my, accounts_of person = VArr xs ∧ id = accountId_of my ∧
      ((∃ i, xs !! i = Some my ∧ is_MYRENAULT my = true ∧
             ∀ j a, j < i → xs !! j = Some a → is_MYRENAULT a = false) ∨
       (head xs = Some my ∧ Forall (λ a, is_MYRENAULT a = false) xs)).
Proof.
  intros person id. unfold select_account. fold (accounts_of person).
  destruct (length_falsy (accounts_of person)) eqn:Hlen; [done|].
  destruct (accounts_of person) as [| | | | |xs|] eqn:Hacc; try done.
  destruct (find_MYRENAULT xs) as [e|found] eqn:Hfind; [done|].
  destruct (get_strict _ "accountId") as [e|a] eqn:Hg; [done|].
  set (my := js_or found (List.hd VUndef xs)) in *.
  assert (a = get my "accountId") as -> by (by destruct my; simplify_eq/=).
  fold (accountId_of my). destruct (truthy (accountId_of my)) eqn:Hid; [|done].
  intros [= <-]. split; [done|]. exists xs, my. split_and!; [done..|].
  apply find_MYRENAULT_spec in Hfind as [[-> Hall]|(i & Hi & Hf & Hear)].
  - right. split; [|done]. subst my. unfold js_or. simpl.
    destruct xs; [done|]. done.
  - left. exists i. subst my.
    assert (truthy found = true) as Ht.
    { destruct found as [| | | | | |fs]; try done. }
    unfold js_or. rewrite Ht. by split_and!.
Qed.

(** X8: [ensureContext] stores and sends nothing on a path that fails:
    whenever one of its steps ends in a rejection, the object, the requests
    and the threads are exactly as they were when the step began.  The call
    itself never fails before its first request. *)
Theorem ensureContext_failure_writes_nothing :
  (∀ t k o m e m', is_ensure k = true →
     resume_kont t k o m = (Return (Rejected e), m') → m' = m) ∧
  (∀ t force m e m', call_ensureContext t force m ≠ (Return (Rejected e), m')).
Proof.
  split.
  - intros t k o m e m' Hk Hr.
    destruct k; try discriminate Hk; destruct o; do 2 unfold_calls;
      cbn [fst snd] in Hr; repeat case_match; by simplify_eq.
  - intros t force m e m' Hr. unfold_calls. by repeat case_match; simplify_eq.
Qed.

(** X7: the context resolution is not shared.  Two calls of
    [ensureContext] that are entered while the object holds no complete
    context each send a login request of their own, and neither changes the
    object. *)
Theorem ensureContext_is_not_shared :
  ∀ (m : Machine) (t1 t2 : nat) (f1 f2 : bool),
    t1 ≠ t2 →
    threads m !! t1 = Some (Running (S_call (ApiEnsureContext f1)) []) →
    threads m !! t2 = Some (Running (S_call (ApiEnsureContext f2)) []) →
    ctx_complete (svc m) = false →
    ∃ m', run [Wake t1; Wake t2] m = Some m' ∧
      net m' = net m ++ [(t1, login_request (config m)); (t2, login_request (config m))] ∧
      threads m' !! t1 = Some (Running S_gigyaLogin [K_ensure_login]) ∧
      threads m' !! t2 = Some (Running S_gigyaLogin [K_ensure_login]) ∧
      svc m' = svc m.
Proof.
  intros m t1 t2 f1 f2 Hne Ht1 Ht2 Hc.
  assert (Hwake : ∀ m0 t f, threads m0 !! t = Some (Running (S_call (ApiEnsureContext f)) []) →
            ctx_complete (svc m0) = false →
            step (Wake t) m0 =
            Some (set_thread t (Running S_gigyaLogin [K_ensure_login])
                    (sent t (login_request (config m0)) m0))).
  { intros m0 t f Ht Hc0. rewrite (wake_entered _ _ _ Ht). f_equal.
    unfold advance, call_api, call_ensureContext, bind, this_svc. rewrite Hc0.
    by rewrite andb_false_r. }
  eexists. cbn [run]. rewrite (Hwake _ _ _ Ht1 Hc).
  rewrite (Hwake _ t2 f2); cycle 1.
  { cbn [set_thread sent threads]. by rewrite list_lookup_insert_ne. }
  { done. }
  split; [reflexivity|]. cbn [set_thread sent threads net svc config].
  split_and!.
  - by rewrite <- app_assoc.
  - rewrite list_lookup_insert_ne by done. apply list_lookup_insert_eq.
    by eapply lookup_lt_Some.
  - apply list_lookup_insert_eq. rewrite length_insert. by eapply lookup_lt_Some.
  - done.
Qed.

(** ** The metadata of the selected vehicle *)

Lemma compare_Eq_sym f1 f2 : SpecFloat.SFcompare f1 f2 = Some Eq → SpecFloat.SFcompare f2 f1 = Some Eq.
Proof.
  destruct f1 as [s1|s1| |s1 m1 e1], f2 as [s2|s2| |s2 m2 e2]; simpl; try done;
    try (by destruct s1); try (by destruct s2); try (by destruct s1, s2).
  destruct s1, s2; try done;
    (destruct (Z.compare e1 e2) eqn:Ee; try done;
     apply Z.compare_eq in Ee as ->; rewrite Z.compare_refl;
     destruct (Pos.compare_cont Eq m1 m2) eqn:Em; try done;
     apply Pos.compare_eq in Em as ->; by rewrite Pos.compare_cont_refl).
Qed.

Lemma float_eqb_sym x y : PrimFloat.eqb x y = true → PrimFloat.eqb y x = true.
Proof.
  rewrite !FloatAxioms.eqb_spec. unfold SpecFloat.SFeqb.
  destruct (SpecFloat.SFcompare (FloatOps.Prim2SF x) (FloatOps.Prim2SF y)) as [[]|] eqn:E; try done.
  by rewrite (compare_Eq_sym _ _ E).
Qed.

Lemma float_eqb_refl x : PrimFloat.is_nan x = false → PrimFloat.eqb x x = true.
Proof. unfold PrimFloat.is_nan. by intros ->%negb_false_iff. Qed.

Lemma strict_eq_prim_sym a b : strict_eq_prim a b = true → strict_eq_prim b a = true.
Proof.
  destruct a, b; simpl; try done.
  - by destruct b, b0.
  - apply float_eqb_sym.
  - rewrite !String.eqb_eq. done.
Qed.

Lemma finite_not_nan x : isFinite x = true → PrimFloat.is_nan x = false.
Proof. unfold isFinite. by intros [-> _]%negb_true_iff%orb_false_iff. Qed.

Lemma val_eqb_refl : ∀ v, json_value v = true → val_eqb v v = true.
Proof.
  fix IH 1. intros [| |b|x|s|xs|fs]; simpl; try done.
  - by destruct b.
  - intros Hx. by apply float_eqb_refl, finite_not_nan.
  - intros _. apply String.eqb_refl.
  - induction xs as [|x xs IHxs]; [done|]. intros [Hx Hxs]%andb_prop.
    rewrite (IH x Hx). by apply IHxs.
  - induction fs as [|[k x] fs IHfs]; [done|]. intros [Hx Hfs]%andb_prop.
    rewrite String.eqb_refl, (IH x Hx). by apply IHfs.
Qed.

Lemma json_get v k : json_or_undefined v → json_or_undefined (get v k).
Proof.
  intros [->|Hv]; [by left|]. destruct v as [| | | | | |fs]; try by left.
  simpl. induction fs as [|[k' x] fs IH]; [by left|].
  simpl in Hv. apply andb_prop in Hv as [Hx Hfs]. simpl.
  destruct (String.eqb k k'); [by right|]. by apply IH.
Qed.

Lemma json_opt v k : json_or_undefined v → json_or_undefined (opt v k).
Proof. intros Hv. unfold opt. destruct (nullish v); [by left|]. by apply json_get. Qed.

Lemma json_js_or a b :
  json_or_undefined a → json_or_undefined b → json_or_undefined (js_or a b).
Proof. intros Ha Hb. unfold js_or. by destruct (truthy a). Qed.

Lemma json_vin_of_link l : json_or_undefined l → json_or_undefined (vin_of_link l).
Proof. intros Hl. unfold vin_of_link. repeat first [apply json_js_or | apply json_opt | done]. Qed.

Lemma json_links vehicles links :
  json_value vehicles = true → links_of vehicles = VArr links →
  Forall (λ l, json_value l = true) links.
Proof.
  intros Hv Hl.
  assert (json_or_undefined (links_of vehicles)) as [Hu|Hj].
  { unfold links_of. repeat first [apply json_js_or | apply json_opt]; by right. }
  { congruence. }
  rewrite Hl in Hj. simpl in Hj. clear Hl.
  induction links as [|l links IH]; [done|].
  apply andb_prop in Hj as [? ?]. constructor; [done|by apply IH].
Qed.

Lemma find_first {A} (f : A → bool) (l : list A) x :
  List.find f l = Some x →
  ∃ i, l !! i = Some x ∧ f x = true ∧ ∀ j y, j < i → l !! j = Some y → f y = false.
Proof.
  induction l as [|a l IH]; simpl; [done|]. destruct (f a) eqn:Ha.
  - intros [= <-]. exists 0. split_and!; [done..|]. intros j y Hj. lia.
  - intros (i & Hi & Hx & Hear)%IH. exists (S i). split_and!; [done..|].
    intros [|j] y Hj Hl; simpl in Hl; simplify_eq; [done|]. eapply Hear; [|done]. lia.
Qed.

Lemma vin_of_link_object l : vin_of_link l ≠ VUndef → truthy l = true.
Proof. destruct l; try done. Qed.

Lemma val_eqb_prim a b : strict_eq_prim a b = true → val_eqb a b = true.
Proof. by destruct a, b. Qed.

Lemma same_value_zero_eqb p x :
  truthy p = true → same_value_zero p x = true → val_eqb x p = true.
Proof.
  intros Hp Hs. apply val_eqb_prim, strict_eq_prim_sym.
  destruct p, x; simpl in *; try done.
  apply orb_prop in Hs as [?|[Hn _]%andb_prop]; [done|].
  rewrite Hn in Hp. by rewrite orb_true_r in Hp.
Qed.

(** X12: for a vehicles response as [JSON.parse] produces it, the selected
    vin is truthy and the stored metadata is extracted from the first link
    that carries the selected vin, with its vin set to the selected one: the
    fallback to the first link of line 282 is never taken. *)
Theorem metadata_is_of_selected_vehicle :
  ∀ (pref vehicles vin meta : Val),
    json_value vehicles = true →
    select_vehicle pref vehicles = inr (vin, meta) →
    truthy vin = true ∧ get meta "vin" = vin ∧
    ∃ links i link,
      links_of vehicles = VArr links ∧ links !! i = Some link ∧
      val_eqb (vin_of_link link) vin = true ∧
      (∀ j l, j < i → links !! j = Some l → val_eqb (vin_of_link l) vin = false) ∧
      meta = assign (_extractVehicleMetaFromLink link) "vin" vin.
Proof.
  intros pref vehicles vin meta Hjson Hsel.
  unfold select_vehicle in Hsel.
  destruct (links_of vehicles) as [| | | | |links|] eqn:Hlinks; try done.
  pose proof (json_links _ _ Hjson Hlinks) as Hall.
  destruct (vins_of links) as [|v0 vins] eqn:Hvins; [done|].
  set (selected := select_vin pref (v0 :: vins)) in *.
  assert (Htruthy : truthy selected = true).
  { subst selected. apply select_vin_truthy; [done|]. rewrite <- Hvins.
    apply vins_of_truthy. }
  assert (Hex : ∃ l, l ∈ links ∧ val_eqb (vin_of_link l) selected = true).
  { assert (Hvin : ∀ x, x ∈ v0 :: vins →
              ∃ l, l ∈ links ∧ x = vin_of_link l ∧ truthy x = true).
    { intros x Hx. rewrite <- Hvins in Hx. unfold vins_of in Hx.
      apply list_elem_of_In, filter_In in Hx as [Hx Ht].
      apply in_map_iff in Hx as (l & <- & Hl). exists l.
      by rewrite list_elem_of_In. }
    subst selected. unfold select_vin.
    destruct (truthy pref && Array_includes (v0 :: vins) pref) eqn:Hc.
    - apply andb_prop in Hc as [Hp Hinc]. unfold Array_includes in Hinc.
      apply existsb_exists in Hinc as (x & Hx & Hs).
      apply list_elem_of_In, Hvin in Hx as (l & Hl & -> & _).
      exists l. split; [done|]. by apply same_value_zero_eqb.
    - destruct (Hvin v0) as (l & Hl & Hv0 & Ht); [by left|].
      exists l. split; [done|]. simpl. rewrite <- Hv0. apply val_eqb_refl.
      rewrite Forall_forall in Hall.
      destruct (json_vin_of_link l) as [Hu|Hj]; [right; by apply Hall| |by rewrite <- Hv0 in Hj].
      rewrite <- Hv0 in Hu. by rewrite Hu in Ht. }
  destruct (List.find (λ v, val_eqb (vin_of_link v) selected) links) as [link|] eqn:Hfind.
  - apply find_first in Hfind as (i & Hi & Hlink & Hear).
    assert (truthy link = true) as Hobj.
    { apply vin_of_link_object. intros Hu. rewrite Hu in Hlink.
      destruct selected; try done. }
    injection Hsel as <- <-. split_and!; [done|reflexivity|].
    exists links, i, link. split_and!; [done..|].
    unfold js_or. cbn [from_option id]. by rewrite Hobj.
  - exfalso. destruct Hex as (l & Hl & Heq).
    apply list_elem_of_In in Hl.
    pose proof (find_none _ _ Hfind _ Hl) as Hn. simpl in Hn. congruence.
Qed.

(** ** The parsers on an empty answer *)

Lemma attributes_without_data r :
  (∀ k, get (opt r "data") k = VUndef) → ∀ k, get (attributes_of r) k = VUndef.
Proof.
  intros Hd k. unfold attributes_of.
  assert (opt (opt r "data") "attributes" = VUndef) as ->.
  { unfold opt at 1. by destruct (nullish (opt r "data")). }
  unfold js_or at 1. cbn [truthy]. unfold js_or. by destruct (truthy (opt r "data")).
Qed.

(** X13: a response whose data is absent, null, a primitive, an array or
    an empty object (the responses null and undefined included) parses
    without error to the readings with every field null, not plugged and not
    charging. *)
Theorem parsers_without_data :
  ∀ r : Val, (∀ k, get (opt r "data") k = VUndef) →
    parseBattery r = no_reading ∧
    parseCockpit r =
      VObj [("totalMileageKm", VNull); ("fuelAutonomyKm", VNull); ("timestamp", VNull)] ∧
    parseHvac r =
      VObj [("hvacStatus", VNull); ("externalTemperature", VNull);
            ("internalTemperature", VNull); ("lastUpdateTime", VNull)] ∧
    parseLocation r =
      VObj [("latitude", VNull); ("longitude", VNull); ("heading", VNull);
            ("timestamp", VNull)].
Proof.
  intros r Hd. pose proof (attributes_without_data r Hd) as Ha.
  unfold parseBattery, parseCockpit, parseHvac, parseLocation, timestamp_of.
  rewrite !Ha. split_and!; reflexivity.
Qed.

(** ** A re-login that awaits itself, from a fresh client *)

(** X2: in every state a fresh client can reach, a request made inside a
    re-login (by the thread of its arrow function) that is refused with an
    authorization failure makes that thread await the re-login it is itself:
    nothing is sent and nothing else changes.  Once the thread of a
    re-login awaits the re-login it is itself, the re-login never settles:
    whatever is called and however the network answers afterwards, that
    thread stays where it is, the marker stays set to it, and no caller
    that awaits the re-login is ever resumed. *)
Theorem relogin_awaiting_itself_never_settles :
  ∀ (m0 : Machine) (before : list Event) (m : Machine) (p : nat),
    fresh m0 → run before m0 = Some m →
    (∀ mth url payload ks r e,
       threads m !! p =
         Some (Running (S_doFetch mth) (K_kamereon_first mth url payload :: ks)) →
       last ks = Some K_iife →
       doFetch_result mth r = Rejected e → _is401 (Some e) = true →
       step (Respond p r) m =
       Some (set_thread p
               (Running (S_reloginJoin p) (K_kamereon_relogin mth url payload :: ks)) m) ∧
       last (K_kamereon_relogin mth url payload :: ks) = Some K_iife) ∧
    (∀ ks later m',
       threads m !! p = Some (Running (S_reloginJoin p) ks) → last ks = Some K_iife →
       run later m = Some m' →
       threads m' !! p = Some (Running (S_reloginJoin p) ks) ∧
       _reloginPromise (svc m') = Some p ∧
       ∀ t s ks', threads m' !! t = Some (Running s ks') → awaits_relogin s p →
         step (Wake t) m' = None).
Proof.
  intros m0 before m p Hfresh Hbefore.
  assert (HI : Inv m) by (eapply run_inv; [by apply fresh_inv|done]).
  split.
  - intros mth url payload ks r e Hp Hlast Hres H401.
    assert (Hl : ∀ k, last (k :: ks) = Some K_iife).
    { intros k. destruct ks as [|k' ks]; [done|]. by rewrite last_cons_cons. }
    split; [|apply Hl].
    rewrite (respond_first_401 _ _ _ _ _ _ _ _ Hp Hres H401).
    by rewrite (inv_live _ HI p _ Hp (Hl _)).
  - intros ks later m' Hp Hlast Hlater.
    by eapply relogin_self_join_never_settles.
Qed.

(** * Properties of the page *)

(** X14: for a battery block that the server has parsed, the page shows
    the server's own isCharging and isPlugged, its own heuristics taking no
    part; for the error marker of a failed read it shows neither charging
    nor plugged.  (Only for a block without the boolean does its own rule
    apply, under which a finite numeric status counts as charging exactly
    when it equals 1.) *)
Theorem page_shows_the_servers_reading :
  (∀ r : Val,
     VBool (isChargingFromBattery (parseBattery r)) = get (parseBattery r) "isCharging" ∧
     VBool (isPluggedFromBattery (parseBattery r)) = get (parseBattery r) "isPlugged") ∧
  (∀ e : Err,
     isChargingFromBattery (field_of parseBattery (Rejected e)) = false ∧
     isPluggedFromBattery (field_of parseBattery (Rejected e)) = false) ∧
  (∀ x : float, isFinite x = true →
     isChargingFromBattery (VObj [("chargingStatus", VNum x)]) = PrimFloat.eqb x 1%float).
Proof.
  split_and!.
  - intros r. split; reflexivity.
  - intros e. unfold field_of. destruct (err_text e) as [|c s]; split; reflexivity.
  - intros x Hx. unfold isChargingFromBattery. cbn. by rewrite Hx.
Qed.

(** * Properties of the web server *)

(** ** Configuration *)


Lemma lookup_assign_field k k' v fs :
  lookup_field k (assign_field k' v fs) =
  if String.eqb k k' then Some v else lookup_field k fs.
Proof.
  induction fs as [|[k0 x] fs IH]; simpl.
  - by destruct (String.eqb k k').
  - destruct (String.eqb k' k0) eqn:E0; simpl.
    + apply String.eqb_eq in E0 as ->. by destruct (String.eqb k k0).
    + destruct (String.eqb k k0) eqn:E1; [|done].
      apply String.eqb_eq in E1 as ->.
      destruct (String.eqb k0 k') eqn:E2; [|done].
      apply String.eqb_eq in E2 as ->. by rewrite String.eqb_refl in E0.
Qed.

Lemma lookup_field_None k fs : k ∉ fs.*1 → lookup_field k fs = None.
Proof.
  induction fs as [|[k0 x] fs IH]; simpl; [done|]. intros Hn.
  apply not_elem_of_cons in Hn as [Hne Hn]. destruct (String.eqb k k0) eqn:E.
  - by apply String.eqb_eq in E.
  - by apply IH.
Qed.

Lemma lookup_merge k over : ∀ base,
  NoDup over.*1 →
  lookup_field k (merge_fields base over) =
  match lookup_field k over with
  | Some v => Some v
  | None => lookup_field k base
  end.
Proof.
  unfold merge_fields. induction over as [|[k0 x] over IH]; intros base Hnd; simpl; [done|].
  apply NoDup_cons in Hnd as [Hk0 Hnd]. rewrite IH by done.
  rewrite lookup_assign_field. destruct (String.eqb k k0) eqn:E; [|done].
  apply String.eqb_eq in E as ->. by rewrite lookup_field_None.
Qed.

(** X16: in the merged configuration a key is taken from the environment
    when the environment has it, else from the JSON file when that has it,
    else from the file .env; the value is taken as it is, a blank one
    included. *)
Theorem merged_precedence :
  ∀ (w : Surroundings) (k : string),
    NoDup (spread (env_of w)).*1 → NoDup (spread (json_of w)).*1 →
    NoDup (spread (dotEnv_of w)).*1 →
    ∃ fs, merged w = VObj fs ∧
      lookup_field k fs =
      match lookup_field k (spread (env_of w)) with
      | Some v => Some v
      | None =>
          match lookup_field k (spread (json_of w)) with
          | Some v => Some v
          | None => lookup_field k (spread (dotEnv_of w))
          end
      end.
Proof.
  intros w k He Hj Hd. eexists. split; [reflexivity|]. cbn [fold_left].
  fold (env_of w) (json_of w) (dotEnv_of w).
  rewrite !lookup_merge by done. by repeat case_match.
Qed.



(** ** The file .env *)

Lemma append_nil s : EmptyString +:+ s = s.
Proof. reflexivity. Qed.

Lemma prefix_nil s : String.prefix EmptyString s = true.
Proof. by destruct s. Qed.

Lemma append_cons c s t : String c s +:+ t = String c (s +:+ t).
Proof. reflexivity. Qed.

Lemma split_lines_nonempty txt : split_lines txt ≠ [].
Proof.
  induction txt as [|c txt IH]; simpl; [done|].
  destruct (Ascii.eqb c LF); [done|].
  destruct (Ascii.eqb c CR && String.prefix (String LF EmptyString) txt); [done|].
  by destruct (split_lines txt).
Qed.

Lemma split_lines_empty txt : split_lines txt = [EmptyString] → txt = EmptyString.
Proof.
  destruct txt as [|c txt]; [done|]. simpl.
  pose proof (split_lines_nonempty txt) as Hne.
  destruct (Ascii.eqb c LF).
  { intros [= Hr]. by rewrite Hr in Hne. }
  destruct (Ascii.eqb c CR && String.prefix (String LF EmptyString) txt) eqn:Hc.
  { apply andb_prop in Hc as [_ Hp]. destruct txt as [|d txt]; [done|].
    cbn [String.prefix] in Hp. destruct (ascii_dec LF d) as [<-|]; [|done].
    cbn [split_lines]. rewrite Ascii.eqb_refl. intros [= Hr].
    by destruct (split_lines_nonempty txt). }
  by destruct (split_lines txt).
Qed.

Lemma indexOf_one_line l : one_line l = true ↔ indexOf l LF = None.
Proof.
  unfold one_line. by destruct (indexOf l LF).
Qed.

Lemma split_one_line l : one_line l = true → split_lines l = [l].
Proof.
  rewrite indexOf_one_line. induction l as [|c l IH]; [done|]. cbn [split_lines indexOf].
  destruct (Ascii.eqb c LF) eqn:Hc; [done|].
  destruct (indexOf l LF) eqn:E; [done|]. intros _. rewrite IH by done.
  assert (String.prefix (String LF EmptyString) l = false) as ->.
  { destruct l as [|d l]; [done|]. cbn [String.prefix].
    destruct (ascii_dec LF d) as [<-|]; [|done].
    cbn [indexOf] in E. by rewrite Ascii.eqb_refl in E. }
  by rewrite andb_false_r.
Qed.

Lemma chop_cons l ls : ls ≠ [] → chop (l :: ls) = l :: chop ls.
Proof. by destruct ls. Qed.

Lemma chop_nonempty ls : ls ≠ [] → chop ls ≠ [].
Proof. destruct ls as [|l [|l' ls]]; done. Qed.

Lemma split_lines_app a b :
  split_lines (a +:+ String LF b) = chop (split_lines a) ++ split_lines b.
Proof.
  induction a as [|c a IH].
  - rewrite append_nil. cbn [split_lines]. by rewrite Ascii.eqb_refl.
  - rewrite append_cons. cbn [split_lines].
    pose proof (split_lines_nonempty a) as Hne.
    destruct (Ascii.eqb c LF) eqn:Hc.
    { rewrite IH. by rewrite chop_cons. }
    destruct a as [|d a].
    { rewrite append_nil. cbn [split_lines String.prefix]. rewrite Ascii.eqb_refl.
      destruct (ascii_dec LF LF); [|done].
      rewrite prefix_nil.
      rewrite andb_true_r, andb_false_r.
      destruct (Ascii.eqb c CR) eqn:Hcr; [|cbn [chop strip_cr]; by rewrite Hcr].
      apply Ascii.eqb_eq in Hcr as ->. cbn [chop strip_cr]. by rewrite Ascii.eqb_refl. }
    assert (String.prefix (String LF EmptyString) (String d a +:+ String LF b) =
            String.prefix (String LF EmptyString) (String d a)) as ->.
    { rewrite append_cons. cbn [String.prefix]. rewrite !prefix_nil.
      by destruct (ascii_dec LF d). }
    destruct (Ascii.eqb c CR && String.prefix (String LF EmptyString) (String d a)); [done|].
    rewrite IH.
    destruct (split_lines (String d a)) as [|l [|l' ls]] eqn:Hs; [done| |done].
    destruct l as [|e l]; [by apply split_lines_empty in Hs|].
    reflexivity.
Qed.

Lemma trimEnd_snoc s c : is_space c = true → trimEnd (s +:+ String c EmptyString) = trimEnd s.
Proof.
  intros Hc. induction s as [|d s IH].
  - rewrite append_nil. cbn [trimEnd]. by rewrite Hc.
  - rewrite append_cons. cbn [trimEnd]. by rewrite IH.
Qed.

Lemma trimStart_snoc s c :
  is_space c = true →
  trimStart (s +:+ String c EmptyString) =
  if is_empty (trimStart s) then EmptyString else trimStart s +:+ String c EmptyString.
Proof.
  intros Hc. induction s as [|d s IH].
  - rewrite append_nil. cbn [trimStart is_empty]. by rewrite Hc.
  - rewrite append_cons. cbn [trimStart]. by destruct (is_space d).
Qed.

Lemma trim_snoc s c : is_space c = true → trim (s +:+ String c EmptyString) = trim s.
Proof.
  intros Hc. unfold trim. rewrite trimStart_snoc by done.
  destruct (trimStart s) as [|d t]; [done|]. cbn [is_empty]. by rewrite trimEnd_snoc.
Qed.

Lemma strip_cr_spec l : strip_cr l = l ∨ l = strip_cr l +:+ String CR EmptyString.
Proof.
  induction l as [|c l IH]; [by left|]. destruct l as [|d l].
  - cbn [strip_cr]. destruct (Ascii.eqb c CR) eqn:Hc; [|by left].
    apply Ascii.eqb_eq in Hc as ->. by right.
  - change (strip_cr (String c (String d l))) with (String c (strip_cr (String d l))).
    destruct IH as [IH|IH].
    + left. by rewrite IH.
    + right. rewrite append_cons. by rewrite <- IH.
Qed.

Lemma env_line_strip_cr out l : env_line out (strip_cr l) = env_line out l.
Proof.
  assert (trim (strip_cr l) = trim l) as Ht.
  { destruct (strip_cr_spec l) as [->|Hl]; [done|]. rewrite Hl at 2. by rewrite trim_snoc. }
  unfold env_line. by rewrite Ht.
Qed.

Lemma fold_env_chop ls : ∀ out,
  fold_left env_line (chop ls) out = fold_left env_line ls out.
Proof.
  induction ls as [|l [|l' ls] IH]; intros out; [done| |].
  - simpl. by rewrite env_line_strip_cr.
  - change (chop (l :: l' :: ls)) with (l :: chop (l' :: ls)). simpl. apply IH.
Qed.

Lemma trimStart_id s :
  match first_char s with Some c => negb (is_space c) | None => true end = true →
  trimStart s = s.
Proof. destruct s as [|c s]; [done|]. simpl. by intros ->%negb_true_iff. Qed.

Lemma trimEnd_cons c s :
  trimEnd (String c s) =
  if is_space c && is_empty (trimEnd s) then EmptyString else String c (trimEnd s).
Proof. reflexivity. Qed.

Lemma trimEnd_id s :
  match last_char s with Some c => negb (is_space c) | None => true end = true →
  trimEnd s = s.
Proof.
  induction s as [|c s IH]; [done|]. destruct s as [|d s].
  - simpl. by intros ->%negb_true_iff.
  - intros Hl. rewrite trimEnd_cons, IH by done. by rewrite andb_false_r.
Qed.

Lemma trim_id s : trimmed s = true → trim s = s.
Proof.
  intros [Hf Hl]%andb_prop. unfold trim. rewrite trimStart_id by done. by apply trimEnd_id.
Qed.

Lemma indexOf_app k c x :
  indexOf k c = None → indexOf (k +:+ String c x) c = Some (String.length k).
Proof.
  induction k as [|d k IH].
  - rewrite append_nil. cbn [indexOf]. by rewrite Ascii.eqb_refl.
  - rewrite append_cons. cbn [indexOf String.length].
    destruct (Ascii.eqb d c); [done|]. destruct (indexOf k c); [done|]. intros _.
    by rewrite IH.
Qed.

Lemma slice_to_app k x : slice_to (String.length k) (k +:+ x) = k.
Proof.
  induction k as [|d k IH]; [by destruct x|].
  rewrite append_cons. cbn [String.length slice_to]. by rewrite IH.
Qed.

Lemma slice_from_app k c x : slice_from (S (String.length k)) (k +:+ String c x) = x.
Proof.
  induction k as [|d k IH]; [done|]. rewrite append_cons.
  cbn [String.length slice_from]. apply IH.
Qed.

Lemma last_char_is_Some v : ∀ c, is_Some (last_char (String c v)).
Proof.
  induction v as [|d v IH]; intros c; [by eexists|].
  change (last_char (String c (String d v))) with (last_char (String d v)). apply IH.
Qed.

Lemma last_char_cons c v :
  last_char (String c v) = match last_char v with Some d => Some d | None => Some c end.
Proof.
  destruct v as [|d v]; [done|].
  change (last_char (String c (String d v))) with (last_char (String d v)).
  by destruct (last_char_is_Some v d) as [x ->].
Qed.

Lemma last_char_app k c v :
  last_char (k +:+ String c v) = last_char (String c v).
Proof.
  induction k as [|d k IH]; [done|]. rewrite append_cons, last_char_cons, IH.
  by rewrite last_char_cons; destruct (last_char v).
Qed.

Lemma indexOf_append_None a b c :
  indexOf a c = None → indexOf b c = None → indexOf (a +:+ b) c = None.
Proof.
  intros Ha Hb. induction a as [|d a IH]; [done|]. rewrite append_cons.
  cbn [indexOf] in *. destruct (Ascii.eqb d c); [done|].
  destruct (indexOf a c); [done|]. by rewrite IH.
Qed.

Lemma env_line_sets out k v raw :
  plain_key k = true → one_line raw = true → trimmed raw = true →
  v = (if enclosed_in double_quote raw || enclosed_in single_quote raw
       then slice_1_m1 raw else raw) →
  env_line out (k +:+ "=" +:+ raw) = assign_field k (VStr v) out.
Proof.
  unfold plain_key. rewrite !andb_true_iff, !negb_true_iff.
  intros ((((Hk1 & Heq) & Hkt) & Hhash) & Hproto) Hr1 Hrt ->.
  assert (indexOf k "=" = None) as Hidx by by destruct (indexOf k "=").
  change (k +:+ "=" +:+ raw) with (k +:+ String "=" raw).
  assert (trim (k +:+ String "=" raw) = k +:+ String "=" raw) as Htrim.
  { apply trim_id. unfold trimmed in *. apply andb_prop in Hkt as [Hkf _], Hrt as [_ Hrl].
    apply andb_true_intro. split.
    - destruct k as [|c k]; [reflexivity|]. rewrite append_cons. exact Hkf.
    - rewrite last_char_app, last_char_cons. destruct (last_char raw); [done|reflexivity]. }
  unfold env_line. rewrite Htrim.
  assert (is_empty (k +:+ String "=" raw) = false) as -> by by destruct k.
  assert (startsWith (k +:+ String "=" raw) "#" = false) as ->.
  { destruct k as [|c k]; [reflexivity|]. rewrite append_cons. unfold startsWith in *.
    cbn [String.prefix] in *. rewrite prefix_nil in Hhash. rewrite prefix_nil.
    by destruct (ascii_dec "#" c). }
  cbn [orb]. rewrite indexOf_app by done. rewrite slice_to_app, slice_from_app.
  rewrite !trim_id by done. by rewrite Hproto.
Qed.

Lemma dotEnv_fields_append txt line :
  one_line line = true →
  dotEnv_fields (txt +:+ newline +:+ line) = env_line (dotEnv_fields txt) line.
Proof.
  intros Hl. unfold dotEnv_fields.
  change (txt +:+ newline +:+ line) with (txt +:+ String LF line).
  rewrite split_lines_app, (split_one_line line) by done.
  by rewrite fold_left_app, fold_env_chop.
Qed.

(** X18: [parseDotEnv] reads a file line by line: the result for a file
    with one more line is the result for the file with that line applied to
    it.  A line that is blank, that begins with the number sign, or that has
    no equals sign leaves the result as it is. *)
Theorem parseDotEnv_appended_line :
  ∀ (txt line : string), one_line line = true →
    parseDotEnv (Some (txt +:+ newline +:+ line)) =
      VObj (env_line (dotEnv_fields txt) line) ∧
    (is_empty (trim line) || startsWith (trim line) "#" ||
     negb (bool_decide (is_Some (indexOf (trim line) "="))) = true →
     parseDotEnv (Some (txt +:+ newline +:+ line)) = parseDotEnv (Some txt)).
Proof.
  intros txt line Hl. unfold parseDotEnv. fold (dotEnv_fields (txt +:+ newline +:+ line)).
  fold (dotEnv_fields txt). rewrite dotEnv_fields_append by done. split; [done|].
  intros Hskip. f_equal. unfold env_line.
  destruct (is_empty (trim line) || startsWith (trim line) "#"); [done|].
  by destruct (indexOf (trim line) "=").
Qed.

(** X19: a line KEY=VALUE at the end of the file is read back: for a key
    without equals sign, without white space at its ends, that does not
    begin with the number sign and is not __proto__, and a value on one line
    without white space at its ends, the parsed object holds the value under
    the key, with one pair of enclosing quotes removed, whatever the lines
    before. *)
Theorem parseDotEnv_reads_back :
  ∀ (txt k v : string), plain_key k = true → one_line v = true → trimmed v = true →
    get (parseDotEnv (Some (txt +:+ newline +:+ k +:+ "=" +:+ v))) k =
    VStr (if enclosed_in double_quote v || enclosed_in single_quote v
          then slice_1_m1 v else v).
Proof.
  intros txt k v Hk Hv Ht.
  assert (one_line (k +:+ "=" +:+ v) = true) as Hline.
  { apply indexOf_one_line. unfold plain_key in Hk.
    rewrite !andb_true_iff in Hk. destruct Hk as ((((Hk1 & _) & _) & _) & _).
    apply indexOf_one_line in Hk1, Hv.
    apply indexOf_append_None; [done|]. by apply (indexOf_append_None "="). }
  unfold parseDotEnv. fold (dotEnv_fields (txt +:+ newline +:+ k +:+ "=" +:+ v)).
  rewrite dotEnv_fields_append by done.
  erewrite env_line_sets by done. unfold get. rewrite lookup_assign_field.
  by rewrite String.eqb_refl.
Qed.

(** ** The timer *)

Lemma or_number_truthy x : truthy (VNum (or_number x 20)) = true.
Proof. unfold or_number. by destruct (truthy (VNum x)) eqn:E. Qed.

Lemma json_number_running x :
  truthy (VNum x) = true → isFinite x = true → json_number x = VNum x.
Proof.
  unfold json_number. intros Ht ->. cbn [truthy] in Ht.
  apply negb_true_iff, orb_false_iff in Ht as [-> _]. done.
Qed.

(** X20: [getHvacState] never reports a timer that has run out: the
    hvacUntilMs it returns is 0, NaN, or not at or before the present.  It
    returns what the file holds and leaves the file alone, unless the timer
    in the file has run out: then it returns and writes the state with
    hvacUntilMs 0 and a temperature that is neither 0 nor NaN. *)
Theorem getHvacState_never_expired :
  ∀ (now : float) (file : option Val) (st : HvacState) (file' : option Val),
    getHvacState now file = (st, file') →
    truthy (VNum (hvacUntilMs st)) && PrimFloat.leb (hvacUntilMs st) now = false ∧
    ((file' = file ∧ st = loadState file) ∨
     (file' = saveState st ∧ hvacUntilMs st = 0%float ∧
      truthy (VNum (hvacTemp st)) = true ∧
      PrimFloat.leb (hvacUntilMs (loadState file)) now = true)).
Proof.
  intros now file st file'. unfold getHvacState.
  destruct (truthy (VNum (hvacUntilMs (loadState file))) &&
            PrimFloat.leb (hvacUntilMs (loadState file)) now) eqn:E; intros [= <- <-].
  - split; [done|]. right. split_and!; [done..|apply or_number_truthy|].
    by apply andb_prop in E as [_ ?].
  - split; [done|]. by left.
Qed.

(** X21: a timer that has been set is read back: after [setHvacRunning],
    when the end it computed is a finite number other than 0 and the
    temperature is finite, [loadState] returns the state that was set, and
    so does [getHvacState] at any time at which the timer has not run out,
    without writing the file.  The temperature set is never 0 or NaN. *)
Theorem timer_is_read_back :
  ∀ (minutes : float) (temp : Val) (now later : float) (st : HvacState) (file : option Val),
    setHvacRunning minutes temp now = (st, file) →
    truthy (VNum (hvacUntilMs st)) = true → isFinite (hvacUntilMs st) = true →
    isFinite (hvacTemp st) = true →
    PrimFloat.leb (hvacUntilMs st) later = false →
    loadState file = st ∧ getHvacState later file = (st, file) ∧
    truthy (VNum (hvacTemp st)) = true.
Proof.
  intros minutes temp now later st file. unfold setHvacRunning. intros [= <- <-].
  cbn [hvacUntilMs hvacTemp]. intros Hu Hfu Hft Hlater.
  pose proof (or_number_truthy (to_number temp)) as Ht.
  assert (Hload : loadState
            (saveState (mkHvacState (now + minutes * 60 * 1000)%float
                          (or_number (to_number temp) 20))) =
          mkHvacState (now + minutes * 60 * 1000)%float (or_number (to_number temp) 20)).
  { unfold saveState, loadState. cbn [hvacUntilMs hvacTemp].
    rewrite !json_number_running by done.
    cbn [opt nullish get lookup_field String.eqb Ascii.eqb Bool.eqb default].
    unfold js_or, id. rewrite Hu, Ht. done. }
  split_and!; [done| |done].
  unfold getHvacState. rewrite Hload. cbn [hvacUntilMs]. by rewrite Hlater, andb_false_r.
Qed.

(** X22: [clearHvacRunning] returns and writes a state without timer and
    with a temperature that is neither 0 nor NaN; the file then reads as
    cleared, and [getHvacState] reports no timer and leaves the file as it
    is, at any time. *)
Theorem cleared_timer_stays_cleared :
  ∀ (file : option Val) (st : HvacState) (file' : option Val),
    clearHvacRunning file = (st, file') →
    hvacUntilMs st = 0%float ∧ truthy (VNum (hvacTemp st)) = true ∧
    hvacUntilMs (loadState file') = 0%float ∧
    ∀ now, (getHvacState now file').2 = file' ∧
           hvacUntilMs (getHvacState now file').1 = 0%float.
Proof.
  intros file st file'. unfold clearHvacRunning. intros [= <- <-].
  cbn [hvacUntilMs hvacTemp].
  assert (Hu : hvacUntilMs (loadState
            (saveState (mkHvacState 0 (or_number (hvacTemp (loadState file)) 20)))) = 0%float).
  { reflexivity. }
  split_and!; [done|apply or_number_truthy|done|].
  intros now. unfold getHvacState. rewrite Hu. by cbn.
Qed.

(** ** The routes *)




End Properties.

(** * Runs of the scenarios *)

#[local] Existing Instance scenario_host.

Ltac run_scenario := vm_compute; first [reflexivity | done].
Ltac has_run := eexists; vm_compute; reflexivity.

(** ** C1 *)



(** ** A re-login whose own lookup is refused

    A read with a stale token is refused; the re-login it starts logs in and
    obtains a token, and its lookup of the person is refused with 401.  The
    re-login now awaits itself, and the read awaits the re-login. *)
Lemma relogin_awaits_itself :
  is_Some (run stale_read_relogin_refused_lookup driver) ∧
  threads (after stale_read_relogin_refused_lookup driver) !! 1 =
    Some (Running (S_reloginJoin 1)
            [K_kamereon_relogin GET
               (UrlRelative "/commerce/v1/persons/PERSON" DEFAULT_KAMEREON_ORIGIN) VUndef;
             K_ensure_person (VStr "COOKIE") (VStr "PERSON") (VStr "TOKEN2");
             K_iife]) ∧
  threads (after stale_read_relogin_refused_lookup driver) !! 0 =
    Some (Running (S_reloginOwn 1)
            [K_kamereon_relogin GET
               (UrlRelative "/commerce/v1/persons/PERSON" DEFAULT_KAMEREON_ORIGIN) VUndef]) ∧
  _reloginPromise (svc (after stale_read_relogin_refused_lookup driver)) = Some 1.
Proof. split_and!; [has_run|run_scenario..]. Qed.

(** ** C2 *)

(** C2 fails on the code when a request of the re-login itself is refused.
    A read with a stale token is refused with 401; the re-login it starts
    (thread 1) logs in, and its own lookup of the person is refused with
    401, so that the re-login awaits itself.  A second read (thread 2) is
    refused with 401 and joins it.  From then on, whatever is called and
    however the network answers: the re-login has no outcome, the marker
    names it, the read that started it and the read that joined it wait
    where they are, thread 1 is the one re-login in flight, and every
    further authorization failure joins it instead of starting a new one. *)
Lemma relogin_never_completes :
  let m := after second_read_joins driver in
  is_Some (run second_read_joins driver) ∧
  ∀ later m', run later m = Some m' →
    outcome_of m' 1 = None ∧
    _reloginPromise (svc m') = Some 1 ∧
    threads m' !! 0 = Some (Running (S_reloginOwn 1) read_awaits_relogin) ∧
    threads m' !! 2 = Some (Running (S_reloginJoin 1) read_awaits_relogin) ∧
    relogins_in_flight m' = [1] ∧
    (∀ t mth url payload ks r e,
       threads m' !! t =
         Some (Running (S_doFetch mth) (K_kamereon_first mth url payload :: ks)) →
       doFetch_result mth r = Rejected e → _is401 (Some e) = true →
       step (Respond t r) m' =
       Some (set_thread t
               (Running (S_reloginJoin 1) (K_kamereon_relogin mth url payload :: ks)) m')).
Proof.
  intros m. split; [has_run|]. intros later m' Hlater.
  assert (Hrun : run second_read_joins driver = Some m) by run_scenario.
  assert (HI : Inv m) by (eapply run_inv; [by apply (fresh_inv driver)|done]).
  assert (H1 : threads m !! 1 = Some (Running (S_reloginJoin 1) stuck_frames))
    by run_scenario.
  destruct (relogin_self_join_never_settles later m m' 1 stuck_frames HI H1 eq_refl Hlater)
    as (Hstuck & Hmarker & _).
  split_and!.
  - unfold outcome_of. by rewrite Hstuck.
  - done.
  - eapply (awaiting_stuck_relogin later m m' 1 stuck_frames 0); [done..| |by left|done].
    run_scenario.
  - eapply (awaiting_stuck_relogin later m m' 1 stuck_frames 2); [done..| |by right|done].
    run_scenario.
  - assert (HI' : Inv m') by by eapply run_inv.
    assert (Hin : 1 ∈ relogins_in_flight m').
    { apply relogins_in_flight_spec. by eexists. }
    pose proof (relogins_in_flight_le _ HI') as Hle.
    destruct (relogins_in_flight m') as [|a [|b l]]; simpl in Hle; [|..|lia].
    + by apply elem_of_nil in Hin.
    + apply list_elem_of_singleton in Hin. by subst.
  - intros t mth url payload ks r e Ht Hres H401.
    by rewrite (respond_first_401 _ _ _ _ _ _ _ _ Ht Hres H401), Hmarker.
Qed.

(** ** X24 *)

(** While the re-login started by [stopHvac] is in flight, it is the only one. *)
Lemma relogin_single_flight_witness :
  (fresh driver ∧ run stop_refused driver = Some (after stop_refused driver)) ∧
  length (relogins_in_flight (after stop_refused driver)) ≤ 1 ∧
  relogins_in_flight (after stop_refused driver) = [2].
Proof.
  split; [split; [done|run_scenario]|]. split; [|run_scenario].
  apply (relogin_single_flight driver stop_refused (after stop_refused driver));
    [done|run_scenario].
Defined.

(** ** C3 *)



(** ** C4 *)

(** [startHvac] awaits the answer to its POST while a snapshot is cached.
    A refusal with status 500 fails the action and leaves the machine as it
    was; an accepted POST completes the action and the cache is empty; a
    refusal with status 401 starts a re-login and empties the cache at once.
    When that re-login is refused, the action fails with the error of the
    login, and the step in which it fails leaves the cache as it was. *)
Lemma hvac_clears_cache_when_sent_witness :
  let m := after hvac_called driver in
  let url := hvac_url (config m) (ctx (svc m)) in
  let payload := start_payload (VNum 21) in
  let st := Running (S_doFetch POST) [K_kamereon_first POST url payload; K_hvac_post] in
  let e := HttpError "Kamereon POST 500" 500 "" in
  let e401 := HttpError "Kamereon POST 401" 401 "" in
  let accepted := after (hvac_called ++ [Respond 5 (respond_json (VObj []))]) driver in
  let m3 := after hvac_relogin_refused driver in
  let st3 := Running (S_reloginOwn 6) [K_kamereon_relogin POST url payload; K_hvac_post] in
  let failed := after (hvac_relogin_refused ++ [Wake 5]) driver in
  (threads m !! 5 = Some st ∧ is_hvac st ∧
   doFetch_result POST (respond_status 500) = Rejected e ∧ _is401 (Some e) = false ∧
   step (Respond 5 (respond_json (VObj []))) m = Some accepted ∧
   threads accepted !! 5 = Some (Done (Fulfilled (VObj []))) ∧
   truthy (data (cache (svc m))) = true ∧
   doFetch_result POST (respond_status 401) = Rejected e401 ∧ _is401 (Some e401) = true ∧
   _reloginPromise (svc m) = None ∧
   threads m3 !! 5 = Some st3 ∧ is_hvac st3 ∧
   fresh driver ∧ run hvac_relogin_refused driver = Some m3 ∧
   step (Wake 5) m3 = Some failed ∧
   threads failed !! 5 = Some (Done (Rejected login_error))) ∧
  step (Respond 5 (respond_status 500)) m = Some (set_thread 5 (Done (Rejected e)) m) ∧
  cache (svc accepted) = empty_cache ∧
  (∃ m', step (Respond 5 (respond_status 401)) m = Some m' ∧
         cache (svc m') = empty_cache ∧
         threads m' !! 5 =
           Some (Running (S_reloginOwn (length (threads m)))
                   [K_kamereon_relogin POST url payload; K_hvac_post])) ∧
  cache (svc failed) = cache (svc m3).
Proof.
  intros m url payload st e e401 accepted m3 st3 failed.
  split; [split_and!; try run_scenario; by left|].
  pose proof (hvac_clears_cache_when_sent m 5 st ltac:(run_scenario) ltac:(by left))
    as (Hdone & Hfail & _ & Hstart).
  pose proof (hvac_clears_cache_when_sent m3 5 st3 ltac:(run_scenario) ltac:(by left))
    as (_ & _ & Hquiet & _).
  split_and!.
  - apply (Hfail url payload (respond_status 500) e); [done|run_scenario..].
  - apply (Hdone (Respond 5 (respond_json (VObj []))) accepted (VObj [])); run_scenario.
  - apply (Hstart url payload (respond_status 401) e401); [done|run_scenario..].
  - apply (Hquiet driver hvac_relogin_refused (Wake 5) failed login_error);
      [split; reflexivity|run_scenario..].
Defined.

(** C4 as stated fails when the send fails.  A snapshot is cached; then
    [startHvac] is called and its POST is answered with status 500.  The
    action has thrown, and the cache still holds the snapshot. *)
Lemma hvac_refused_keeps_cache :
  is_Some (run hvac_refused driver) ∧
  threads (after hvac_refused driver) !! 5 =
    Some (Done (Rejected (HttpError "Kamereon POST 500" 500 ""))) ∧
  truthy (data (cache (svc (after hvac_refused driver)))) = true ∧
  at_ (cache (svc (after hvac_refused driver))) = 1000%Z ∧
  cache (svc (after hvac_refused driver)) = cache (svc (after summary_cached driver)) ∧
  cache (svc (after hvac_refused driver)) ≠ empty_cache.
Proof.
  split_and!; [has_run|run_scenario..|].
  intros Heq. vm_compute in Heq. discriminate.
Qed.

(** ** C5 *)



(** ** C6 *)


(** ** C8 *)

(** The example of the specification: of VIN1 and VIN2, the preferred VIN2
    is selected, and VIN1 when VIN9 is preferred. *)
Lemma ensureContext_selects_vehicle_witness :
  (links_of two_vehicles = VArr [VObj [("vin", VStr "VIN1")];
                                 VObj [("vin", VStr "VIN2");
                                       ("vehicleDetails", VObj [("modelName", VStr "R5")])]] ∧
   vins_of [VObj [("vin", VStr "VIN1")];
            VObj [("vin", VStr "VIN2");
                  ("vehicleDetails", VObj [("modelName", VStr "R5")])]]
     = [VStr "VIN1"; VStr "VIN2"]) ∧
  get (ctx (svc (ensure_after_vehicles (VStr "c") (VStr "p") (VStr "t") (VStr "a")
                   (Fulfilled two_vehicles) (client (VStr "VIN2"))).2)) "vin" = VStr "VIN2" ∧
  head [VStr "VIN1"; VStr "VIN2"]
    = Some (get (ctx (svc (ensure_after_vehicles (VStr "c") (VStr "p") (VStr "t")
                             (VStr "a") (Fulfilled two_vehicles) (client (VStr "VIN9"))).2)) "vin").
Proof.
  split; [split; reflexivity|]. split.
  - apply (ensureContext_selects_vehicle (client (VStr "VIN2"))
             (VStr "c") (VStr "p") (VStr "t") (VStr "a") two_vehicles _ eq_refl);
      [discriminate | reflexivity | reflexivity].
  - apply (ensureContext_selects_vehicle (client (VStr "VIN9"))
             (VStr "c") (VStr "p") (VStr "t") (VStr "a") two_vehicles _ eq_refl);
      [discriminate | reflexivity].
Defined.


(** ** C9 *)

(** With the context resolved, a further [ensureContext()] returns it at once. *)
Lemma ensureContext_fast_path_witness :
  let m := after (context_resolved ++ [Call (ApiEnsureContext false)]) driver in
  (ctx_complete (svc m) = true ∧
   threads m !! 1 = Some (Running (S_call (ApiEnsureContext false)) [])) ∧
  ∃ m', step (Wake 1) m = Some m' ∧
        threads m' = <[1 := Done (Fulfilled (ctx (svc m)))]> (threads m) ∧
        svc m' = svc m ∧ net m' = net m ∧ config m' = config m.
Proof.
  intros m. split; [split; run_scenario|].
  apply (proj2 (ensureContext_fast_path m ltac:(run_scenario)) 1). run_scenario.
Defined.

(** ** C10 *)



(** * Runs for the further properties *)

(** X1: the client of the runs is what the constructor builds, and after
    the context has been resolved it holds a complete context. *)
Lemma context_is_null_or_complete_witness :
  (RenaultService (VStr "driver@example.org") (VStr "secret")
     VUndef VUndef VUndef VUndef VUndef = inr driver ∧
   run context_resolved driver = Some (after context_resolved driver)) ∧
  ((ctx (svc (after context_resolved driver)) = VNull ∧
    vehicleMeta (svc (after context_resolved driver)) = VNull) ∨
   (ctx_complete (svc (after context_resolved driver)) = true ∧
    get (vehicleMeta (svc (after context_resolved driver))) "vin" =
    get (ctx (svc (after context_resolved driver))) "vin")).
Proof.
  split; [split; run_scenario|].
  apply (context_is_null_or_complete (VStr "driver@example.org") (VStr "secret")
           VUndef VUndef VUndef VUndef VUndef driver context_resolved);
    run_scenario.
Defined.

(** X2: the lookup of the person made by the re-login (thread 1) is
    refused with 401, and the re-login awaits itself; a [getSummary] called
    afterwards changes nothing of that, and the read that started the
    re-login (thread 0) cannot resume. *)
Lemma relogin_awaiting_itself_never_settles_witness :
  let pre := after (removelast stale_read_relogin_refused_lookup) driver in
  let m := after stale_read_relogin_refused_lookup driver in
  let m' := after summary_during_stuck_relogin m in
  let lookup := UrlRelative "/commerce/v1/persons/PERSON" DEFAULT_KAMEREON_ORIGIN in
  let inner := [K_ensure_person (VStr "COOKIE") (VStr "PERSON") (VStr "TOKEN2"); K_iife] in
  let e := HttpError "Kamereon GET 401" 401 "" in
  (fresh driver ∧
   run (removelast stale_read_relogin_refused_lookup) driver = Some pre ∧
   threads pre !! 1 =
     Some (Running (S_doFetch GET) (K_kamereon_first GET lookup VUndef :: inner)) ∧
   last inner = Some K_iife ∧
   doFetch_result GET (respond_status 401) = Rejected e ∧ _is401 (Some e) = true ∧
   run stale_read_relogin_refused_lookup driver = Some m ∧
   threads m !! 1 = Some (Running (S_reloginJoin 1) stuck_frames) ∧
   last stuck_frames = Some K_iife ∧
   run summary_during_stuck_relogin m = Some m') ∧
  step (Respond 1 (respond_status 401)) pre =
    Some (set_thread 1 (Running (S_reloginJoin 1) stuck_frames) pre) ∧
  threads m' !! 1 = Some (Running (S_reloginJoin 1) stuck_frames) ∧
  _reloginPromise (svc m') = Some 1 ∧
  step (Wake 0) m' = None.
Proof.
  intros pre m m' lookup inner e. split; [split_and!; run_scenario|].
  split.
  - apply (proj1 (relogin_awaiting_itself_never_settles driver
                    (removelast stale_read_relogin_refused_lookup) pre 1
                    ltac:(split; reflexivity) ltac:(run_scenario))
             GET lookup VUndef inner (respond_status 401) e); run_scenario.
  - destruct (proj2 (relogin_awaiting_itself_never_settles driver
                       stale_read_relogin_refused_lookup m 1
                       ltac:(split; reflexivity) ltac:(run_scenario))
                stuck_frames summary_during_stuck_relogin m')
      as (Hthread & Hmarker & Hwake); [run_scenario..|].
    split_and!; [done..|].
    apply (Hwake 0 (S_reloginOwn 1)
             [K_kamereon_relogin GET
                (UrlRelative "/commerce/v1/persons/PERSON" DEFAULT_KAMEREON_ORIGIN) VUndef]);
      [run_scenario|by left].
Defined.

(** X4: a GET refused with status 401 *)
Lemma http_failure_is_401_iff_witness :
  let res := mkResponse 401 "denied" (inl "") in
  (ok res = false ∧ (100 ≤ status res ≤ 999)%Z) ∧
  doFetch_result GET (NetOk res) = Rejected (http_failure GET 401 "denied") ∧
  (_is401 (reason (doFetch_result GET (NetOk res))) = true ↔ status res = 401%Z).
Proof.
  intros res. split; [split; [reflexivity|simpl; lia]|].
  apply (http_failure_is_401_iff GET res); [reflexivity|simpl; lia].
Defined.

(** X6: a read answered with status 500 ends with that failure. *)
Lemma kamereon_other_outcome_is_final_witness :
  let m := after [Call (ApiKamereonGet "/commerce/v1/persons/PERSON" (VStr "TOKEN")); Wake 0]
             driver in
  let url := UrlRelative "/commerce/v1/persons/PERSON" DEFAULT_KAMEREON_ORIGIN in
  (threads m !! 0 = Some (Running (S_doFetch GET) [K_kamereon_first GET url VUndef]) ∧
   _is401 (reason (doFetch_result GET (respond_status 500))) = false) ∧
  step (Respond 0 (respond_status 500)) m =
  Some (set_thread 0 (Done (doFetch_result GET (respond_status 500))) m).
Proof.
  intros m url. split; [split; run_scenario|].
  apply (kamereon_other_outcome_is_final m 0 GET url VUndef (respond_status 500));
    run_scenario.
Defined.

(** X7: two calls of [ensureContext] on a fresh client *)
Lemma ensureContext_is_not_shared_witness :
  let m := after [Call (ApiEnsureContext false); Call (ApiEnsureContext true)] driver in
  (0 ≠ 1 ∧
   threads m !! 0 = Some (Running (S_call (ApiEnsureContext false)) []) ∧
   threads m !! 1 = Some (Running (S_call (ApiEnsureContext true)) []) ∧
   ctx_complete (svc m) = false) ∧
  ∃ m', run [Wake 0; Wake 1] m = Some m' ∧
    net m' = net m ++ [(0, login_request (config m)); (1, login_request (config m))] ∧
    threads m' !! 0 = Some (Running S_gigyaLogin [K_ensure_login]) ∧
    threads m' !! 1 = Some (Running S_gigyaLogin [K_ensure_login]) ∧
    svc m' = svc m.
Proof.
  intros m. split; [split_and!; [lia|run_scenario..]|].
  apply (ensureContext_is_not_shared m 0 1 false true); [lia|run_scenario..].
Defined.

(** X11: the second account is the one of type MYRENAULT. *)
Lemma select_account_prefers_MYRENAULT_witness :
  select_account person_with_two_accounts = inr (VStr "A2") ∧
  truthy (VStr "A2") = true ∧
  ∃ xs my, accounts_of person_with_two_accounts = VArr xs ∧ VStr "A2" = accountId_of my ∧
    ((∃ i, xs !! i = Some my ∧ is_MYRENAULT my = true ∧
           ∀ j a, j < i → xs !! j = Some a → is_MYRENAULT a = false) ∨
     (head xs = Some my ∧ Forall (λ a, is_MYRENAULT a = false) xs)).
Proof.
  split; [reflexivity|].
  apply (select_account_prefers_MYRENAULT person_with_two_accounts (VStr "A2")).
  reflexivity.
Defined.

(** X12: with VIN2 preferred, the metadata is that of the second link. *)
Lemma metadata_is_of_selected_vehicle_witness :
  let meta := assign (_extractVehicleMetaFromLink second_link) "vin" (VStr "VIN2") in
  (json_value two_vehicles = true ∧
   select_vehicle (VStr "VIN2") two_vehicles = inr (VStr "VIN2", meta)) ∧
  truthy (VStr "VIN2") = true ∧ get meta "vin" = VStr "VIN2" ∧
  ∃ links i link,
    links_of two_vehicles = VArr links ∧ links !! i = Some link ∧
    val_eqb (vin_of_link link) (VStr "VIN2") = true ∧
    (∀ j l, j < i → links !! j = Some l → val_eqb (vin_of_link l) (VStr "VIN2") = false) ∧
    meta = assign (_extractVehicleMetaFromLink link) "vin" (VStr "VIN2").
Proof.
  intros meta. split; [split; reflexivity|].
  apply (metadata_is_of_selected_vehicle (VStr "VIN2") two_vehicles (VStr "VIN2") meta);
    reflexivity.
Defined.

(** X13: the response null *)
Lemma parsers_without_data_witness :
  (∀ k, get (opt VNull "data") k = VUndef) ∧
  parseBattery VNull = no_reading ∧
  parseCockpit VNull =
    VObj [("totalMileageKm", VNull); ("fuelAutonomyKm", VNull); ("timestamp", VNull)] ∧
  parseHvac VNull =
    VObj [("hvacStatus", VNull); ("externalTemperature", VNull);
          ("internalTemperature", VNull); ("lastUpdateTime", VNull)] ∧
  parseLocation VNull =
    VObj [("latitude", VNull); ("longitude", VNull); ("heading", VNull);
          ("timestamp", VNull)].
Proof.
  split; [intros k; reflexivity|].
  apply (parsers_without_data VNull). intros k. reflexivity.
Defined.

(** X16: the address given in the environment wins. *)
Lemma merged_precedence_witness :
  (NoDup (spread (env_of three_sources)).*1 ∧ NoDup (spread (json_of three_sources)).*1 ∧
   NoDup (spread (dotEnv_of three_sources)).*1) ∧
  ∃ fs, merged three_sources = VObj fs ∧
    lookup_field "RENAULT_EMAIL" fs =
    match lookup_field "RENAULT_EMAIL" (spread (env_of three_sources)) with
    | Some v => Some v
    | None =>
        match lookup_field "RENAULT_EMAIL" (spread (json_of three_sources)) with
        | Some v => Some v
        | None => lookup_field "RENAULT_EMAIL" (spread (dotEnv_of three_sources))
        end
    end.
Proof.
  assert (Hnd : NoDup (spread (env_of three_sources)).*1 ∧
                NoDup (spread (json_of three_sources)).*1 ∧
                NoDup (spread (dotEnv_of three_sources)).*1).
  { split_and!; apply (bool_decide_unpack _); vm_compute; exact I. }
  split; [exact Hnd|].
  apply (merged_precedence three_sources "RENAULT_EMAIL"); apply Hnd.
Defined.

(** X18: a comment after one assignment *)
Lemma parseDotEnv_appended_line_witness :
  one_line "# note" = true ∧
  parseDotEnv (Some ("A=1" +:+ newline +:+ "# note")) =
    VObj (env_line (dotEnv_fields "A=1") "# note") ∧
  (is_empty (trim "# note") || startsWith (trim "# note") "#" ||
   negb (bool_decide (is_Some (indexOf (trim "# note") "="))) = true →
   parseDotEnv (Some ("A=1" +:+ newline +:+ "# note")) = parseDotEnv (Some "A=1")).
Proof.
  split; [vm_compute; reflexivity|].
  apply (parseDotEnv_appended_line "A=1" "# note"). vm_compute. reflexivity.
Defined.

(** X19: a quoted value after one assignment *)
Lemma parseDotEnv_reads_back_witness :
  (plain_key "B" = true ∧ one_line "'two words'" = true ∧ trimmed "'two words'" = true) ∧
  get (parseDotEnv (Some ("A=1" +:+ newline +:+ "B" +:+ "=" +:+ "'two words'"))) "B" =
  VStr "two words".
Proof.
  split; [split_and!; vm_compute; reflexivity|].
  apply (parseDotEnv_reads_back "A=1" "B" "'two words'"); vm_compute; reflexivity.
Defined.

(** X20: at 2000 a timer that ended at 1000 is cleared. *)
Lemma getHvacState_never_expired_witness :
  let st := mkHvacState 0 21 in
  getHvacState 2000 timer_until_1000 = (st, saveState st) ∧
  truthy (VNum (hvacUntilMs st)) && PrimFloat.leb (hvacUntilMs st) 2000 = false ∧
  ((saveState st = timer_until_1000 ∧ st = loadState timer_until_1000) ∨
   (saveState st = saveState st ∧ hvacUntilMs st = 0%float ∧
    truthy (VNum (hvacTemp st)) = true ∧
    PrimFloat.leb (hvacUntilMs (loadState timer_until_1000)) 2000 = true)).
Proof.
  intros st. split; [vm_compute; reflexivity|].
  apply (getHvacState_never_expired 2000 timer_until_1000 st (saveState st)).
  vm_compute. reflexivity.
Defined.

(** X21: a timer of 15 minutes set at 1000 is read back at 2000. *)
Lemma timer_is_read_back_witness :
  let st := mkHvacState 901000 21 in
  (setHvacRunning 15 (VNum 21) 1000 = (st, saveState st) ∧
   truthy (VNum (hvacUntilMs st)) = true ∧ isFinite (hvacUntilMs st) = true ∧
   isFinite (hvacTemp st) = true ∧ PrimFloat.leb (hvacUntilMs st) 2000 = false) ∧
  loadState (saveState st) = st ∧ getHvacState 2000 (saveState st) = (st, saveState st) ∧
  truthy (VNum (hvacTemp st)) = true.
Proof.
  intros st. split; [split_and!; vm_compute; reflexivity|].
  apply (timer_is_read_back 15 (VNum 21) 1000 2000 st (saveState st));
    vm_compute; reflexivity.
Defined.

(** X22: clearing when there is no state file *)
Lemma cleared_timer_stays_cleared_witness :
  let st := mkHvacState 0 20 in
  clearHvacRunning None = (st, saveState st) ∧
  hvacUntilMs st = 0%float ∧ truthy (VNum (hvacTemp st)) = true ∧
  hvacUntilMs (loadState (saveState st)) = 0%float ∧
  ∀ now, (getHvacState now (saveState st)).2 = saveState st ∧
         hvacUntilMs (getHvacState now (saveState st)).1 = 0%float.
Proof.
  intros st. split; [vm_compute; reflexivity|].
  apply (cleared_timer_stays_cleared None st (saveState st)). vm_compute. reflexivity.
Defined.

